(** * Realm of Eternity: the procedural dungeon generator

    A shallow embedding of [Tools/generators/dungeon_generator.py] and the
    properties of the generated dungeons.

    Conventions of the embedding.
    - Python integers are [Z]; list indices and room identities, which the
      generator only ever counts up from zero, are [nat].
    - Python floats (the configured probabilities, [trap_density] and the
      values of [random.random()]) are exact rationals [Q].
    - [_room_distance] is only ever compared with other distances, so it is
      embedded as the squared distance, an integer with the same order.
    - The [random] module is an interface, [RandomGen]: a generator state,
      [random.seed], the primitive draw below a bound and [random.random()],
      with their documented ranges.  Every theorem holds for every
      implementation of the interface.
    - [random.sample] is the pool algorithm of the standard library; the
      proofs only use the length of its result.
    - The sets [connected] and [unconnected] of [_connect_rooms] are lists,
      iterated in list order; the proofs only use membership, so they hold
      for every iteration order.
    - Exceptions are values of [exn]; a computation is a function from the
      state to [result].  [OutOfFuel] is not a Python exception: it marks
      the one loop of the embedding that counts its rounds, and no run ends
      with it ([run_generator_fuel]). *)

From Stdlib Require Import ZArith QArith Qround String List Lia.
From stdpp Require Import base tactics option list relations.

Local Open Scope Z_scope.

(** ** Exceptions and the state-and-error monad *)

Inductive exn : Type :=
  | ValueError | IndexError | TypeError | KeyError | OutOfFuel.

Inductive result (A : Type) : Type :=
  | Ok (a : A)
  | Raise (e : exn).
Arguments Ok {A} a.
Arguments Raise {A} e.

Definition SE (S A : Type) : Type := S -> result (A * S).

Definition ret {S A} (a : A) : SE S A := fun s => Ok (a, s).

Definition raise {S A} (e : exn) : SE S A := fun _ => Raise e.

Definition bind {S A B} (m : SE S A) (f : A -> SE S B) : SE S B :=
  fun s => match m s with
           | Ok (a, s') => f a s'
           | Raise e => Raise e
           end.

Definition get_state {S} : SE S S := fun s => Ok (s, s).

Definition put_state {S} (s : S) : SE S unit := fun _ => Ok (tt, s).

Declare Scope se_scope.
Delimit Scope se_scope with se.
Notation "x <- m ;; k" := (bind m (fun x => k))
  (at level 100, m at next level, right associativity) : se_scope.
Notation "m ;;; k" := (bind m (fun _ => k))
  (at level 100, right associativity) : se_scope.
Local Open Scope se_scope.

(** [for _ in range(n): body] *)
Fixpoint repeat_se {S} (n : nat) (body : SE S unit) : SE S unit :=
  match n with
  | O => ret tt
  | Datatypes.S n' => body ;;; repeat_se n' body
  end.

(** A list comprehension or an accumulating loop whose body may raise. *)
Fixpoint map_se {S A B} (f : A -> SE S B) (l : list A) : SE S (list B) :=
  match l with
  | [] => ret []
  | a :: l' => b <- f a ;; bs <- map_se f l' ;; ret (b :: bs)
  end.

(** ** The [random] module *)

Class RandomGen : Type := {
  rng : Type;
  (** [random.seed(n)]: the state that follows seeding with [n]. *)
  seed_rng : Z -> rng;
  (** [_randbelow(n)], for [n > 0]. *)
  randbelow : Z -> rng -> Z * rng;
  randbelow_range : forall n g, 0 < n -> 0 <= fst (randbelow n g) < n;
  (** [random.random()]: a float in [[0, 1)]. *)
  random_unit : rng -> Q * rng;
  random_unit_range :
    forall g, (0 <= fst (random_unit g))%Q /\ (fst (random_unit g) < 1)%Q
}.

Definition Qltb (a b : Q) : bool := negb (Qle_bool b a).

Section Random.
Context `{RandomGen}.

Definition Rand (A : Type) : Type := SE rng A.

(** [random.randint(a, b)] raises [ValueError] on an empty range. *)
Definition randint (a b : Z) : Rand Z :=
  fun g => if b <? a then Raise ValueError
           else let '(r, g') := randbelow (b - a + 1) g in Ok (a + r, g').

Definition random : Rand Q := fun g => Ok (random_unit g).

(** The index [random.choice] draws in a sequence of length [n];
    [IndexError] on the empty sequence. *)
Definition choice_index (n : nat) : Rand nat :=
  fun g => match n with
           | O => Raise IndexError
           | _ => let '(i, g') := randbelow (Z.of_nat n) g in
                  Ok (Z.to_nat i, g')
           end.

Definition choice {A} (l : list A) : Rand A :=
  i <- choice_index (length l) ;;
  match l !! i with
  | Some a => ret a
  | None => raise IndexError
  end.

(** [random.sample(population, k)], by the pool algorithm of the standard
    library: position [j] is drawn among the [n] live ones, and the last
    live element is moved into the vacancy. *)
Fixpoint sample_pool {A} (k : nat) (pool : list A) (n : nat)
  : Rand (list A) :=
  match k with
  | O => ret []
  | Datatypes.S k' =>
      j <- choice_index n ;;
      match pool !! j, pool !! (n - 1)%nat with
      | Some a, Some last =>
          rest <- sample_pool k' (<[j := last]> pool) (n - 1)%nat ;;
          ret (a :: rest)
      | _, _ => raise IndexError
      end
  end.

Definition sample {A} (population : list A) (k : Z) : Rand (list A) :=
  if (k <? 0) || (Z.of_nat (length population) <? k)
  then raise ValueError
  else sample_pool (Z.to_nat k) population (length population).
End Random.

(** ** Data model *)

Inductive RoomType : Type :=
  | ENTRANCE | CORRIDOR | COMBAT | PUZZLE | TREASURE | BOSS | SKILL_CHECK
  | SAFE | SECRET.

Inductive TileType : Type :=
  | FLOOR | WALL | DOOR | LOCKED_DOOR | TRAP | WATER | LAVA | PIT
  | STAIRS_UP | STAIRS_DOWN.

Global Instance RoomType_eq_dec : EqDecision RoomType.
Proof. solve_decision. Defined.

Global Instance TileType_eq_dec : EqDecision TileType.
Proof. solve_decision. Defined.

(** The [.value] of the two enumerations. *)
Definition RoomType_value (t : RoomType) : string :=
  match t with
  | ENTRANCE => "entrance" | CORRIDOR => "corridor" | COMBAT => "combat"
  | PUZZLE => "puzzle" | TREASURE => "treasure" | BOSS => "boss"
  | SKILL_CHECK => "skill_check" | SAFE => "safe" | SECRET => "secret"
  end.

Definition TileType_value (t : TileType) : string :=
  match t with
  | FLOOR => "floor" | WALL => "wall" | DOOR => "door"
  | LOCKED_DOOR => "locked_door" | TRAP => "trap" | WATER => "water"
  | LAVA => "lava" | PIT => "pit" | STAIRS_UP => "stairs_up"
  | STAIRS_DOWN => "stairs_down"
  end.

(** The JSON values of the configuration tables, and dictionaries with
    [dict.get(key, default)]. *)
#[local] Set Warnings "-register-all".
Inductive value : Type :=
  | VInt (n : Z)
  | VStr (s : string)
  | VList (l : list value).

Definition dict : Type := list (string * value).

Fixpoint dict_get (d : dict) (k : string) (default : value) : value :=
  match d with
  | [] => default
  | (k', v) :: d' => if String.eqb k' k then v else dict_get d' k default
  end.

(** Encounter records: the dictionaries built by [_generate_encounters]
    (with a position) and by [_generate_boss_encounter] (with [is_boss]). *)
Inductive Encounter : Type :=
  | MonsterEncounter (monster_id level : value) (pos_x pos_y : Z)
  | BossEncounter (monster_id level mechanics : value).

Definition encounter_position (e : Encounter) : option (Z * Z) :=
  match e with
  | MonsterEncounter _ _ px py => Some (px, py)
  | BossEncounter _ _ _ => None
  end.

Record Loot : Type := { item_id : value; quantity : Z }.

Inductive PuzzleKind : Type :=
  | lever_sequence | pressure_plates | symbol_matching | torch_lighting
  | block_pushing.

Record Puzzle : Type := { puzzle_type : PuzzleKind; puzzle_count : Z }.

Module Room.
Record t : Type := mk {
  id : nat;
  room_type : RoomType;
  x : Z;
  y : Z;
  width : Z;
  height : Z;
  connections : list nat;
  encounters : list Encounter;
  loot : list Loot;
  puzzle : option Puzzle;
  skill_requirement : option dict
}.

(** [Room(id=..., room_type=..., x=..., y=..., width=..., height=...)] *)
Definition new (i : nat) (ty : RoomType) (x y w h : Z) : t :=
  mk i ty x y w h [] [] [] None None.

Definition set_room_type (ty : RoomType) (r : t) : t :=
  mk (id r) ty (x r) (y r) (width r) (height r) (connections r)
     (encounters r) (loot r) (puzzle r) (skill_requirement r).

Definition append_connection (c : nat) (r : t) : t :=
  mk (id r) (room_type r) (x r) (y r) (width r) (height r)
     (connections r ++ [c]) (encounters r) (loot r) (puzzle r)
     (skill_requirement r).

Definition set_encounters (es : list Encounter) (r : t) : t :=
  mk (id r) (room_type r) (x r) (y r) (width r) (height r) (connections r)
     es (loot r) (puzzle r) (skill_requirement r).

Definition set_loot (l : list Loot) (r : t) : t :=
  mk (id r) (room_type r) (x r) (y r) (width r) (height r) (connections r)
     (encounters r) l (puzzle r) (skill_requirement r).

Definition set_puzzle (p : option Puzzle) (r : t) : t :=
  mk (id r) (room_type r) (x r) (y r) (width r) (height r) (connections r)
     (encounters r) (loot r) p (skill_requirement r).
End Room.

Module Config.
Record t : Type := mk {
  name : string;
  theme : string;
  difficulty : string;
  min_rooms : Z;
  max_rooms : Z;
  min_room_size : Z;
  max_room_size : Z;
  width : Z;
  height : Z;
  combat_room_chance : Q;
  puzzle_room_chance : Q;
  treasure_room_chance : Q;
  secret_room_chance : Q;
  trap_density : Q;
  required_skills : list dict;
  monster_table : list dict;
  loot_table : list dict;
  boss_config : option dict
}.
End Config.

(** The grid: [height] rows of [width] tiles. *)
Abbreviation Grid := (list (list TileType)).

(** ** Rectangles *)

Record Rect : Type := { rx : Z; ry : Z; rw : Z; rh : Z }.

Definition room_rect (r : Room.t) : Rect :=
  {| rx := Room.x r; ry := Room.y r; rw := Room.width r; rh := Room.height r |}.

(** The rectangle grown by [p] tiles on all four sides. *)
Definition expand (p : Z) (r : Rect) : Rect :=
  {| rx := rx r - p; ry := ry r - p; rw := rw r + 2 * p; rh := rh r + 2 * p |}.

(** Two half-open rectangles share a tile. *)
Definition rect_intersects (a b : Rect) : bool :=
  (rx a <? rx b + rw b) && (rx b <? rx a + rw a) &&
  (ry a <? ry b + rh b) && (ry b <? ry a + rh a).

(** ** The grid, with Python's indexing *)

(** [l[i]] accepts [-len <= i < len]; a negative index counts from the end. *)
Definition py_index (len : nat) (i : Z) : option nat :=
  if (0 <=? i) && (i <? Z.of_nat len) then Some (Z.to_nat i)
  else if (- Z.of_nat len <=? i) && (i <? 0)
       then Some (Z.to_nat (Z.of_nat len + i))
       else None.

(** [grid[y][x]] *)
Definition grid_get (g : Grid) (x y : Z) : result TileType :=
  match py_index (length g) y with
  | None => Raise IndexError
  | Some j =>
      match g !! j with
      | None => Raise IndexError
      | Some row =>
          match py_index (length row) x with
          | None => Raise IndexError
          | Some i =>
              match row !! i with
              | Some t => Ok t
              | None => Raise IndexError
              end
          end
      end
  end.

(** [grid[y][x] = t] *)
Definition grid_set (g : Grid) (x y : Z) (t : TileType) : result Grid :=
  match py_index (length g) y with
  | None => Raise IndexError
  | Some j =>
      match g !! j with
      | None => Raise IndexError
      | Some row =>
          match py_index (length row) x with
          | None => Raise IndexError
          | Some i => Ok (<[j := <[i := t]> row]> g)
          end
      end
  end.

(** [range(a, b)] *)
Definition range (a b : Z) : list Z :=
  map (fun i => a + Z.of_nat i) (seq 0 (Z.to_nat (b - a))).

(** The coordinates visited by [for y in ys: for x in xs]. *)
Definition cells (xs ys : list Z) : list (Z * Z) :=
  flat_map (fun y => map (fun x => (x, y)) xs) ys.

(** A run of assignments [grid[y][x] = t], in order. *)
Fixpoint set_tiles (cs : list (Z * Z)) (t : TileType) (g : Grid)
  : result Grid :=
  match cs with
  | [] => Ok g
  | (x, y) :: cs' =>
      match grid_set g x y t with
      | Ok g' => set_tiles cs' t g'
      | Raise e => Raise e
      end
  end.

(** The cells of [cs] that hold [FLOOR], in order. *)
Fixpoint collect_floor (g : Grid) (cs : list (Z * Z))
  : result (list (Z * Z)) :=
  match cs with
  | [] => Ok []
  | (x, y) :: cs' =>
      match grid_get g x y with
      | Ok t =>
          match collect_floor g cs' with
          | Ok rest => Ok (if decide (t = FLOOR) then (x, y) :: rest else rest)
          | Raise e => Raise e
          end
      | Raise e => Raise e
      end
  end.

(** [int(q)] truncates towards zero. *)
Definition py_int (q : Q) : Z :=
  if Qle_bool 0 q then Qfloor q else Qceiling q.

(** [min(l, key=...)] and [max(l, key=...)] return the first extremal
    element; here, its index. *)
Fixpoint first_min_from {A} (key : A -> Z) (l : list A) (i best : nat)
  (best_key : Z) : nat :=
  match l with
  | [] => best
  | a :: l' =>
      if key a <? best_key then first_min_from key l' (S i) i (key a)
      else first_min_from key l' (S i) best best_key
  end.

Definition first_min {A} (key : A -> Z) (l : list A) : option nat :=
  match l with
  | [] => None
  | a :: l' => Some (first_min_from key l' 1 0 (key a))
  end.

Fixpoint first_max_from {A} (key : A -> Z) (l : list A) (i best : nat)
  (best_key : Z) : nat :=
  match l with
  | [] => best
  | a :: l' =>
      if best_key <? key a then first_max_from key l' (S i) i (key a)
      else first_max_from key l' (S i) best best_key
  end.

Definition first_max {A} (key : A -> Z) (l : list A) : option nat :=
  match l with
  | [] => None
  | a :: l' => Some (first_max_from key l' 1 0 (key a))
  end.

(** ** The generator *)

(** The mutable part of a [DungeonGenerator], with the state of the global
    [random] generator it draws from. *)
Module Self.
Record t `{RandomGen} : Type := mk {
  rooms : list Room.t;
  grid : Grid;
  next_room_id : nat;
  rand : rng
}.
End Self.

(** The dictionary built by [_export]. *)
Record Metadata : Type := {
  md_name : string;
  md_theme : string;
  md_difficulty : string;
  md_seed : Z;
  md_width : Z;
  md_height : Z
}.

Module RoomDict.
Record t : Type := mk {
  id : nat;
  type : string;
  bounds : Rect;
  connections : list nat;
  encounters : list Encounter;
  loot : list Loot;
  puzzle : option Puzzle;
  skill_requirement : option dict
}.
End RoomDict.

Module Output.
Record t : Type := mk {
  metadata : Metadata;
  rooms : list RoomDict.t;
  grid : list (list string);
  required_skills : list dict
}.
End Output.

Definition center (r : Room.t) : Z * Z :=
  (Room.x r + Room.width r / 2, Room.y r + Room.height r / 2).

(** The square of the distance between the room centers. *)
Definition _room_distance (r1 r2 : Room.t) : Z :=
  let c1 := center r1 in
  let c2 := center r2 in
  (fst c1 - fst c2) ^ 2 + (snd c1 - snd c2) ^ 2.

Definition _check_room_overlap (rooms : list Room.t) (x y width height : Z)
  : bool :=
  let padding := 2 in
  existsb (fun room =>
             (x <? Room.x room + Room.width room + padding) &&
             (x + width + padding >? Room.x room) &&
             (y <? Room.y room + Room.height room + padding) &&
             (y + height + padding >? Room.y room)) rooms.

Definition room_cells (room : Room.t) : list (Z * Z) :=
  cells (range (Room.x room) (Room.x room + Room.width room))
        (range (Room.y room) (Room.y room + Room.height room)).

Section Generator.
Context `{RandomGen}.
Variable config : Config.t.

Definition Run (A : Type) : Type := SE Self.t A.

Definition lift_rand {A} (m : Rand A) : Run A :=
  fun s => match m (Self.rand s) with
           | Ok (a, g) =>
               Ok (a, Self.mk _ (Self.rooms s) (Self.grid s)
                              (Self.next_room_id s) g)
           | Raise e => Raise e
           end.

Definition set_rooms (rs : list Room.t) : Run unit :=
  fun s => Ok (tt, Self.mk _ rs (Self.grid s) (Self.next_room_id s)
                           (Self.rand s)).

Definition modify_rooms (f : list Room.t -> list Room.t) : Run unit :=
  fun s => Ok (tt, Self.mk _ (f (Self.rooms s)) (Self.grid s)
                           (Self.next_room_id s) (Self.rand s)).

Definition update_grid (f : Grid -> result Grid) : Run unit :=
  fun s => match f (Self.grid s) with
           | Ok g => Ok (tt, Self.mk _ (Self.rooms s) g
                                     (Self.next_room_id s) (Self.rand s))
           | Raise e => Raise e
           end.

Definition incr_next_room_id : Run unit :=
  fun s => Ok (tt, Self.mk _ (Self.rooms s) (Self.grid s)
                           (S (Self.next_room_id s)) (Self.rand s)).

(** [self.rooms[i]] *)
Definition room_at (i : nat) : Run Room.t :=
  fun s => match Self.rooms s !! i with
           | Some r => Ok (r, s)
           | None => Raise IndexError
           end.

Definition _carve_room (room : Room.t) : Run unit :=
  update_grid (set_tiles (room_cells room) FLOOR).

Definition in_grid (c : Z * Z) : bool :=
  (0 <=? fst c) && (fst c <? Config.width config) &&
  (0 <=? snd c) && (snd c <? Config.height config).

Definition _carve_h_corridor (x1 x2 y : Z) : Run unit :=
  update_grid
    (set_tiles
       (List.filter in_grid
          (map (fun x => (x, y)) (range (Z.min x1 x2) (Z.max x1 x2 + 1))))
       FLOOR).

Definition _carve_v_corridor (y1 y2 x : Z) : Run unit :=
  update_grid
    (set_tiles
       (List.filter in_grid
          (map (fun y => (x, y)) (range (Z.min y1 y2) (Z.max y1 y2 + 1))))
       FLOOR).

Definition _carve_corridor (r1 r2 : Room.t) : Run unit :=
  let c1 := center r1 in
  let c2 := center r2 in
  roll <- lift_rand random ;;
  if Qltb roll (1 # 2) then
    _carve_h_corridor (fst c1) (fst c2) (snd c1) ;;;
    _carve_v_corridor (snd c1) (snd c2) (fst c2)
  else
    _carve_v_corridor (snd c1) (snd c2) (fst c1) ;;;
    _carve_h_corridor (fst c1) (fst c2) (snd c2).

(** *** Room placement *)

Definition place_trial : Run unit :=
  width <- lift_rand (randint (Config.min_room_size config)
                              (Config.max_room_size config)) ;;
  height <- lift_rand (randint (Config.min_room_size config)
                               (Config.max_room_size config)) ;;
  x <- lift_rand (randint 2 (Config.width config - width - 2)) ;;
  y <- lift_rand (randint 2 (Config.height config - height - 2)) ;;
  s <- get_state ;;
  if negb (_check_room_overlap (Self.rooms s) x y width height) then
    let room := Room.new (Self.next_room_id s) CORRIDOR x y width height in
    incr_next_room_id ;;;
    modify_rooms (fun rs => rs ++ [room]) ;;;
    _carve_room room
  else ret tt.

(** The loop of [_generate_rooms_bsp], with its [break]. *)
Fixpoint place_loop (n : nat) (num_rooms : Z) : Run unit :=
  match n with
  | O => ret tt
  | Datatypes.S n' =>
      s <- get_state ;;
      if num_rooms <=? Z.of_nat (length (Self.rooms s)) then ret tt
      else place_trial ;;; place_loop n' num_rooms
  end.

Definition _generate_rooms_bsp : Run unit :=
  num_rooms <- lift_rand (randint (Config.min_rooms config)
                                  (Config.max_rooms config)) ;;
  place_loop (Z.to_nat (num_rooms * 3)) num_rooms.

(** *** Connectivity *)

(** The two nested loops over [connected] and [unconnected]: [best_dist]
    is [None] while it is [float('inf')]. *)
Fixpoint scan_pairs (rooms : list Room.t) (pairs : list (nat * nat))
  (best_dist : option Z) (best_pair : nat * nat)
  : result (option Z * (nat * nat)) :=
  match pairs with
  | [] => Ok (best_dist, best_pair)
  | (c, u) :: pairs' =>
      match rooms !! c, rooms !! u with
      | Some rc, Some ru =>
          let dist := _room_distance rc ru in
          let better := match best_dist with
                        | None => true
                        | Some b => dist <? b
                        end in
          if better then scan_pairs rooms pairs' (Some dist) (c, u)
          else scan_pairs rooms pairs' best_dist best_pair
      | _, _ => Raise IndexError
      end
  end.

Definition pairs_of (connected unconnected : list nat) : list (nat * nat) :=
  flat_map (fun c => map (fun u => (c, u)) unconnected) connected.

Definition append_connection_at (i c : nat) : Run unit :=
  fun s => match Self.rooms s !! i with
           | Some _ => modify_rooms (alter (Room.append_connection c) i) s
           | None => Raise IndexError
           end.

(** [unconnected.remove(u)] raises [KeyError] when [u] is absent. *)
Definition set_remove (u : nat) (l : list nat) : result (list nat) :=
  if decide (u ∈ l) then Ok (List.filter (fun v => negb (Nat.eqb v u)) l)
  else Raise KeyError.

(** [while unconnected: ...]; each round removes one element, so
    [length unconnected] rounds suffice. *)
Fixpoint mst_loop (fuel : nat) (connected unconnected : list nat)
  : Run unit :=
  match unconnected with
  | [] => ret tt
  | _ :: _ =>
      match fuel with
      | O => raise OutOfFuel
      | Datatypes.S fuel' =>
          s <- get_state ;;
          match scan_pairs (Self.rooms s) (pairs_of connected unconnected)
                           None (0%nat, 1%nat) with
          | Raise e => raise e
          | Ok (_, (c, u)) =>
              rc <- room_at c ;;
              ru <- room_at u ;;
              _carve_corridor rc ru ;;;
              append_connection_at c u ;;;
              append_connection_at u c ;;;
              match set_remove u unconnected with
              | Raise e => raise e
              | Ok unconnected' =>
                  mst_loop fuel' (connected ++ [u]) unconnected'
              end
          end
      end
  end.

Definition extra_connection : Run unit :=
  s <- get_state ;;
  i1 <- lift_rand (choice_index (length (Self.rooms s))) ;;
  r1 <- room_at i1 ;;
  i2 <- lift_rand (choice_index (length (Self.rooms s))) ;;
  r2 <- room_at i2 ;;
  if negb (Nat.eqb (Room.id r1) (Room.id r2)) &&
     negb (bool_decide (Room.id r2 ∈ Room.connections r1))
  then
    _carve_corridor r1 r2 ;;;
    append_connection_at i1 (Room.id r2) ;;;
    append_connection_at i2 (Room.id r1)
  else ret tt.

Definition _connect_rooms : Run unit :=
  s <- get_state ;;
  let n := length (Self.rooms s) in
  if (n <? 2)%nat then ret tt
  else
    mst_loop (n - 1) [0%nat] (seq 1 (n - 1)) ;;;
    extra_connections <- lift_rand (randint 1 (Z.of_nat n / 4)) ;;
    repeat_se (Z.to_nat extra_connections) extra_connection.

(** *** Special rooms *)

Definition edge_distance (r : Room.t) : Z :=
  Z.min (Z.min (Z.min (Room.x r) (Room.y r))
               (Config.width config - Room.x r - Room.width r))
        (Config.height config - Room.y r - Room.height r).

Definition _place_special_rooms : Run unit :=
  s <- get_state ;;
  match first_min edge_distance (Self.rooms s) with
  | None => ret tt
  | Some ie =>
      modify_rooms (alter (Room.set_room_type ENTRANCE) ie) ;;;
      entrance <- room_at ie ;;
      s' <- get_state ;;
      match first_max (_room_distance entrance) (Self.rooms s') with
      | None => ret tt
      | Some ib => modify_rooms (alter (Room.set_room_type BOSS) ib)
      end
  end.

(** *** Content *)

Fixpoint replicate_se {S A} (n : nat) (m : SE S A) : SE S (list A) :=
  match n with
  | O => ret []
  | Datatypes.S n' => a <- m ;; rest <- replicate_se n' m ;; ret (a :: rest)
  end.

Definition _generate_encounters (room : Room.t) : Rand (list Encounter) :=
  match Config.monster_table config with
  | [] => ret []
  | _ :: _ =>
      num_monsters <-
        randint 1 (Z.max 1 ((Room.width room * Room.height room) / 20)) ;;
      replicate_se (Z.to_nat num_monsters)
        (monster <- choice (Config.monster_table config) ;;
         px <- randint (Room.x room + 1)
                       (Room.x room + Room.width room - 2) ;;
         py <- randint (Room.y room + 1)
                       (Room.y room + Room.height room - 2) ;;
         ret (MonsterEncounter
                (dict_get monster "id" (VStr "generic_monster"))
                (dict_get monster "level" (VInt 1)) px py))
  end.

(** An empty dictionary is false, like [None]. *)
Definition _generate_boss_encounter : list Encounter :=
  match Config.boss_config config with
  | Some ((_ :: _) as boss) =>
      [BossEncounter (dict_get boss "id" (VStr "dungeon_boss"))
                     (dict_get boss "level" (VInt 100))
                     (dict_get boss "mechanics" (VList []))]
  | _ => []
  end.

Definition _generate_loot (room : Room.t) (bonus boss : bool)
  : Rand (list Loot) :=
  match Config.loot_table config with
  | [] => ret []
  | _ :: _ =>
      n0 <- randint 1 3 ;;
      let n1 := if bonus then n0 + 2 else n0 in
      let num_items := if boss then n1 + 3 else n1 in
      replicate_se (Z.to_nat num_items)
        (item <- choice (Config.loot_table config) ;;
         match dict_get item "max_quantity" (VInt 1) with
         | VInt m =>
             q <- randint 1 m ;;
             ret {| item_id := dict_get item "id" (VStr "gold_coins");
                    quantity := if boss then q * 2 else q |}
         | _ => raise TypeError
         end)
  end.

Definition _generate_puzzle : Rand Puzzle :=
  levers <- randint 3 6 ;;
  plates <- randint 4 9 ;;
  symbols <- randint 3 5 ;;
  torches <- randint 4 8 ;;
  blocks <- randint 2 4 ;;
  choice [ {| puzzle_type := lever_sequence; puzzle_count := levers |};
           {| puzzle_type := pressure_plates; puzzle_count := plates |};
           {| puzzle_type := symbol_matching; puzzle_count := symbols |};
           {| puzzle_type := torch_lighting; puzzle_count := torches |};
           {| puzzle_type := block_pushing; puzzle_count := blocks |} ].

(** The body of the first loop of [_populate_rooms]. *)
Definition populate_room (room : Room.t) : Rand Room.t :=
  if bool_decide (Room.room_type room = ENTRANCE) ||
     bool_decide (Room.room_type room = BOSS)
  then ret room
  else
    roll <- random ;;
    room1 <-
      (if Qltb roll (Config.combat_room_chance config) then
         es <- _generate_encounters room ;;
         ret (Room.set_encounters es (Room.set_room_type COMBAT room))
       else if Qltb roll (Config.combat_room_chance config +
                          Config.puzzle_room_chance config) then
         p <- _generate_puzzle ;;
         ret (Room.set_puzzle (Some p) (Room.set_room_type PUZZLE room))
       else if Qltb roll (Config.combat_room_chance config +
                          Config.puzzle_room_chance config +
                          Config.treasure_room_chance config) then
         l <- _generate_loot room true false ;;
         ret (Room.set_loot l (Room.set_room_type TREASURE room))
       else ret (Room.set_room_type SAFE room)) ;;
    if bool_decide (Room.room_type room1 = TREASURE) then ret room1
    else
      roll2 <- random ;;
      if Qltb roll2 (3 # 10) then
        l <- _generate_loot room1 false false ;;
        ret (Room.set_loot l room1)
      else ret room1.

(** The body of the second loop, over the boss rooms. *)
Definition populate_boss (room : Room.t) : Rand Room.t :=
  if bool_decide (Room.room_type room = BOSS) then
    l <- _generate_loot room false true ;;
    ret (Room.set_loot l (Room.set_encounters _generate_boss_encounter room))
  else ret room.

Definition _populate_rooms : Run unit :=
  s <- get_state ;;
  rs <- lift_rand (map_se populate_room (Self.rooms s)) ;;
  set_rooms rs ;;;
  rs' <- lift_rand (map_se populate_boss rs) ;;
  set_rooms rs'.

(** *** Traps and the secret room *)

Definition grid_cells : list (Z * Z) :=
  cells (range 0 (Config.width config)) (range 0 (Config.height config)).

Definition num_traps (floor_tiles : list (Z * Z)) : Z :=
  py_int (inject_Z (Z.of_nat (length floor_tiles)) *
          Config.trap_density config).

Definition _add_traps : Run unit :=
  s <- get_state ;;
  match collect_floor (Self.grid s) grid_cells with
  | Raise e => raise e
  | Ok floor_tiles =>
      trap_tiles <-
        lift_rand (sample floor_tiles
                     (Z.min (num_traps floor_tiles)
                            (Z.of_nat (length floor_tiles)))) ;;
      update_grid (set_tiles trap_tiles TRAP)
  end.

Definition secret_positions (base_room : Room.t) (width height : Z)
  : list (Z * Z) :=
  [ (Room.x base_room - width - 1, Room.y base_room);
    (Room.x base_room + Room.width base_room + 1, Room.y base_room);
    (Room.x base_room, Room.y base_room - height - 1);
    (Room.x base_room, Room.y base_room + Room.height base_room + 1) ].

Definition secret_fits (rooms : list Room.t) (width height : Z)
  (p : Z * Z) : bool :=
  (fst p >? 0) && (snd p >? 0) &&
  (fst p + width <? Config.width config) &&
  (snd p + height <? Config.height config) &&
  negb (_check_room_overlap rooms (fst p) (snd p) width height).

Definition place_secret (width height : Z) (p : Z * Z) : Run unit :=
  s <- get_state ;;
  let secret := Room.new (Self.next_room_id s) SECRET (fst p) (snd p)
                         width height in
  incr_next_room_id ;;;
  modify_rooms (fun rs => rs ++ [secret]) ;;;
  _carve_room secret ;;;
  l <- lift_rand (_generate_loot secret true false) ;;
  modify_rooms (alter (Room.set_loot l) (length (Self.rooms s))).

(** [for x, y in positions], leaving with [true] at the [return]. *)
Fixpoint try_positions (width height : Z) (ps : list (Z * Z)) : Run bool :=
  match ps with
  | [] => ret false
  | p :: ps' =>
      s <- get_state ;;
      if secret_fits (Self.rooms s) width height p
      then place_secret width height p ;;; ret true
      else try_positions width height ps'
  end.

Definition secret_attempt : Run bool :=
  s <- get_state ;;
  base_room <- lift_rand (choice (Self.rooms s)) ;;
  width <- lift_rand (randint 3 6) ;;
  height <- lift_rand (randint 3 6) ;;
  try_positions width height (secret_positions base_room width height).

Fixpoint secret_attempts (n : nat) : Run unit :=
  match n with
  | O => ret tt
  | Datatypes.S n' =>
      placed <- secret_attempt ;;
      if placed then ret tt else secret_attempts n'
  end.

Definition _add_secret_rooms : Run unit :=
  roll <- lift_rand random ;;
  if Qltb (Config.secret_room_chance config) roll then ret tt
  else secret_attempts 10.

(** *** Export and the whole run *)

Definition export_room (room : Room.t) : RoomDict.t :=
  RoomDict.mk (Room.id room) (RoomType_value (Room.room_type room))
              (room_rect room) (Room.connections room)
              (Room.encounters room) (Room.loot room) (Room.puzzle room)
              (Room.skill_requirement room).

Definition _export (seed : Z) (s : Self.t) : Output.t :=
  Output.mk
    {| md_name := Config.name config;
       md_theme := Config.theme config;
       md_difficulty := Config.difficulty config;
       md_seed := seed;
       md_width := Config.width config;
       md_height := Config.height config |}
    (map export_room (Self.rooms s))
    (map (map TileType_value) (Self.grid s))
    (Config.required_skills config).

Definition init_grid : Grid :=
  replicate (Z.to_nat (Config.height config))
            (replicate (Z.to_nat (Config.width config)) WALL).

(** The phases of [generate] that precede the trap pass. *)
Definition build_layout : Run unit :=
  update_grid (fun _ => Ok init_grid) ;;;
  _generate_rooms_bsp ;;;
  _connect_rooms ;;;
  _place_special_rooms ;;;
  _populate_rooms.

Definition generate (seed : Z) : Run Output.t :=
  build_layout ;;;
  _add_traps ;;;
  _add_secret_rooms ;;;
  s <- get_state ;;
  ret (_export seed s).

(** [DungeonGenerator(config, seed)]: [seed or random.randint(0, 2**32)]
    draws from the global generator, in state [global], when [seed] is
    [None] or zero; then [random.seed(self.seed)]. *)
Definition DungeonGenerator_init (seed : option Z) (global : rng)
  : result (Z * Self.t) :=
  let start s := Ok (s, Self.mk _ [] [] 0%nat (seed_rng s)) in
  let drawn := match randint 0 (2 ^ 32) global with
               | Ok (s, _) => start s
               | Raise e => Raise e
               end in
  match seed with
  | Some s => if s =? 0 then drawn else start s
  | None => drawn
  end.

(** [DungeonGenerator(config, seed).generate()] *)
Definition run_generator (seed : option Z) (global : rng)
  : result Output.t :=
  match DungeonGenerator_init seed global with
  | Ok (s, self) =>
      match generate s self with
      | Ok (d, _) => Ok d
      | Raise e => Raise e
      end
  | Raise e => Raise e
  end.
End Generator.

(** ** A scripted generator

    After [random.seed(n)] the generator answers from the tape [tapes n]:
    each draw consumes one entry [v], [_randbelow(k)] answering [v mod k]
    and [random.random()] answering [(v mod 1000) / 1000]; past the end of
    the tape every answer is zero. *)
Definition tape_randbelow (n : Z) (g : list Z) : Z * list Z :=
  match g with
  | [] => (0, [])
  | v :: g' => (v mod n, g')
  end.

Definition tape_random_unit (g : list Z) : Q * list Z :=
  match g with
  | [] => (0 # 1, [])
  | v :: g' => (v mod 1000 # 1000, g')
  end.

Lemma tape_randbelow_range n g : 0 < n -> 0 <= fst (tape_randbelow n g) < n.
Proof.
  intros Hn. destruct g as [|v g]; simpl; [lia|].
  apply Z.mod_pos_bound; lia.
Qed.

Lemma tape_random_unit_range g :
  (0 <= fst (tape_random_unit g))%Q /\ (fst (tape_random_unit g) < 1)%Q.
Proof.
  destruct g as [|v g]; simpl.
  - split; [apply Qle_refl | reflexivity].
  - pose proof (Z.mod_pos_bound v 1000 ltac:(lia)) as Hb.
    unfold Qle, Qlt; simpl. lia.
Qed.

Definition TapeGen (tapes : Z -> list Z) : RandomGen :=
  {| rng := list Z;
     seed_rng := tapes;
     randbelow := tape_randbelow;
     randbelow_range := tape_randbelow_range;
     random_unit := tape_random_unit;
     random_unit_range := tape_random_unit_range |}.


(** * Reasoning principles *)

(** ** Inversion of successful runs *)

Lemma bind_inv {S A B} (m : SE S A) (f : A -> SE S B) s b s2 :
  bind m f s = Ok (b, s2) ->
  exists a s1, m s = Ok (a, s1) /\ f a s1 = Ok (b, s2).
Proof.
  unfold bind. destruct (m s) as [[a s1]|e]; [eauto | discriminate].
Qed.

Lemma bind_raise_inv {S A B} (m : SE S A) (f : A -> SE S B) s e :
  bind m f s = Raise e ->
  m s = Raise e \/ exists a s1, m s = Ok (a, s1) /\ f a s1 = Raise e.
Proof.
  unfold bind. destruct (m s) as [[a s1]|e']; [eauto | intros [= ->]; auto].
Qed.

Lemma bind_ok {S A B} (m : SE S A) (f : A -> SE S B) s a s1 :
  m s = Ok (a, s1) -> bind m f s = f a s1.
Proof. unfold bind. intros ->. reflexivity. Qed.

Lemma ret_inv {S A} (a b : A) (s s' : S) : ret a s = Ok (b, s') -> b = a /\ s' = s.
Proof. intros [= -> ->]. auto. Qed.

Lemma get_state_inv {S} (s a s' : S) : get_state s = Ok (a, s') -> a = s /\ s' = s.
Proof. intros [= -> ->]. auto. Qed.

Lemma map_se_length {S A B} (f : A -> SE S B) l s bs s' :
  map_se f l s = Ok (bs, s') -> length bs = length l.
Proof.
  revert s bs. induction l as [|a l IH]; simpl; intros s bs Hrun.
  - apply ret_inv in Hrun as [-> _]. reflexivity.
  - apply bind_inv in Hrun as (b & s1 & _ & Hrun).
    apply bind_inv in Hrun as (bs' & s2 & Hrest & Hrun).
    apply ret_inv in Hrun as [-> ->]. simpl. f_equal. eauto.
Qed.

(** Every element of the result comes from a successful run of [f] on the
    element at the same position. *)
Lemma map_se_Forall2 {S A B} (f : A -> SE S B) (P : A -> B -> Prop) l s bs s' :
  (forall a s1 b s2, f a s1 = Ok (b, s2) -> P a b) ->
  map_se f l s = Ok (bs, s') -> Forall2 P l bs.
Proof.
  intros Hf. revert s bs. induction l as [|a l IH]; simpl; intros s bs Hrun.
  - apply ret_inv in Hrun as [-> _]. constructor.
  - apply bind_inv in Hrun as (b & s1 & Hb & Hrun).
    apply bind_inv in Hrun as (bs' & s2 & Hrest & Hrun).
    apply ret_inv in Hrun as [-> ->]. constructor; eauto.
Qed.

Section RandomFacts.
Context `{RandomGen}.

Lemma randint_range a b g v g' :
  randint a b g = Ok (v, g') -> a <= v <= b.
Proof.
  unfold randint. destruct (b <? a) eqn:Hab; [discriminate|].
  apply Z.ltb_ge in Hab.
  pose proof (randbelow_range (b - a + 1) g ltac:(lia)) as Hr.
  destruct (randbelow (b - a + 1) g) as [r g0]. simpl in Hr.
  intros [= <- <-]. lia.
Qed.

Lemma randint_empty a b g : b < a -> randint a b g = Raise ValueError.
Proof. intros Hab. unfold randint. apply Z.ltb_lt in Hab. rewrite Hab. done. Qed.

Lemma choice_index_range n g i g' :
  choice_index n g = Ok (i, g') -> (i < n)%nat.
Proof.
  unfold choice_index. destruct n as [|n]; [discriminate|].
  pose proof (randbelow_range (Z.of_nat (S n)) g ltac:(lia)) as Hr.
  destruct (randbelow (Z.of_nat (S n)) g) as [r g0]. simpl in Hr.
  intros [= <- <-]. lia.
Qed.

Lemma choice_empty {A} g : choice (@nil A) g = Raise IndexError.
Proof. reflexivity. Qed.

Lemma choice_elem {A} (l : list A) g a g' :
  choice l g = Ok (a, g') -> a ∈ l.
Proof.
  unfold choice. intros Hrun.
  apply bind_inv in Hrun as (i & g1 & _ & Hrun).
  destruct (l !! i) as [b|] eqn:Hi; [|discriminate].
  apply ret_inv in Hrun as [-> _]. eapply list_elem_of_lookup_2; eauto.
Qed.

Lemma sample_pool_length {A} k (pool : list A) n g l g' :
  sample_pool k pool n g = Ok (l, g') -> length l = k.
Proof.
  revert pool n g l. induction k as [|k IH]; simpl; intros pool n g l Hrun.
  - apply ret_inv in Hrun as [-> _]. reflexivity.
  - apply bind_inv in Hrun as (j & g1 & _ & Hrun).
    destruct (pool !! j); [|discriminate].
    destruct (pool !! (n - 1)%nat); [|discriminate].
    apply bind_inv in Hrun as (rest & g2 & Hrest & Hrun).
    apply ret_inv in Hrun as [-> ->]. simpl. f_equal. eauto.
Qed.

Lemma sample_length {A} (population : list A) k g l g' :
  sample population k g = Ok (l, g') ->
  Z.of_nat (length l) = k /\ 0 <= k <= Z.of_nat (length population).
Proof.
  unfold sample.
  destruct ((k <? 0) || (Z.of_nat (length population) <? k)) eqn:Hk;
    [discriminate|].
  apply orb_false_iff in Hk as [Hk1 Hk2].
  apply Z.ltb_ge in Hk1. apply Z.ltb_ge in Hk2.
  intros Hrun. apply sample_pool_length in Hrun. lia.
Qed.
End RandomFacts.

(** ** The grid *)

(** [g'] is [g] with some tiles overwritten by [t]. *)
Definition writes (t : TileType) (g g' : Grid) : Prop :=
  Forall2 (Forall2 (fun a b => b = a \/ b = t)) g g'.

Definition tiles_in (P : TileType -> Prop) (g : Grid) : Prop :=
  Forall (Forall P) g.

Definition grid_dims (h w : nat) (g : Grid) : Prop :=
  length g = h /\ Forall (fun row => length row = w) g.

Definition count_row (u : TileType) (row : list TileType) : nat :=
  length (List.filter (fun t => bool_decide (t = u)) row).

(** The number of tiles of the grid that carry the tag [u]. *)
Definition count_tile (u : TileType) (g : Grid) : nat :=
  count_row u (concat g).

Lemma writes_refl t g : writes t g g.
Proof.
  apply Forall_Forall2_diag, Forall_forall. intros row _.
  apply Forall_Forall2_diag, Forall_forall. auto.
Qed.

Lemma writes_trans t g1 g2 g3 :
  writes t g1 g2 -> writes t g2 g3 -> writes t g1 g3.
Proof.
  unfold writes. intros H12. revert g3.
  induction H12 as [|r1 r2 g1 g2 Hr _ IH]; intros g3 H23;
    inversion H23 as [|? r3 ? g3' Hr' H23']; subst; constructor; auto.
  clear -Hr Hr'. revert r3 Hr'.
  induction Hr as [|a b r1 r2 Hab _ IH]; intros r3 Hr';
    inversion Hr' as [|? c ? r3' Hbc Hr'']; subst; constructor; auto.
  destruct Hab, Hbc; subst; auto.
Qed.

Lemma row_insert_writes t (row : list TileType) i :
  Forall2 (fun a b => b = a \/ b = t) row (<[i := t]> row).
Proof.
  revert i. induction row as [|a row IH]; intros [|i]; simpl;
    constructor; auto.
  - apply Forall_Forall2_diag, Forall_forall. auto.
Qed.

Lemma grid_insert_writes t (g : Grid) j row row' :
  g !! j = Some row ->
  Forall2 (fun a b => b = a \/ b = t) row row' ->
  writes t g (<[j := row']> g).
Proof.
  revert j. induction g as [|r g IH]; intros [|j]; simpl; try discriminate.
  - intros [= ->] Hrow. constructor; [done | apply writes_refl].
  - intros Hj Hrow. constructor; [|by apply IH].
    apply Forall_Forall2_diag, Forall_forall. auto.
Qed.

Lemma grid_set_writes g x y t g' :
  grid_set g x y t = Ok g' -> writes t g g'.
Proof.
  unfold grid_set. destruct (py_index (length g) y) as [j|]; [|discriminate].
  destruct (g !! j) as [row|] eqn:Hj; [|discriminate].
  destruct (py_index (length row) x) as [i|]; [|discriminate].
  intros [= <-]. eapply grid_insert_writes; eauto using row_insert_writes.
Qed.

Lemma set_tiles_writes cs t g g' :
  set_tiles cs t g = Ok g' -> writes t g g'.
Proof.
  revert g. induction cs as [|[x y] cs IH]; simpl; intros g.
  - intros [= <-]. apply writes_refl.
  - destruct (grid_set g x y t) as [g1|] eqn:Hset; [|discriminate].
    intros Hrest. eapply writes_trans; eauto using grid_set_writes.
Qed.

Lemma writes_tiles_in (P : TileType -> Prop) t g g' :
  writes t g g' -> P t -> tiles_in P g -> tiles_in P g'.
Proof.
  unfold writes, tiles_in. intros Hw Ht.
  induction Hw as [|r r' g g' Hr _ IH]; intros Hg; [constructor|].
  inversion Hg as [|? ? HPr HPg]; subst. constructor; auto.
  clear -Hr HPr Ht.
  induction Hr as [|a b r r' Hab _ IH]; [constructor|].
  inversion HPr; subst. constructor; auto. destruct Hab; subst; auto.
Qed.

Lemma writes_dims t g g' h w :
  writes t g g' -> grid_dims h w g -> grid_dims h w g'.
Proof.
  unfold writes, grid_dims. intros Hw [Hlen Hrows]. split.
  - rewrite <- Hlen. symmetry. eapply Forall2_length; eauto.
  - clear Hlen. induction Hw as [|r r' g g' Hr _ IH]; [constructor|].
    inversion Hrows; subst. constructor; auto.
    symmetry. eapply Forall2_length; eauto.
Qed.

Lemma count_row_app u r1 r2 :
  count_row u (r1 ++ r2) = (count_row u r1 + count_row u r2)%nat.
Proof. unfold count_row. rewrite List.filter_app, length_app. reflexivity. Qed.

Lemma count_row_cons u a r :
  count_row u (a :: r) =
  ((if bool_decide (a = u) then 1 else 0) + count_row u r)%nat.
Proof. unfold count_row. simpl. destruct (bool_decide (a = u)); reflexivity. Qed.

Lemma count_row_le_length u r : (count_row u r <= length r)%nat.
Proof. unfold count_row. apply List.filter_length_le. Qed.

Lemma writes_row_count t u r r' :
  Forall2 (fun a b => b = a \/ b = t) r r' -> t <> u ->
  (count_row u r' <= count_row u r)%nat.
Proof.
  intros Hr Htu. induction Hr as [|a b r r' Hab _ IH]; [done|].
  rewrite !count_row_cons.
  destruct Hab as [->| ->]; [lia|].
  rewrite (bool_decide_eq_false_2 (t = u)) by done. lia.
Qed.

Lemma writes_count t u g g' :
  writes t g g' -> t <> u -> (count_tile u g' <= count_tile u g)%nat.
Proof.
  unfold writes, count_tile. intros Hw Htu.
  induction Hw as [|r r' g g' Hr _ IH]; simpl; [done|].
  rewrite !count_row_app. pose proof (writes_row_count _ _ _ _ Hr Htu). lia.
Qed.

Lemma row_insert_count u t (row : list TileType) i :
  (count_row u (<[i := t]> row) <= S (count_row u row))%nat.
Proof.
  revert i. induction row as [|a row IH]; intros [|i]; simpl; try lia.
  - rewrite !count_row_cons. repeat case_bool_decide; lia.
  - rewrite !count_row_cons. specialize (IH i). lia.
Qed.

Lemma grid_insert_count u (g : Grid) j row row' :
  g !! j = Some row ->
  (count_row u row' <= S (count_row u row))%nat ->
  (count_tile u (<[j := row']> g) <= S (count_tile u g))%nat.
Proof.
  unfold count_tile.
  revert j. induction g as [|r g IH]; intros [|j]; simpl; try discriminate.
  - intros [= ->] Hrow. rewrite !count_row_app. lia.
  - intros Hj Hrow. rewrite !count_row_app. specialize (IH j Hj Hrow). lia.
Qed.

Lemma grid_set_count u g x y t g' :
  grid_set g x y t = Ok g' -> (count_tile u g' <= S (count_tile u g))%nat.
Proof.
  unfold grid_set. destruct (py_index (length g) y) as [j|]; [|discriminate].
  destruct (g !! j) as [row|] eqn:Hj; [|discriminate].
  destruct (py_index (length row) x) as [i|]; [|discriminate].
  intros [= <-]. eapply grid_insert_count; eauto using row_insert_count.
Qed.

(** A run of assignments adds at most one tile of a tag per assignment. *)
Lemma set_tiles_count u cs t g g' :
  set_tiles cs t g = Ok g' ->
  (count_tile u g' <= count_tile u g + length cs)%nat.
Proof.
  revert g. induction cs as [|[x y] cs IH]; simpl; intros g.
  - intros [= <-]. lia.
  - destruct (grid_set g x y t) as [g1|] eqn:Hset; [|discriminate].
    intros Hrest. apply IH in Hrest.
    pose proof (grid_set_count u _ _ _ _ _ Hset). lia.
Qed.

Lemma tiles_in_count_zero (P : TileType -> Prop) u g :
  tiles_in P g -> ~ P u -> count_tile u g = 0%nat.
Proof.
  unfold tiles_in, count_tile. intros Hg Hu.
  induction Hg as [|r g Hr _ IH]; simpl; [done|].
  rewrite count_row_app, IH.
  assert (count_row u r = 0%nat) as ->; [|done].
  induction Hr as [|a r Ha _ IHr]; [done|].
  rewrite count_row_cons, IHr.
  rewrite bool_decide_eq_false_2; [done|]. intros ->. done.
Qed.

(** *** Collecting the floor tiles *)

Lemma py_index_nat n i : (i < n)%nat -> py_index n (Z.of_nat i) = Some i.
Proof.
  intros Hi. unfold py_index.
  replace (0 <=? Z.of_nat i) with true by (symmetry; apply Z.leb_le; lia).
  replace (Z.of_nat i <? Z.of_nat n) with true
    by (symmetry; apply Z.ltb_lt; lia).
  simpl. by rewrite Nat2Z.id.
Qed.

Lemma grid_get_nat (g : Grid) row t i j :
  g !! j = Some row -> row !! i = Some t ->
  grid_get g (Z.of_nat i) (Z.of_nat j) = Ok t.
Proof.
  intros Hj Hi. unfold grid_get.
  rewrite py_index_nat by (eapply lookup_lt_Some; eauto).
  rewrite Hj.
  rewrite py_index_nat by (eapply lookup_lt_Some; eauto).
  by rewrite Hi.
Qed.

Lemma range_0 b : range 0 b = map Z.of_nat (seq 0 (Z.to_nat b)).
Proof. unfold range. by rewrite Z.sub_0_r. Qed.

Lemma collect_floor_length g cs fl :
  collect_floor g cs = Ok fl -> (length fl <= length cs)%nat.
Proof.
  revert fl. induction cs as [|[x y] cs IH]; simpl; intros fl.
  - intros [= <-]. done.
  - destruct (grid_get g x y) as [t|]; [|discriminate].
    destruct (collect_floor g cs) as [rest|]; [|discriminate].
    specialize (IH rest eq_refl).
    intros [= <-]. case_decide; simpl; lia.
Qed.

Lemma collect_floor_app g cs1 cs2 fl :
  collect_floor g (cs1 ++ cs2) = Ok fl ->
  exists f1 f2,
    collect_floor g cs1 = Ok f1 /\ collect_floor g cs2 = Ok f2 /\
    fl = f1 ++ f2.
Proof.
  revert fl. induction cs1 as [|[x y] cs1 IH]; simpl; intros fl Hfl.
  - exists [], fl. done.
  - destruct (grid_get g x y) as [t|]; [|discriminate].
    destruct (collect_floor g (cs1 ++ cs2)) as [rest|]; [|discriminate].
    destruct (IH rest eq_refl) as (f1 & f2 & -> & Hf2 & ->).
    injection Hfl as <-. exists (if decide (t = FLOOR) then (x, y) :: f1 else f1), f2.
    repeat split; [done|]. by case_decide.
Qed.

(** The floor tiles collected along the first [n] cells of row [j]. *)
Lemma collect_floor_row (g : Grid) row j n fl :
  g !! j = Some row -> (n <= length row)%nat ->
  collect_floor g (map (fun x => (x, Z.of_nat j)) (map Z.of_nat (seq 0 n)))
    = Ok fl ->
  length fl = count_row FLOOR (take n row).
Proof.
  intros Hj. revert fl. induction n as [|n IH]; intros fl Hn.
  - simpl. intros [= <-]. done.
  - rewrite seq_S, !map_app. simpl. intros Hfl.
    apply collect_floor_app in Hfl as (f1 & f2 & Hf1 & Hf2 & ->).
    apply IH in Hf1; [|lia].
    destruct (lookup_lt_is_Some_2 row n ltac:(lia)) as [t Ht].
    simpl in Hf2. rewrite (grid_get_nat g row t n j Hj Ht) in Hf2.
    injection Hf2 as <-.
    rewrite (take_S_r _ _ _ Ht), count_row_app, length_app, Hf1.
    rewrite count_row_cons. unfold count_row at 3. simpl.
    case_decide; case_bool_decide; simpl; done || lia.
Qed.

Lemma collect_floor_rows (g : Grid) w m fl :
  Forall (fun row => length row = w) g -> (m <= length g)%nat ->
  collect_floor g (cells (map Z.of_nat (seq 0 w)) (map Z.of_nat (seq 0 m)))
    = Ok fl ->
  length fl = count_tile FLOOR (take m g).
Proof.
  intros Hw. revert fl. induction m as [|m IH]; intros fl Hm.
  - simpl. intros [= <-]. done.
  - unfold cells. rewrite seq_S, map_app, flat_map_app. simpl.
    rewrite app_nil_r. intros Hfl.
    apply collect_floor_app in Hfl as (f1 & f2 & Hf1 & Hf2 & ->).
    apply IH in Hf1; [|lia].
    destruct (lookup_lt_is_Some_2 g m ltac:(lia)) as [row Hrow].
    assert (length row = w) as Hlen
      by (eapply (proj1 (Forall_lookup _ _) Hw); eauto).
    apply (collect_floor_row g row m w) in Hf2; [|done|lia].
    rewrite take_ge in Hf2 by lia.
    rewrite (take_S_r _ _ _ Hrow). unfold count_tile in *.
    rewrite concat_app, count_row_app, length_app. simpl.
    rewrite app_nil_r. lia.
Qed.

(** On a grid of the configured size, [_add_traps] collects exactly the
    floor tiles. *)
Lemma collect_floor_count (g : Grid) W H fl :
  grid_dims (Z.to_nat H) (Z.to_nat W) g ->
  collect_floor g (cells (range 0 W) (range 0 H)) = Ok fl ->
  length fl = count_tile FLOOR g.
Proof.
  intros [Hh Hw]. rewrite !range_0. intros Hfl.
  apply collect_floor_rows in Hfl; [|done|lia].
  by rewrite take_ge in Hfl by lia.
Qed.

(** *** The exported tags *)


Lemma TileType_value_inj t u : TileType_value t = TileType_value u -> t = u.
Proof. destruct t, u; simpl; intros Heq; try reflexivity; discriminate. Qed.

Lemma RoomType_value_inj t u : RoomType_value t = RoomType_value u -> t = u.
Proof. destruct t, u; simpl; intros Heq; try reflexivity; discriminate. Qed.


(** ** The connectivity graph *)

(** A vertex: a room identity with its recorded connections. *)
Definition node : Type := nat * list nat.

Definition room_node (r : Room.t) : node := (Room.id r, Room.connections r).

(** An undirected edge: one endpoint records the other. *)
Definition edge (ns : list node) (a b : nat) : Prop :=
  exists n, n ∈ ns /\
            ((fst n = a /\ b ∈ snd n) \/ (fst n = b /\ a ∈ snd n)).

Definition connected_graph (ns : list node) : Prop :=
  forall n1 n2, n1 ∈ ns -> n2 ∈ ns -> rtc (edge ns) (fst n1) (fst n2).

(** Room identities are the positions in the catalog. *)
Definition ids_ok (rs : list Room.t) : Prop :=
  map Room.id rs = seq 0 (length rs).

(** The room at position [c] is linked to the first room. *)
Definition reached (rs : list Room.t) (c : nat) : Prop :=
  (c < length rs)%nat /\ rtc (edge (map room_node rs)) 0%nat c.

Lemma edge_sym ns a b : edge ns a b -> edge ns b a.
Proof. intros (n & Hn & [H1|H1]); exists n; auto. Qed.

Lemma rtc_edge_sym ns a b : rtc (edge ns) a b -> rtc (edge ns) b a.
Proof.
  induction 1 as [|a x b Hax _ IH]; [done|].
  eapply rtc_r; eauto using edge_sym.
Qed.

Lemma ids_ok_lookup rs i r : ids_ok rs -> rs !! i = Some r -> Room.id r = i.
Proof.
  unfold ids_ok. intros Hids Hi.
  assert (map Room.id rs !! i = Some (Room.id r)) as Hm.
  { change (map Room.id rs) with (Room.id <$> rs).
    by rewrite list_lookup_fmap, Hi. }
  rewrite Hids in Hm. apply lookup_seq in Hm as [-> _]. done.
Qed.

Lemma all_reached_connected rs :
  ids_ok rs -> (forall i, (i < length rs)%nat -> reached rs i) ->
  connected_graph (map room_node rs).
Proof.
  intros Hids Hall n1 n2 Hn1 Hn2.
  apply list_elem_of_fmap in Hn1 as (r1 & -> & Hr1).
  apply list_elem_of_fmap in Hn2 as (r2 & -> & Hr2).
  apply list_elem_of_lookup in Hr1 as [i Hi].
  apply list_elem_of_lookup in Hr2 as [j Hj].
  simpl. rewrite (ids_ok_lookup _ _ _ Hids Hi), (ids_ok_lookup _ _ _ Hids Hj).
  destruct (Hall i) as [_ H0i]; [by eapply lookup_lt_Some|].
  destruct (Hall j) as [_ H0j]; [by eapply lookup_lt_Some|].
  etrans; [apply rtc_edge_sym|]; eauto.
Qed.

(** ** First extremal elements *)

Lemma first_min_from_lt {A} (key : A -> Z) l i best bk :
  (best < i)%nat -> (first_min_from key l i best bk < i + length l)%nat.
Proof.
  revert i best bk. induction l as [|a l IH]; simpl; intros i best bk Hb.
  - lia.
  - destruct (key a <? bk).
    + specialize (IH (S i) i (key a)). lia.
    + specialize (IH (S i) best bk). lia.
Qed.

Lemma first_min_lt {A} (key : A -> Z) l i :
  first_min key l = Some i -> (i < length l)%nat.
Proof.
  destruct l as [|a l]; [done|]. intros [= <-]. simpl.
  pose proof (first_min_from_lt key l 1 0 (key a)). lia.
Qed.

(** [first_max_from] scans [l], which follows the prefix [p] already
    scanned, and answers the position of a greatest key. *)
Lemma first_max_from_greatest {A} (key : A -> Z) p l best ab :
  p !! best = Some ab -> (forall b, b ∈ p -> key b <= key ab) ->
  exists a, (p ++ l) !! first_max_from key l (length p) best (key ab) = Some a
            /\ forall b, b ∈ p ++ l -> key b <= key a.
Proof.
  revert p best ab. induction l as [|a l IH]; simpl; intros p best ab Hb Hmax.
  - exists ab. rewrite app_nil_r. done.
  - destruct (key ab <? key a) eqn:Hlt.
    + apply Z.ltb_lt in Hlt.
      destruct (IH (p ++ [a]) (length p) a) as (m & Hm & Hgreat).
      * by rewrite lookup_app_r, Nat.sub_diag.
      * intros b Hin. apply elem_of_app in Hin as [Hin|Hin].
        -- specialize (Hmax b Hin). lia.
        -- apply list_elem_of_singleton in Hin as ->. lia.
      * rewrite length_app, Nat.add_1_r, <- app_assoc in Hm.
        rewrite <- app_assoc in Hgreat. eauto.
    + apply Z.ltb_ge in Hlt.
      destruct (IH (p ++ [a]) best ab) as (m & Hm & Hgreat).
      * by apply lookup_app_l_Some.
      * intros b Hin. apply elem_of_app in Hin as [Hin|Hin]; [auto|].
        apply list_elem_of_singleton in Hin as ->. lia.
      * rewrite length_app, Nat.add_1_r, <- app_assoc in Hm.
        rewrite <- app_assoc in Hgreat. eauto.
Qed.

Lemma first_max_greatest {A} (key : A -> Z) l i :
  first_max key l = Some i ->
  exists a, l !! i = Some a /\ forall b, b ∈ l -> key b <= key a.
Proof.
  destruct l as [|a0 l]; [done|]. intros [= <-].
  apply (first_max_from_greatest key [a0] l 0 a0); [done|].
  intros b Hb. apply list_elem_of_singleton in Hb as ->. lia.
Qed.

Lemma alter_map_fixed {A B} (f : A -> B) (g : A -> A) i l :
  (forall a, f (g a) = f a) -> map f (alter g i l) = map f l.
Proof.
  intros Hfg. revert i. induction l as [|a l IH]; intros [|i]; simpl.
  - done.
  - done.
  - by rewrite Hfg.
  - f_equal. apply IH.
Qed.

(** ** Rooms and their separation *)

(** The two rectangles lie at least two tiles apart along one axis. *)
Definition apart (a b : Rect) : Prop :=
  rx b + rw b + 2 <= rx a \/ rx a + rw a + 2 <= rx b \/
  ry b + rh b + 2 <= ry a \/ ry a + rh a + 2 <= ry b.

Definition pairwise_apart (rs : list Rect) : Prop :=
  forall i j a b, i <> j -> rs !! i = Some a -> rs !! j = Some b -> apart a b.

Lemma apart_sym a b : apart a b -> apart b a.
Proof. unfold apart. lia. Qed.

(** [apart] is what the padded overlap test decides: the first rectangle,
    grown by two tiles on all sides, shares no tile with the second. *)
Lemma apart_iff a b : rect_intersects (expand 2 a) b = false <-> apart a b.
Proof.
  unfold rect_intersects, expand, apart. simpl.
  rewrite !andb_false_iff, !Z.ltb_ge. lia.
Qed.

Lemma check_room_overlap_false rooms x y w h :
  _check_room_overlap rooms x y w h = false ->
  forall r, r ∈ rooms ->
            apart {| rx := x; ry := y; rw := w; rh := h |} (room_rect r).
Proof.
  unfold _check_room_overlap.
  induction rooms as [|r0 rooms IH]; simpl; intros Hchk r Hr.
  - by apply elem_of_nil in Hr.
  - apply orb_false_iff in Hchk as [Hone Hrest].
    apply elem_of_cons in Hr as [->|Hr]; [|by apply IH].
    revert Hone.
    rewrite !andb_false_iff, !Z.gtb_ltb, !Z.ltb_ge.
    unfold apart, room_rect. simpl. lia.
Qed.

Lemma check_room_overlap_true rooms r x y w h :
  r ∈ rooms ->
  x < Room.x r + Room.width r + 2 -> Room.x r < x + w + 2 ->
  y < Room.y r + Room.height r + 2 -> Room.y r < y + h + 2 ->
  _check_room_overlap rooms x y w h = true.
Proof.
  intros Hr Hx1 Hx2 Hy1 Hy2. unfold _check_room_overlap.
  apply existsb_exists. exists r. split; [by apply list_elem_of_In|].
  rewrite !andb_true_iff, !Z.gtb_ltb, !Z.ltb_lt. lia.
Qed.

Lemma pairwise_apart_snoc rs new :
  pairwise_apart rs -> (forall r, r ∈ rs -> apart new r) ->
  pairwise_apart (rs ++ [new]).
Proof.
  intros Hrs Hnew i j a b Hij Hi Hj.
  apply lookup_snoc_Some in Hi as [[Hi Ha]|[-> <-]];
  apply lookup_snoc_Some in Hj as [[Hj Hb]|[-> <-]].
  - eauto.
  - apply apart_sym, Hnew. eapply list_elem_of_lookup_2; eauto.
  - apply Hnew. eapply list_elem_of_lookup_2; eauto.
  - done.
Qed.

Section StateFacts.
Context `{RandomGen}.
Variable config : Config.t.

(** *** Inversion of the primitive steps *)

Lemma lift_rand_inv {A} (m : Rand A) s a s' :
  lift_rand m s = Ok (a, s') ->
  exists g, m (Self.rand s) = Ok (a, g) /\
            s' = Self.mk _ (Self.rooms s) (Self.grid s)
                         (Self.next_room_id s) g.
Proof.
  unfold lift_rand. destruct (m (Self.rand s)) as [[a0 g]|]; [|discriminate].
  intros [= <- <-]. eauto.
Qed.

Lemma update_grid_inv f s a s' :
  update_grid f s = Ok (a, s') ->
  exists g, f (Self.grid s) = Ok g /\
            s' = Self.mk _ (Self.rooms s) g (Self.next_room_id s)
                         (Self.rand s).
Proof.
  unfold update_grid. destruct (f (Self.grid s)) as [g|]; [|discriminate].
  intros [= <-]. eauto.
Qed.

Lemma room_at_inv i s r s' :
  room_at i s = Ok (r, s') -> Self.rooms s !! i = Some r /\ s' = s.
Proof.
  unfold room_at. destruct (Self.rooms s !! i); [|discriminate].
  intros [= <- <-]. auto.
Qed.

Lemma append_connection_at_inv i c s a s' :
  append_connection_at i c s = Ok (a, s') ->
  is_Some (Self.rooms s !! i) /\
  s' = Self.mk _ (alter (Room.append_connection c) i (Self.rooms s))
               (Self.grid s) (Self.next_room_id s) (Self.rand s).
Proof.
  unfold append_connection_at, modify_rooms.
  destruct (Self.rooms s !! i); [|discriminate].
  intros [= <-]. eauto.
Qed.

(** *** Carving *)

(** A step that only turns tiles into floor. *)
Definition carved (s s' : Self.t) : Prop :=
  Self.rooms s' = Self.rooms s /\
  Self.next_room_id s' = Self.next_room_id s /\
  writes FLOOR (Self.grid s) (Self.grid s').

Lemma carved_refl s : carved s s.
Proof. repeat split. apply writes_refl. Qed.

Lemma carved_trans s1 s2 s3 : carved s1 s2 -> carved s2 s3 -> carved s1 s3.
Proof.
  intros (Hr & Hn & Hg) (Hr' & Hn' & Hg'). repeat split; try congruence.
  eapply writes_trans; eauto.
Qed.

Lemma set_tiles_carved cs s a s' :
  update_grid (set_tiles cs FLOOR) s = Ok (a, s') -> carved s s'.
Proof.
  intros Hrun. apply update_grid_inv in Hrun as (g & Hg & ->).
  repeat split. simpl. eauto using set_tiles_writes.
Qed.

Lemma _carve_room_carved room s a s' :
  _carve_room room s = Ok (a, s') -> carved s s'.
Proof. apply set_tiles_carved. Qed.

Lemma _carve_h_corridor_carved x1 x2 y s a s' :
  _carve_h_corridor config x1 x2 y s = Ok (a, s') -> carved s s'.
Proof. apply set_tiles_carved. Qed.

Lemma _carve_v_corridor_carved y1 y2 x s a s' :
  _carve_v_corridor config y1 y2 x s = Ok (a, s') -> carved s s'.
Proof. apply set_tiles_carved. Qed.

Lemma lift_rand_carved {A} (m : Rand A) s a s' :
  lift_rand m s = Ok (a, s') -> carved s s'.
Proof.
  intros Hrun. apply lift_rand_inv in Hrun as (g & _ & ->).
  repeat split. apply writes_refl.
Qed.

Lemma _carve_corridor_carved r1 r2 s a s' :
  _carve_corridor config r1 r2 s = Ok (a, s') -> carved s s'.
Proof.
  unfold _carve_corridor. intros Hrun.
  apply bind_inv in Hrun as (roll & s1 & Hroll & Hrun).
  apply lift_rand_carved in Hroll.
  destruct (Qltb roll (1 # 2));
    apply bind_inv in Hrun as (? & s2 & Hfst & Hsnd);
    eauto using carved_trans, _carve_h_corridor_carved,
                _carve_v_corridor_carved.
Qed.

Lemma modify_rooms_inv f s a s' :
  modify_rooms f s = Ok (a, s') ->
  s' = Self.mk _ (f (Self.rooms s)) (Self.grid s) (Self.next_room_id s)
               (Self.rand s).
Proof. by intros [= <-]. Qed.

Lemma set_rooms_inv rs s a s' :
  set_rooms rs s = Ok (a, s') ->
  s' = Self.mk _ rs (Self.grid s) (Self.next_room_id s) (Self.rand s).
Proof. by intros [= <-]. Qed.

Lemma incr_next_room_id_inv s a s' :
  incr_next_room_id s = Ok (a, s') ->
  s' = Self.mk _ (Self.rooms s) (Self.grid s) (S (Self.next_room_id s))
               (Self.rand s).
Proof. by intros [= <-]. Qed.

(** Splits a successful run into the successful runs of its steps. *)
Ltac inv_run H :=
  lazymatch type of H with
  | bind _ _ _ = Ok _ =>
      let H1 := fresh "Hstep" in
      apply bind_inv in H as (? & ? & H1 & H); cbv beta in H;
      inv_run H1; inv_run H
  | ret _ _ = Ok _ => apply ret_inv in H as [? ?]; subst
  | get_state _ = Ok _ => apply get_state_inv in H as [? ?]; subst
  | raise _ _ = Ok _ => discriminate H
  | lift_rand _ _ = Ok _ => apply lift_rand_inv in H as (? & H & ?); subst
  | modify_rooms _ _ = Ok _ => apply modify_rooms_inv in H; subst
  | set_rooms _ _ = Ok _ => apply set_rooms_inv in H; subst
  | incr_next_room_id _ = Ok _ => apply incr_next_room_id_inv in H; subst
  | room_at _ _ = Ok _ => apply room_at_inv in H as [H ?]; subst
  | append_connection_at _ _ _ = Ok _ =>
      apply append_connection_at_inv in H as [H ?]; subst
  | _ => idtac
  end.

(** *** Room placement *)

Definition fresh_room (r : Room.t) : Prop :=
  Room.room_type r = CORRIDOR /\ Room.encounters r = [] /\
  Room.connections r = [] /\
  Config.min_room_size config <= Room.width r /\
  Config.min_room_size config <= Room.height r.

(** What holds of the rooms while they are being placed. *)
Record placed (s : Self.t) : Prop := {
  placed_next : Self.next_room_id s = length (Self.rooms s);
  placed_ids : map Room.id (Self.rooms s) = seq 0 (length (Self.rooms s));
  placed_apart : pairwise_apart (map room_rect (Self.rooms s));
  placed_fresh : Forall fresh_room (Self.rooms s)
}.

Lemma place_trial_placed s a s' :
  place_trial config s = Ok (a, s') ->
  placed s -> placed s' /\ writes FLOOR (Self.grid s) (Self.grid s').
Proof.
  unfold place_trial. intros Hrun [Hnext Hids Hapart Hfresh].
  inv_run Hrun. simpl in Hrun.
  match goal with
  | Hw : randint _ _ (Self.rand s) = Ok (?w, _),
    Hh : randint (Config.min_room_size config) _ _ = Ok (?h, _) |- _ =>
      apply randint_range in Hw; apply randint_range in Hh
  end.
  destruct (_check_room_overlap _ _ _ _ _) eqn:Hchk; simpl in Hrun.
  - inv_run Hrun. simpl. split; [by split | apply writes_refl].
  - inv_run Hrun. simpl in Hrun.
    apply _carve_room_carved in Hrun as (Hr & Hn & Hg). simpl in *.
    split; [|done]. split.
    + rewrite Hn, Hr, length_app. simpl. lia.
    + rewrite Hr, map_app, length_app, Hids. simpl.
      rewrite Nat.add_1_r, seq_S. simpl. by rewrite Hnext.
    + rewrite Hr, map_app. apply pairwise_apart_snoc; [done|].
      intros r Hr'. apply list_elem_of_fmap in Hr' as (r0 & -> & Hr0).
      eapply (check_room_overlap_false _ _ _ _ _ Hchk r0 Hr0).
    + rewrite Hr. apply Forall_app. split; [done|].
      constructor; [|constructor]. repeat split; simpl; lia.
Qed.

Lemma place_loop_placed n num_rooms s a s' :
  place_loop config n num_rooms s = Ok (a, s') ->
  placed s -> placed s' /\ writes FLOOR (Self.grid s) (Self.grid s').
Proof.
  revert s. induction n as [|n IH]; simpl; intros s Hrun Hs.
  - inv_run Hrun. split; [done | apply writes_refl].
  - inv_run Hrun.
    destruct (num_rooms <=? _).
    + inv_run Hrun. split; [done | apply writes_refl].
    + inv_run Hrun.
      match goal with
      | Ht : place_trial _ _ = Ok _ |- _ =>
          apply place_trial_placed in Ht as [Hs1 Hw1]; [|done]
      end.
      apply IH in Hrun as [Hs2 Hw2]; [|done].
      split; [done | eapply writes_trans; eauto].
Qed.

Lemma _generate_rooms_bsp_placed s a s' :
  _generate_rooms_bsp config s = Ok (a, s') ->
  placed s -> placed s' /\ writes FLOOR (Self.grid s) (Self.grid s').
Proof.
  unfold _generate_rooms_bsp. intros Hrun Hs. inv_run Hrun.
  apply place_loop_placed in Hrun; [done|]. by destruct Hs.
Qed.

(** *** Connectivity *)

(** The room [r'] is the room [r] with connections appended. *)
Definition connects (r r' : Room.t) : Prop :=
  exists extra,
    r' = Room.mk (Room.id r) (Room.room_type r) (Room.x r) (Room.y r)
                 (Room.width r) (Room.height r) (Room.connections r ++ extra)
                 (Room.encounters r) (Room.loot r) (Room.puzzle r)
                 (Room.skill_requirement r).

Lemma connects_refl r : connects r r.
Proof. exists []. destruct r. simpl. by rewrite app_nil_r. Qed.

Lemma connects_trans r1 r2 r3 : connects r1 r2 -> connects r2 r3 -> connects r1 r3.
Proof.
  intros [e1 ->] [e2 ->]. exists (e1 ++ e2). simpl. by rewrite app_assoc.
Qed.

Lemma connects_append c r : connects r (Room.append_connection c r).
Proof. by exists [c]. Qed.

Lemma Forall2_connects_refl rs : Forall2 connects rs rs.
Proof. apply Forall_Forall2_diag, Forall_forall. auto using connects_refl. Qed.

Lemma Forall2_connects_trans rs1 rs2 rs3 :
  Forall2 connects rs1 rs2 -> Forall2 connects rs2 rs3 ->
  Forall2 connects rs1 rs3.
Proof.
  intros H12. revert rs3. induction H12; intros rs3 H23;
    inversion H23; subst; constructor; eauto using connects_trans.
Qed.

Lemma Forall2_connects_alter c i rs :
  Forall2 connects rs (alter (Room.append_connection c) i rs).
Proof.
  apply Forall2_alter_r; [apply Forall2_connects_refl|].
  intros r r' _ _ Hr. eauto using connects_trans, connects_append.
Qed.

(** A step of the connectivity builder: corridors are carved and
    connections are appended. *)
Definition linked (s s' : Self.t) : Prop :=
  Forall2 connects (Self.rooms s) (Self.rooms s') /\
  Self.next_room_id s' = Self.next_room_id s /\
  writes FLOOR (Self.grid s) (Self.grid s').

Lemma linked_refl s : linked s s.
Proof. repeat split; [apply Forall2_connects_refl | apply writes_refl]. Qed.

Lemma linked_trans s1 s2 s3 : linked s1 s2 -> linked s2 s3 -> linked s1 s3.
Proof.
  intros (Hr & Hn & Hg) (Hr' & Hn' & Hg'). repeat split.
  - eapply Forall2_connects_trans; eauto.
  - congruence.
  - eapply writes_trans; eauto.
Qed.

Lemma carved_linked s s' : carved s s' -> linked s s'.
Proof.
  intros (Hr & Hn & Hg). repeat split; [|done..].
  rewrite Hr. apply Forall2_connects_refl.
Qed.

Lemma append_connection_at_linked i c s a s' :
  append_connection_at i c s = Ok (a, s') -> linked s s'.
Proof.
  intros Hrun. inv_run Hrun. repeat split; simpl.
  - apply Forall2_connects_alter.
  - apply writes_refl.
Qed.

Lemma connects_id r r' : connects r r' -> Room.id r' = Room.id r.
Proof. by intros [e ->]. Qed.

Lemma connects_rect r r' : connects r r' -> room_rect r' = room_rect r.
Proof. by intros [e ->]. Qed.

Lemma Forall2_connects_map {B} (f : Room.t -> B) rs rs' :
  (forall r r', connects r r' -> f r' = f r) ->
  Forall2 connects rs rs' -> map f rs' = map f rs.
Proof. intros Hf. induction 1; simpl; f_equal; auto. Qed.

Lemma connects_ids_ok rs rs' :
  Forall2 connects rs rs' -> ids_ok rs -> ids_ok rs'.
Proof.
  unfold ids_ok. intros Hc Hids.
  rewrite (Forall2_connects_map Room.id rs rs' connects_id Hc), Hids.
  by rewrite (Forall2_length _ _ _ Hc).
Qed.

Lemma connects_edge rs rs' a b :
  Forall2 connects rs rs' ->
  edge (map room_node rs) a b -> edge (map room_node rs') a b.
Proof.
  intros Hc (n & Hn & Hab).
  apply list_elem_of_fmap in Hn as (r & -> & Hr).
  apply list_elem_of_lookup in Hr as [i Hi].
  destruct (Forall2_lookup_l _ _ _ _ _ Hc Hi) as (r' & Hi' & [extra ->]).
  eexists. split.
  - apply list_elem_of_fmap. eexists. split; [done|].
    eapply list_elem_of_lookup_2; eauto.
  - simpl in *. rewrite !elem_of_app. tauto.
Qed.

Lemma connects_reached rs rs' c :
  Forall2 connects rs rs' -> reached rs c -> reached rs' c.
Proof.
  intros Hc [Hlt Hrtc]. split.
  - by rewrite <- (Forall2_length _ _ _ Hc).
  - eapply rtc_subrel; [|done]. intros a b. by apply connects_edge.
Qed.

Lemma scan_pairs_acc rooms pairs bd bp bd' bp' :
  scan_pairs rooms pairs bd bp = Ok (bd', bp') -> bp' = bp \/ bp' ∈ pairs.
Proof.
  revert bd bp. induction pairs as [|[c u] pairs IH]; simpl; intros bd bp.
  - intros [= _ <-]. by left.
  - destruct (rooms !! c) as [rc|]; [|discriminate].
    destruct (rooms !! u) as [ru|]; [|discriminate].
    destruct (match bd with None => true | Some b => _ <? b end);
      intros Hrest; apply IH in Hrest as [->|Hin];
      rewrite elem_of_cons; auto.
Qed.

Lemma scan_pairs_first rooms pairs bp bd' bp' :
  pairs <> [] ->
  scan_pairs rooms pairs None bp = Ok (bd', bp') -> bp' ∈ pairs.
Proof.
  destruct pairs as [|[c u] pairs]; [done|]. intros _. simpl.
  destruct (rooms !! c) as [rc|]; [|discriminate].
  destruct (rooms !! u) as [ru|]; [|discriminate].
  intros Hrest. apply scan_pairs_acc in Hrest as [->|Hin];
    rewrite elem_of_cons; auto.
Qed.

Lemma elem_of_pairs_of connected unconnected c u :
  (c, u) ∈ pairs_of connected unconnected ->
  c ∈ connected /\ u ∈ unconnected.
Proof.
  unfold pairs_of. rewrite !list_elem_of_In, in_flat_map.
  intros (c' & Hc' & Hin). apply in_map_iff in Hin as (u' & [= <- <-] & Hu').
  done.
Qed.

Lemma pairs_of_nonempty connected unconnected :
  connected <> [] -> unconnected <> [] ->
  pairs_of connected unconnected <> [].
Proof.
  destruct connected as [|c ?], unconnected as [|u ?]; done.
Qed.

Lemma set_remove_inv u l l' :
  set_remove u l = Ok l' ->
  u ∈ l /\ forall v, v ∈ l -> v = u \/ v ∈ l'.
Proof.
  unfold set_remove. case_decide as Hu; [|discriminate].
  intros [= <-]. split; [done|]. intros v Hv.
  destruct (decide (v = u)) as [|Hne]; [by left|right].
  apply list_elem_of_In, filter_In. split; [by apply list_elem_of_In|].
  apply negb_true_iff, Nat.eqb_neq. done.
Qed.

Lemma set_remove_sub u l l' v : set_remove u l = Ok l' -> v ∈ l' -> v ∈ l.
Proof.
  unfold set_remove. case_decide; [|discriminate]. intros [= <-].
  rewrite !list_elem_of_In, filter_In. tauto.
Qed.

(** After both connections of a pair are appended, the pair is an edge. *)
Lemma appended_edge rs c u r :
  ids_ok rs -> rs !! u = Some r ->
  edge (map room_node (alter (Room.append_connection c) u rs)) c u.
Proof.
  intros Hids Hu. exists (u, Room.connections r ++ [c]). split.
  - apply list_elem_of_fmap. exists (Room.append_connection c r). split.
    + unfold room_node. simpl. by rewrite (ids_ok_lookup _ _ _ Hids Hu).
    + eapply list_elem_of_lookup_2.
      rewrite list_lookup_alter_eq, Hu. done.
  - right. simpl. split; [done|]. rewrite elem_of_app, list_elem_of_singleton.
    by right.
Qed.

(** The tree loop links every room of [connected] and of [unconnected]
    to the first room. *)
Lemma mst_loop_reached fuel connected unconnected s a s' :
  mst_loop config fuel connected unconnected s = Ok (a, s') ->
  ids_ok (Self.rooms s) -> connected <> [] ->
  Forall (reached (Self.rooms s)) connected ->
  linked s s' /\
  Forall (reached (Self.rooms s')) (connected ++ unconnected).
Proof.
  revert connected unconnected s.
  induction fuel as [|fuel IH]; intros C U s Hrun Hids HC Hreach;
    (destruct U as [|u0 U0]; simpl in Hrun;
     [inv_run Hrun; split; [apply linked_refl | by rewrite app_nil_r]|]).
  - discriminate.
  - inv_run Hrun.
    destruct (scan_pairs _ _ _ _) as [[bd [c u]]|] eqn:Hscan; [|discriminate].
    apply scan_pairs_first in Hscan;
      [|by apply pairs_of_nonempty].
    apply elem_of_pairs_of in Hscan as [Hc Hu].
    inv_run Hrun.
    destruct (set_remove u (u0 :: U0)) as [U'|] eqn:Hrem; [|discriminate].
    match goal with
    | Hcarve : _carve_corridor _ _ _ _ = Ok (_, ?s1),
      Hc1 : is_Some (Self.rooms ?s1 !! c),
      Hu1 : is_Some (_ !! u) |- _ =>
        apply _carve_corridor_carved, carved_linked in Hcarve;
        rename Hcarve into Hl1; rename Hu1 into Hu2; rename s1 into s1
    end.
    match type of Hrun with
    | mst_loop _ _ _ _ ?s3 = _ => set (s3' := s3) in *
    end.
    match type of Hl1 with
    | linked _ ?s1 =>
        assert (linked s1 s3') as Hl2
          by (repeat split; simpl;
              [eapply Forall2_connects_trans; apply Forall2_connects_alter
              | apply writes_refl])
    end.
    assert (linked s s3') as Hl by (eapply linked_trans; eauto).
    assert (ids_ok (Self.rooms s3')) as Hids3
      by (eapply connects_ids_ok; [apply Hl | done]).
    assert (reached (Self.rooms s3') u) as Hru.
    { apply (proj1 (Forall_forall _ _) Hreach) in Hc.
      eapply connects_reached in Hc; [|apply Hl].
      destruct Hc as [_ Hrc]. destruct Hu2 as [r Hr].
      split.
      - subst s3'. simpl. rewrite length_alter.
        by eapply lookup_lt_Some.
      - eapply rtc_r; [done|]. subst s3'. simpl.
        eapply appended_edge; [|done].
        eapply connects_ids_ok; [apply Forall2_connects_alter|].
        eapply connects_ids_ok; [apply Hl1 | done]. }
    apply IH in Hrun as [Hl3 Hall]; [|done|by destruct C|].
    + split; [eapply linked_trans; eauto|].
      apply Forall_forall. intros v Hv.
      apply elem_of_app in Hv as [Hv|Hv].
      * apply (proj1 (Forall_forall _ _) Hall). rewrite !elem_of_app. auto.
      * apply set_remove_inv in Hrem as [_ Hsub].
        apply (proj1 (Forall_forall _ _) Hall).
        destruct (Hsub v Hv) as [->|Hv'].
        -- rewrite !elem_of_app, list_elem_of_singleton. auto.
        -- rewrite !elem_of_app. auto.
    + apply Forall_app. split; [|by constructor].
      eapply Forall_impl; [done|]. intros v Hv.
      eapply connects_reached; [apply Hl | done].
Qed.

Lemma lift_rand_linked {A} (m : Rand A) s a s' :
  lift_rand m s = Ok (a, s') -> linked s s'.
Proof. intros Hrun. by apply lift_rand_carved, carved_linked in Hrun. Qed.

Lemma extra_connection_linked s a s' :
  extra_connection config s = Ok (a, s') -> linked s s'.
Proof.
  unfold extra_connection. intros Hrun. inv_run Hrun.
  match type of Hrun with
  | (if ?b then _ else _) _ = _ => destruct b
  end.
  - inv_run Hrun.
    match goal with
    | Hcarve : _carve_corridor _ _ _ _ = Ok _ |- _ =>
        apply _carve_corridor_carved, carved_linked in Hcarve;
        destruct Hcarve as (Hr & Hn & Hg)
    end.
    simpl in *. repeat split; simpl; [|done..].
    eapply Forall2_connects_trans; [done|].
    eapply Forall2_connects_trans; apply Forall2_connects_alter.
  - inv_run Hrun. repeat split; simpl;
      [apply Forall2_connects_refl | apply writes_refl].
Qed.

Lemma repeat_se_linked n (body : Run unit) s a s' :
  (forall s1 a1 s2, body s1 = Ok (a1, s2) -> linked s1 s2) ->
  repeat_se n body s = Ok (a, s') -> linked s s'.
Proof.
  intros Hbody. revert s. induction n as [|n IH]; simpl; intros s Hrun.
  - inv_run Hrun. apply linked_refl.
  - inv_run Hrun. eapply linked_trans; eauto.
Qed.

(** The connectivity builder links every room to the first one. *)
Lemma _connect_rooms_reached s a s' :
  _connect_rooms config s = Ok (a, s') ->
  ids_ok (Self.rooms s) ->
  linked s s' /\
  forall i, (i < length (Self.rooms s'))%nat -> reached (Self.rooms s') i.
Proof.
  unfold _connect_rooms. intros Hrun Hids. inv_run Hrun.
  destruct (length (Self.rooms s) <? 2)%nat eqn:Hn.
  - inv_run Hrun. split; [apply linked_refl|].
    apply Nat.ltb_lt in Hn. intros i Hi.
    assert (i = 0%nat) as -> by lia. split; [done | reflexivity].
  - apply Nat.ltb_ge in Hn. inv_run Hrun.
    match goal with
    | Hmst : mst_loop _ _ _ _ _ = Ok _ |- _ =>
        apply mst_loop_reached in Hmst as [Hl1 Hall]; [|done|done|]
    end.
    + apply repeat_se_linked in Hrun; [|apply extra_connection_linked].
      simpl in *.
      assert (linked s s') as Hl
        by (eapply linked_trans; [apply Hl1|];
            eapply linked_trans; [|apply Hrun];
            repeat split; simpl;
            [apply Forall2_connects_refl | apply writes_refl]).
      split; [done|]. intros i Hi.
      destruct Hl as (Hc & _ & _), Hl1 as (Hc1 & _ & _), Hrun as (Hc2 & _ & _).
      simpl in *.
      eapply connects_reached; [apply Hc2|].
      apply (proj1 (Forall_forall _ _) Hall).
      rewrite <- (Forall2_length _ _ _ Hc) in Hi.
      change (i ∈ seq 0 (S (length (Self.rooms s) - 1))).
      apply elem_of_seq. lia.
    + constructor; [|constructor]. split; [lia | reflexivity].
Qed.

(** With two or three rooms the draw of the number of extra connections,
    [random.randint(1, len(self.rooms) // 4)], has an empty range. *)
Lemma _connect_rooms_small s :
  (2 <= length (Self.rooms s) <= 3)%nat ->
  forall a s', _connect_rooms config s <> Ok (a, s').
Proof.
  intros Hn a s' Hrun. unfold _connect_rooms in Hrun. inv_run Hrun.
  destruct (length (Self.rooms s) <? 2)%nat eqn:Hlt;
    [apply Nat.ltb_lt in Hlt; lia|].
  inv_run Hrun.
  match goal with
  | Hdraw : randint 1 _ _ = Ok (?v, _) |- _ =>
      apply randint_range in Hdraw;
      assert (Z.of_nat (length (Self.rooms s)) / 4 = 0)
        by (apply Z.div_small; lia);
      lia
  end.
Qed.

(** *** Special rooms *)

Lemma _room_distance_self r : _room_distance r r = 0.
Proof. unfold _room_distance. rewrite !Z.sub_diag. reflexivity. Qed.

(** Rooms of non-negative size that are apart have distinct centers. *)
Lemma _room_distance_pos a b :
  apart (room_rect a) (room_rect b) ->
  0 <= Room.width a -> 0 <= Room.height a ->
  0 <= Room.width b -> 0 <= Room.height b ->
  0 < _room_distance a b.
Proof.
  unfold apart, room_rect, _room_distance, center. simpl.
  intros Hapart Hwa Hha Hwb Hhb. rewrite !Z.pow_2_r.
  assert (forall w, 0 <= w -> 0 <= w / 2 <= w) as Hhalf
    by (intros w Hw; split;
        [apply Z.div_pos; lia | apply Z.div_le_upper_bound; lia]).
  pose proof (Hhalf _ Hwa). pose proof (Hhalf _ Hha).
  pose proof (Hhalf _ Hwb). pose proof (Hhalf _ Hhb).
  assert (Room.x a + Room.width a / 2 - (Room.x b + Room.width b / 2) <> 0
          \/ Room.y a + Room.height a / 2 - (Room.y b + Room.height b / 2) <> 0)
    as Hne by lia.
  revert Hne.
  generalize (Room.x a + Room.width a / 2 - (Room.x b + Room.width b / 2)),
             (Room.y a + Room.height a / 2 - (Room.y b + Room.height b / 2)).
  intros dx dy Hne.
  pose proof (Z.square_nonneg dx). pose proof (Z.square_nonneg dy).
  destruct Hne; nia.
Qed.

Lemma _place_special_rooms_inv s a s' :
  _place_special_rooms config s = Ok (a, s') ->
  Self.grid s' = Self.grid s /\
  Self.next_room_id s' = Self.next_room_id s /\
  ((Self.rooms s = [] /\ Self.rooms s' = []) \/
   exists ie ib e,
     (ie < length (Self.rooms s))%nat /\
     alter (Room.set_room_type ENTRANCE) ie (Self.rooms s) !! ie = Some e /\
     first_max (_room_distance e)
               (alter (Room.set_room_type ENTRANCE) ie (Self.rooms s))
       = Some ib /\
     Self.rooms s' =
       alter (Room.set_room_type BOSS) ib
             (alter (Room.set_room_type ENTRANCE) ie (Self.rooms s))).
Proof.
  unfold _place_special_rooms. intros Hrun. inv_run Hrun.
  destruct (first_min _ _) as [ie|] eqn:Hmin.
  - pose proof (first_min_lt _ _ _ Hmin) as Hie.
    inv_run Hrun. simpl in *.
    destruct (first_max _ _) as [ib|] eqn:Hmax.
    + inv_run Hrun. simpl. repeat split. right. eauto 10.
    + exfalso. unfold first_max in Hmax.
      destruct (alter _ _ _) eqn:Halt; [|done].
      match goal with
      | Hl : [] !! _ = Some _ |- _ => by rewrite lookup_nil in Hl
      end.
  - inv_run Hrun. repeat split. left.
    unfold first_min in Hmin. by destruct (Self.rooms s).
Qed.

(** The entrance is the room at [ie] unless the boss room, at [ib], is the
    same room; no other room is an entrance or a boss room. *)
Definition roles_at (rs : list Room.t) (ie ib : nat) : Prop :=
  (ie < length rs)%nat /\ (ib < length rs)%nat /\
  forall j r, rs !! j = Some r ->
    (Room.room_type r = ENTRANCE <-> j = ie /\ ie <> ib) /\
    (Room.room_type r = BOSS <-> j = ib).

Lemma special_roles rs ie ib e :
  Forall (fun r => Room.room_type r = CORRIDOR) rs ->
  (ie < length rs)%nat ->
  first_max (_room_distance e) (alter (Room.set_room_type ENTRANCE) ie rs)
    = Some ib ->
  roles_at (alter (Room.set_room_type BOSS) ib
                  (alter (Room.set_room_type ENTRANCE) ie rs)) ie ib.
Proof.
  intros Hcorr Hie Hmax.
  apply first_max_greatest in Hmax as (m & Hm & _).
  apply lookup_lt_Some in Hm as Hib. rewrite length_alter in Hib.
  split; [by rewrite !length_alter|]. split; [by rewrite !length_alter|].
  intros j r Hj.
  destruct (decide (j = ib)) as [->|Hjb].
  - rewrite list_lookup_alter_eq, Hm in Hj. injection Hj as <-. simpl.
    intuition congruence.
  - rewrite list_lookup_alter_ne in Hj by done.
    destruct (decide (j = ie)) as [->|Hje].
    + rewrite list_lookup_alter_eq in Hj.
      destruct (rs !! ie); [|done]. injection Hj as <-. simpl.
      intuition congruence.
    + rewrite list_lookup_alter_ne in Hj by done.
      rewrite (proj1 (Forall_lookup _ _) Hcorr j r Hj).
      intuition congruence.
Qed.

Lemma special_distinct rs ie ib e :
  pairwise_apart (map room_rect rs) ->
  Forall (fun r => 0 <= Room.width r /\ 0 <= Room.height r) rs ->
  (2 <= length rs)%nat ->
  alter (Room.set_room_type ENTRANCE) ie rs !! ie = Some e ->
  first_max (_room_distance e) (alter (Room.set_room_type ENTRANCE) ie rs)
    = Some ib ->
  ie <> ib.
Proof.
  intros Hapart Hsize Hlen He Hmax <-.
  apply first_max_greatest in Hmax as (m & Hm & Hgreat).
  rewrite He in Hm. injection Hm as <-.
  rewrite list_lookup_alter_eq in He.
  destruct (rs !! ie) as [re|] eqn:Hre; [|done]. injection He as <-.
  set (j := if decide (ie = 0%nat) then 1%nat else 0%nat).
  assert (j <> ie /\ (j < length rs)%nat) as [Hj Hjlt]
    by (subst j; case_decide; lia).
  destruct (lookup_lt_is_Some_2 rs j Hjlt) as [rj Hrj].
  specialize (Hgreat rj).
  rewrite _room_distance_self in Hgreat.
  assert (0 < _room_distance (Room.set_room_type ENTRANCE re) rj).
  { change (_room_distance (Room.set_room_type ENTRANCE re) rj)
      with (_room_distance re rj).
    pose proof (proj1 (Forall_lookup _ _) Hsize _ _ Hre) as [? ?].
    pose proof (proj1 (Forall_lookup _ _) Hsize _ _ Hrj) as [? ?].
    apply _room_distance_pos; try done.
    apply (Hapart ie j); [done|..];
      change (map room_rect rs) with (room_rect <$> rs);
      by rewrite list_lookup_fmap, ?Hre, ?Hrj. }
  assert (_room_distance (Room.set_room_type ENTRANCE re) rj <= 0); [|lia].
  apply Hgreat. eapply list_elem_of_lookup_2.
  rewrite list_lookup_alter_ne; done.
Qed.

(** *** Content *)

Lemma replicate_se_Forall {S A} (P : A -> Prop) n (m : SE S A) s l s' :
  (forall s1 a s2, m s1 = Ok (a, s2) -> P a) ->
  replicate_se n m s = Ok (l, s') -> Forall P l.
Proof.
  intros Hm. revert s l. induction n as [|n IH]; simpl; intros s l Hrun.
  - apply ret_inv in Hrun as [-> _]. constructor.
  - apply bind_inv in Hrun as (a & s1 & Ha & Hrun).
    apply bind_inv in Hrun as (rest & s2 & Hrest & Hrun).
    apply ret_inv in Hrun as [-> ->]. constructor; eauto.
Qed.

(** The position of an encounter lies in the interior of the room. *)
Definition in_interior (room : Room.t) (e : Encounter) : Prop :=
  forall px py, encounter_position e = Some (px, py) ->
    Room.x room + 1 <= px <= Room.x room + Room.width room - 2 /\
    Room.y room + 1 <= py <= Room.y room + Room.height room - 2.

Definition enc_ok (r : Room.t) : Prop :=
  Forall (in_interior r) (Room.encounters r).

(** A boss room holds the encounter list of [_generate_boss_encounter]. *)
Definition boss_enc_ok (r : Room.t) : Prop :=
  Room.room_type r = BOSS ->
  Room.encounters r = _generate_boss_encounter config.

Lemma _generate_encounters_interior room g es g' :
  _generate_encounters config room g = Ok (es, g') ->
  Forall (in_interior room) es.
Proof.
  unfold _generate_encounters.
  destruct (Config.monster_table config) as [|m0 table].
  - intros Hrun. apply ret_inv in Hrun as [-> _]. constructor.
  - intros Hrun. apply bind_inv in Hrun as (n & g1 & _ & Hrun).
    eapply replicate_se_Forall; [|exact Hrun].
    clear. intros g1 e g2 Hone.
    apply bind_inv in Hone as (monster & g3 & _ & Hone).
    apply bind_inv in Hone as (px & g4 & Hpx & Hone).
    apply bind_inv in Hone as (py & g5 & Hpy & Hone).
    apply ret_inv in Hone as [-> _].
    apply randint_range in Hpx. apply randint_range in Hpy.
    unfold in_interior. simpl. intros qx qy Hpos. by simplify_eq.
Qed.

Lemma _generate_boss_encounter_interior room :
  Forall (in_interior room) (_generate_boss_encounter config).
Proof.
  unfold _generate_boss_encounter.
  destruct (Config.boss_config config) as [[|kv boss]|];
    [constructor | | constructor].
  constructor; [|constructor].
  unfold in_interior. simpl. intros qx qy Hpos. discriminate.
Qed.

(** What the content loops keep of a room: identity, rectangle and
    connections, whether it is the entrance or a boss room, and the
    encounters staying in the interior. *)
Definition populated (r r' : Room.t) : Prop :=
  room_node r' = room_node r /\ room_rect r' = room_rect r /\
  (Room.room_type r' = ENTRANCE <-> Room.room_type r = ENTRANCE) /\
  (Room.room_type r' = BOSS <-> Room.room_type r = BOSS) /\
  (enc_ok r -> enc_ok r').

Lemma populated_refl r : populated r r.
Proof. by repeat split. Qed.

Lemma populated_trans r1 r2 r3 :
  populated r1 r2 -> populated r2 r3 -> populated r1 r3.
Proof.
  intros (Hn & Hr & He & Hb & Hok) (Hn' & Hr' & He' & Hb' & Hok').
  repeat split; try congruence; try tauto.
Qed.

Lemma populated_set_loot l r : populated r (Room.set_loot l r).
Proof. by repeat split. Qed.

Lemma populated_retype ty r :
  Room.room_type r <> ENTRANCE -> Room.room_type r <> BOSS ->
  ty <> ENTRANCE -> ty <> BOSS ->
  populated r (Room.set_room_type ty r).
Proof. intros. repeat split; simpl; done. Qed.

Lemma populated_set_puzzle p r : populated r (Room.set_puzzle p r).
Proof. by repeat split. Qed.

Lemma populated_set_encounters es r :
  Forall (in_interior r) es -> populated r (Room.set_encounters es r).
Proof. intros Hes. repeat split; simpl; done. Qed.

Lemma populate_room_populated room g room' g' :
  populate_room config room g = Ok (room', g') -> populated room room'.
Proof.
  unfold populate_room.
  destruct (bool_decide (Room.room_type room = ENTRANCE)) eqn:He;
    [intros Hrun; apply ret_inv in Hrun as [-> _]; apply populated_refl|].
  destruct (bool_decide (Room.room_type room = BOSS)) eqn:Hb;
    [intros Hrun; apply ret_inv in Hrun as [-> _]; apply populated_refl|].
  apply bool_decide_eq_false in He. apply bool_decide_eq_false in Hb.
  simpl. intros Hrun.
  apply bind_inv in Hrun as (roll & g1 & _ & Hrun).
  apply bind_inv in Hrun as (room1 & g2 & Hkind & Hrun).
  assert (populated room room1) as H1.
  { destruct (Qltb roll _).
    { apply bind_inv in Hkind as (es & g3 & Hes & Hkind).
      apply ret_inv in Hkind as [-> _].
      apply _generate_encounters_interior in Hes.
      eapply populated_trans; [by apply (populated_retype COMBAT)|].
      by apply populated_set_encounters. }
    destruct (Qltb roll _).
    { apply bind_inv in Hkind as (pz & g3 & _ & Hkind).
      apply ret_inv in Hkind as [-> _].
      eapply populated_trans; [by apply (populated_retype PUZZLE)|].
      apply populated_set_puzzle. }
    destruct (Qltb roll _).
    { apply bind_inv in Hkind as (l & g3 & _ & Hkind).
      apply ret_inv in Hkind as [-> _].
      eapply populated_trans; [by apply (populated_retype TREASURE)|].
      apply populated_set_loot. }
    apply ret_inv in Hkind as [-> _]. by apply populated_retype. }
  eapply populated_trans; [exact H1|].
  destruct (bool_decide (Room.room_type room1 = TREASURE)).
  { apply ret_inv in Hrun as [-> _]. apply populated_refl. }
  apply bind_inv in Hrun as (roll2 & g3 & _ & Hrun).
  destruct (Qltb roll2 _).
  - apply bind_inv in Hrun as (l & g4 & _ & Hrun).
    apply ret_inv in Hrun as [-> _]. apply populated_set_loot.
  - apply ret_inv in Hrun as [-> _]. apply populated_refl.
Qed.

Lemma populate_boss_populated room g room' g' :
  populate_boss config room g = Ok (room', g') ->
  populated room room' /\ boss_enc_ok room'.
Proof.
  unfold populate_boss, boss_enc_ok.
  destruct (bool_decide (Room.room_type room = BOSS)) eqn:Hb.
  - intros Hrun. apply bind_inv in Hrun as (l & g1 & _ & Hrun).
    apply ret_inv in Hrun as [-> _]. split; [|done].
    repeat split; simpl; try done. intros _.
    apply _generate_boss_encounter_interior.
  - apply bool_decide_eq_false in Hb.
    intros Hrun. apply ret_inv in Hrun as [-> _].
    split; [apply populated_refl | done].
Qed.

Lemma _populate_rooms_populated s a s' :
  _populate_rooms config s = Ok (a, s') ->
  Self.grid s' = Self.grid s /\
  Self.next_room_id s' = Self.next_room_id s /\
  Forall2 populated (Self.rooms s) (Self.rooms s') /\
  Forall boss_enc_ok (Self.rooms s').
Proof.
  unfold _populate_rooms. intros Hrun. inv_run Hrun. simpl in *.
  match goal with
  | H1 : map_se (populate_room _) _ _ = Ok _,
    H2 : map_se (populate_boss _) _ _ = Ok _ |- _ =>
      apply (map_se_Forall2 _ populated) in H1;
        [|intros ????; apply populate_room_populated];
      apply (map_se_Forall2 _ (fun r r' => populated r r' /\ boss_enc_ok r'))
        in H2; [|intros ????; apply populate_boss_populated]
  end.
  repeat split.
  - eapply Forall2_trans; [|done|].
    + apply populated_trans.
    + eapply Forall2_impl; [done|]. by intros ?? [? _].
  - eapply Forall2_Forall_r; [done|].
    apply Forall_forall. by intros ? _ ? [_ ?].
Qed.

Lemma Forall2_populated_map {B} (f : Room.t -> B) rs rs' :
  (forall r r', populated r r' -> f r' = f r) ->
  Forall2 populated rs rs' -> map f rs' = map f rs.
Proof. intros Hf. induction 1; simpl; f_equal; auto. Qed.

Lemma populated_roles_at rs rs' ie ib :
  Forall2 populated rs rs' -> roles_at rs ie ib -> roles_at rs' ie ib.
Proof.
  intros Hp (Hie & Hib & Hroles).
  rewrite (Forall2_length _ _ _ Hp) in Hie, Hib.
  split; [done|]. split; [done|]. intros j r' Hj.
  destruct (Forall2_lookup_r _ _ _ _ _ Hp Hj) as (r & Hr & Hrr').
  destruct Hrr' as (_ & _ & He & Hb & _).
  destruct (Hroles j r Hr) as [He0 Hb0]. tauto.
Qed.

Lemma populated_enc_ok rs rs' :
  Forall2 populated rs rs' -> Forall enc_ok rs -> Forall enc_ok rs'.
Proof.
  induction 1 as [|r r' rs rs' Hr _ IH]; [done|].
  intros Hok. inversion Hok; subst. constructor; [|auto].
  destruct Hr as (_ & _ & _ & _ & Henc). auto.
Qed.

(** *** Traps *)

Lemma py_int_nonneg_le q1 q2 :
  (0 <= q1)%Q -> (q1 <= q2)%Q -> 0 <= py_int q1 <= Qfloor q2.
Proof.
  intros H0 Hle. unfold py_int.
  rewrite (proj2 (Qle_bool_iff 0 q1) H0). split.
  - change 0 with (Qfloor 0). by apply Qfloor_resp_le.
  - by apply Qfloor_resp_le.
Qed.

Lemma _add_traps_count s a s' :
  _add_traps config s = Ok (a, s') ->
  Self.rooms s' = Self.rooms s /\
  Self.next_room_id s' = Self.next_room_id s /\
  writes TRAP (Self.grid s) (Self.grid s') /\
  exists floor_tiles k,
    collect_floor (Self.grid s) (grid_cells config) = Ok floor_tiles /\
    0 <= k <= Z.of_nat (length floor_tiles) /\
    k <= num_traps config floor_tiles /\
    Z.of_nat (count_tile TRAP (Self.grid s')) <=
      Z.of_nat (count_tile TRAP (Self.grid s)) + k.
Proof.
  unfold _add_traps. intros Hrun. inv_run Hrun.
  destruct (collect_floor _ _) as [floor_tiles|] eqn:Hfl; [|discriminate].
  inv_run Hrun. apply update_grid_inv in Hrun as (g' & Hset & ->). simpl in *.
  match goal with
  | Hs : sample _ _ _ = Ok (?tiles, _) |- _ =>
      apply sample_length in Hs as [Hlen Hk];
      pose proof (set_tiles_count TRAP _ _ _ _ Hset) as Hcount
  end.
  repeat split; [eauto using set_tiles_writes|].
  eexists _, _. split; [done|]. split; [exact Hk|]. split; lia.
Qed.

(** *** The secret room *)

(** A step of the secret-room pass: tiles are carved, and at most one room,
    a secret one that passed the overlap test, joins the catalog. *)
Definition secret_added (s s' : Self.t) : Prop :=
  writes FLOOR (Self.grid s) (Self.grid s') /\
  (Self.rooms s' = Self.rooms s \/
   exists secret,
     Self.rooms s' = Self.rooms s ++ [secret] /\
     Room.room_type secret = SECRET /\ Room.encounters secret = [] /\
     forall r, r ∈ Self.rooms s -> apart (room_rect secret) (room_rect r)).

Lemma place_secret_added width height p s a s' :
  place_secret config width height p s = Ok (a, s') ->
  _check_room_overlap (Self.rooms s) (fst p) (snd p) width height = false ->
  secret_added s s'.
Proof.
  unfold place_secret. intros Hrun Hchk. inv_run Hrun. simpl in *.
  match goal with
  | Hc : _carve_room _ _ = Ok _ |- _ =>
      apply _carve_room_carved in Hc as (Hr & Hn & Hg)
  end.
  simpl in *. split; [done|]. right.
  eexists. split; [|split; [|split]].
  - rewrite Hr.
    replace (length (Self.rooms s)) with (length (Self.rooms s) + 0)%nat
      by lia.
    rewrite alter_app_r. simpl. reflexivity.
  - done.
  - done.
  - intros r Hr'. apply (check_room_overlap_false _ _ _ _ _ Hchk r Hr').
Qed.

(** Nothing but the generator state changes when no room is placed. *)
Definition untouched (s s' : Self.t) : Prop :=
  Self.rooms s' = Self.rooms s /\ Self.grid s' = Self.grid s /\
  Self.next_room_id s' = Self.next_room_id s.

Lemma try_positions_added width height ps s placed s' :
  try_positions config width height ps s = Ok (placed, s') ->
  if placed then
    secret_added s s' /\
    exists p, p ∈ ps /\ secret_fits config (Self.rooms s) width height p = true
  else s' = s.
Proof.
  induction ps as [|p ps IH]; simpl; intros Hrun.
  - by inv_run Hrun.
  - inv_run Hrun.
    destruct (secret_fits _ _ _ _ _) eqn:Hfits.
    + inv_run Hrun.
      match goal with
      | Hp : place_secret _ _ _ _ _ = Ok _ |- _ =>
          apply place_secret_added in Hp
      end.
      * split; [done|]. exists p. split; [by left | done].
      * unfold secret_fits in Hfits.
        rewrite !andb_true_iff, negb_true_iff in Hfits. tauto.
    + specialize (IH Hrun). destruct placed; [|done].
      destruct IH as [Hadd (q & Hq & Hfq)].
      split; [done|]. exists q. split; [by right | done].
Qed.

(** Every candidate position lies one tile away from its base room, too
    close for the two-tile padding of the overlap test. *)
Lemma secret_never_fits rooms base_room width height p :
  base_room ∈ rooms ->
  0 <= Room.width base_room -> 0 <= Room.height base_room ->
  3 <= width -> 3 <= height ->
  p ∈ secret_positions base_room width height ->
  secret_fits config rooms width height p = false.
Proof.
  intros Hbase Hw Hh Hsw Hsh Hp. unfold secret_fits.
  rewrite (check_room_overlap_true rooms base_room).
  - simpl. by rewrite andb_false_r.
  - done.
  - unfold secret_positions in Hp.
    repeat (apply elem_of_cons in Hp as [->|Hp]); simpl; try lia.
    by apply elem_of_nil in Hp.
  - unfold secret_positions in Hp.
    repeat (apply elem_of_cons in Hp as [->|Hp]); simpl; try lia.
    by apply elem_of_nil in Hp.
  - unfold secret_positions in Hp.
    repeat (apply elem_of_cons in Hp as [->|Hp]); simpl; try lia.
    by apply elem_of_nil in Hp.
  - unfold secret_positions in Hp.
    repeat (apply elem_of_cons in Hp as [->|Hp]); simpl; try lia.
    by apply elem_of_nil in Hp.
Qed.

Definition nonneg_size (r : Room.t) : Prop :=
  0 <= Room.width r /\ 0 <= Room.height r.

Lemma secret_attempt_added s placed s' :
  secret_attempt config s = Ok (placed, s') ->
  (if placed then secret_added s s' else untouched s s') /\
  (Forall nonneg_size (Self.rooms s) -> placed = false).
Proof.
  unfold secret_attempt. intros Hrun. inv_run Hrun.
  apply try_positions_added in Hrun. cbn [Self.rooms Self.grid] in Hrun.
  match goal with
  | Hb : choice _ _ = Ok (?b, _), Hw : randint 3 6 _ = Ok (?w, _),
    Hh : randint 3 6 _ = Ok (?h, _) |- _ =>
      apply choice_elem in Hb; apply randint_range in Hw;
      apply randint_range in Hh
  end.
  split.
  - destruct placed; [by destruct Hrun as [? _] | by subst].
  - intros Hsize. destruct placed; [|done].
    destruct Hrun as [_ (p & Hp & Hfits)]. simpl in Hfits.
    match goal with
    | Hb : ?b ∈ Self.rooms s |- _ =>
        destruct (proj1 (Forall_forall _ _) Hsize b Hb) as [? ?];
        rewrite (secret_never_fits _ b) in Hfits; try done; lia
    end.
Qed.

Lemma secret_attempts_added n s a s' :
  secret_attempts config n s = Ok (a, s') ->
  secret_added s s' /\
  (Forall nonneg_size (Self.rooms s) -> Self.rooms s' = Self.rooms s).
Proof.
  revert s. induction n as [|n IH]; simpl; intros s Hrun.
  - inv_run Hrun. split; [|done]. split; [apply writes_refl | by left].
  - inv_run Hrun.
    match goal with
    | Ha : secret_attempt _ _ = Ok (?placed, _) |- _ =>
        apply secret_attempt_added in Ha as [Hstep Hnever];
        destruct placed
    end.
    + inv_run Hrun. split; [done|]. intros Hsize. by specialize (Hnever Hsize).
    + destruct Hstep as (Hr & Hg & _).
      apply IH in Hrun as [Hadd Hsame].
      unfold secret_added in *. rewrite Hr, Hg in Hadd. rewrite Hr in Hsame.
      done.
Qed.

Lemma _add_secret_rooms_added s a s' :
  _add_secret_rooms config s = Ok (a, s') ->
  secret_added s s' /\
  (Forall nonneg_size (Self.rooms s) -> Self.rooms s' = Self.rooms s).
Proof.
  unfold _add_secret_rooms. intros Hrun. inv_run Hrun.
  destruct (Qltb _ _).
  - inv_run Hrun. simpl. split; [|done]. split; [apply writes_refl | by left].
  - by apply secret_attempts_added in Hrun.
Qed.

(** *** The layout before the trap pass *)

Definition sized (r : Room.t) : Prop :=
  Config.min_room_size config <= Room.width r /\
  Config.min_room_size config <= Room.height r.

Definition floor_or_wall (t : TileType) : Prop := t = WALL \/ t = FLOOR.

(** What holds after placement, connection, role assignment and content. *)
Record built (s : Self.t) : Prop := {
  built_dims : grid_dims (Z.to_nat (Config.height config))
                         (Z.to_nat (Config.width config)) (Self.grid s);
  built_tiles : tiles_in floor_or_wall (Self.grid s);
  built_apart : pairwise_apart (map room_rect (Self.rooms s));
  built_sized : Forall sized (Self.rooms s);
  built_ids : ids_ok (Self.rooms s);
  built_reached :
    forall i, (i < length (Self.rooms s))%nat -> reached (Self.rooms s) i;
  built_enc : Forall enc_ok (Self.rooms s);
  built_boss : Forall boss_enc_ok (Self.rooms s);
  built_roles :
    Self.rooms s = [] \/
    exists ie ib,
      roles_at (Self.rooms s) ie ib /\
      (0 <= Config.min_room_size config ->
       (2 <= length (Self.rooms s))%nat -> ie <> ib);
  built_count : ~ (2 <= length (Self.rooms s) <= 3)%nat
}.

Lemma Forall2_Forall_transfer {A} (R : A -> A -> Prop) (P Q : A -> Prop) l l' :
  (forall a b, R a b -> P a -> Q b) ->
  Forall2 R l l' -> Forall P l -> Forall Q l'.
Proof.
  intros HR. induction 1 as [|a b l l' Hab _ IH]; [done|].
  intros HP. inversion HP; subst. constructor; eauto.
Qed.

Lemma reached_ext rs rs' i :
  map room_node rs' = map room_node rs -> reached rs i -> reached rs' i.
Proof.
  intros Heq [Hlt Hrtc]. split.
  - by rewrite <- (length_map room_node rs'), Heq, length_map.
  - by rewrite Heq.
Qed.

Lemma ids_ok_ext rs rs' :
  map Room.id rs' = map Room.id rs -> ids_ok rs -> ids_ok rs'.
Proof.
  unfold ids_ok. intros Heq Hids.
  by rewrite Heq, Hids, <- (length_map Room.id rs), <- Heq, length_map.
Qed.

Lemma init_grid_dims :
  grid_dims (Z.to_nat (Config.height config))
            (Z.to_nat (Config.width config)) (init_grid config).
Proof.
  unfold init_grid. split; [apply length_replicate|].
  apply Forall_replicate, length_replicate.
Qed.

Lemma init_grid_tiles : tiles_in (fun t => t = WALL) (init_grid config).
Proof. unfold init_grid. by do 2 apply Forall_replicate. Qed.

Lemma tiles_in_impl (P Q : TileType -> Prop) g :
  (forall t, P t -> Q t) -> tiles_in P g -> tiles_in Q g.
Proof.
  intros HPQ Hg. eapply Forall_impl; [exact Hg|].
  intros row Hrow. eapply Forall_impl; eauto.
Qed.

Lemma build_layout_built s a s' :
  build_layout config s = Ok (a, s') ->
  Self.rooms s = [] -> Self.next_room_id s = 0%nat -> built s'.
Proof.
  unfold build_layout. intros Hrun Hrooms Hnext.
  apply bind_inv in Hrun as (? & sA & HA & Hrun).
  apply bind_inv in Hrun as (? & sB & HB & Hrun).
  apply bind_inv in Hrun as (? & sC & HC & Hrun).
  apply bind_inv in Hrun as (? & sD & HD & HE).
  apply update_grid_inv in HA as (g0 & [= <-] & ->).
  (* placement *)
  apply _generate_rooms_bsp_placed in HB as [[_ HidsB HapartB HfreshB] HwB].
  2:{ split; simpl; rewrite ?Hrooms, ?Hnext; done. }
  simpl in HwB.
  (* connection *)
  pose proof (fun Hn => _connect_rooms_small sB Hn _ _ HC) as Hcount.
  apply _connect_rooms_reached in HC as [(HcC & _ & HwC) HreachC]; [|done].
  pose proof (connects_ids_ok _ _ HcC HidsB) as HidsC.
  assert (Forall (fun r => Room.room_type r = CORRIDOR /\
                           Room.encounters r = [] /\ sized r)
                 (Self.rooms sC)) as HfreshC.
  { eapply Forall2_Forall_transfer; [|exact HcC|exact HfreshB].
    intros r r' [e ->] (? & ? & ? & ? & ?). by repeat split. }
  assert (pairwise_apart (map room_rect (Self.rooms sC))) as HapartC
    by (by rewrite (Forall2_connects_map room_rect _ _ connects_rect HcC)).
  (* the grid *)
  assert (writes FLOOR (init_grid config) (Self.grid sC)) as Hw
    by (eapply writes_trans; eauto).
  apply _place_special_rooms_inv in HD as (HgD & _ & HD).
  apply _populate_rooms_populated in HE as (HgE & _ & HpE & HbossE).
  assert (grid_dims (Z.to_nat (Config.height config))
                    (Z.to_nat (Config.width config)) (Self.grid s')
          /\ tiles_in floor_or_wall (Self.grid s')) as [Hdims Htiles].
  { rewrite HgE, HgD. split.
    - eapply writes_dims; [exact Hw | apply init_grid_dims].
    - eapply writes_tiles_in; [exact Hw | by right |].
      eapply tiles_in_impl; [|apply init_grid_tiles]. by left. }
  (* roles and content *)
  assert (map room_node (Self.rooms sD) = map room_node (Self.rooms sC) /\
          map room_rect (Self.rooms sD) = map room_rect (Self.rooms sC) /\
          map Room.id (Self.rooms sD) = map Room.id (Self.rooms sC) /\
          Forall enc_ok (Self.rooms sD) /\ Forall sized (Self.rooms sD))
    as (HnD & HrD & HiD & HencD & HsizedD).
  { assert (Forall enc_ok (Self.rooms sC) /\ Forall sized (Self.rooms sC))
      as [HencC HsizedC].
    { split; (eapply Forall_impl; [exact HfreshC|]).
      - intros r (_ & He & _). unfold enc_ok. rewrite He. constructor.
      - by intros r (_ & _ & ?). }
    destruct HD as [[HC0 ->]|(ie & ib & e & _ & _ & _ & ->)].
    - by rewrite HC0 in *.
    - rewrite !alter_map_fixed by done.
      repeat split; repeat (apply Forall_alter; [|by intros ? _]); done. }
  pose proof (Forall2_populated_map room_node _ _
                ltac:(by intros ?? (? & _)) HpE) as HnE.
  pose proof (Forall2_populated_map room_rect _ _
                ltac:(by intros ?? (_ & ? & _)) HpE) as HrE.
  split.
  - done.
  - done.
  - by rewrite HrE, HrD.
  - eapply Forall2_Forall_transfer; [|exact HpE|exact HsizedD].
    intros r r' (_ & Hrect & _) [? ?]. unfold sized.
    assert (Room.width r' = Room.width r) as -> by (by injection Hrect).
    assert (Room.height r' = Room.height r) as -> by (by injection Hrect).
    done.
  - eapply ids_ok_ext; [|eapply ids_ok_ext; [exact HiD | exact HidsC]].
    apply (Forall2_populated_map Room.id _ _); [|exact HpE].
    intros r r' (Hnode & _). by injection Hnode.
  - intros i Hi. eapply reached_ext; [exact HnE|].
    eapply reached_ext; [exact HnD|]. apply HreachC.
    rewrite <- (length_map room_node), HnE, HnD, length_map in Hi. done.
  - by apply (populated_enc_ok _ _ HpE).
  - done.
  - destruct HD as [[HC0 HD0]|(ie & ib & e & Hie & He & Hmax & HD)].
    + left. rewrite HD0 in HpE. by inversion HpE.
    + right. exists ie, ib. split.
      * apply (populated_roles_at _ _ _ _ HpE). rewrite HD.
        eapply special_roles; [|done|done].
        eapply Forall_impl; [exact HfreshC|]. by intros r (? & _).
      * intros Hmin Hlen.
        eapply (special_distinct (Self.rooms sC)); try done.
        -- eapply Forall_impl; [exact HfreshC|].
           intros r (_ & _ & [? ?]). split; lia.
        -- rewrite <- (Forall2_length _ _ _ HpE), HD, !length_alter in Hlen.
           done.
  - rewrite <- (length_map room_node), HnE, HnD, length_map.
    by rewrite <- (Forall2_length _ _ _ HcC).
Qed.

(** *** The whole run *)

Lemma DungeonGenerator_init_inv seed global sd s :
  DungeonGenerator_init seed global = Ok (sd, s) ->
  Self.rooms s = [] /\ Self.next_room_id s = 0%nat /\
  Self.rand s = seed_rng sd /\
  (forall n, seed = Some n -> n <> 0 -> sd = n).
Proof.
  unfold DungeonGenerator_init. intros Hrun.
  assert (forall n, Ok (n, Self.mk _ [] [] 0%nat (seed_rng n)) = Ok (sd, s)
                    -> Self.rooms s = [] /\ Self.next_room_id s = 0%nat /\
                       Self.rand s = seed_rng sd) as Hstart
    by (by intros n [= <- <-]).
  destruct seed as [n|].
  - destruct (n =? 0) eqn:Hn.
    + destruct (randint 0 (2 ^ 32) global) as [[v ?]|]; [|done].
      destruct (Hstart _ Hrun) as (? & ? & ?). repeat split; try done.
      intros ? [= <-] Hne. apply Z.eqb_eq in Hn. done.
    + destruct (Hstart _ Hrun) as (? & ? & ?). repeat split; try done.
      intros ? [= <-] _. by injection Hrun.
  - destruct (randint 0 (2 ^ 32) global) as [[v ?]|]; [|done].
    destruct (Hstart _ Hrun) as (? & ? & ?). repeat split; done.
Qed.

Lemma generate_inv seed s d s' :
  generate config seed s = Ok (d, s') ->
  Self.rooms s = [] -> Self.next_room_id s = 0%nat ->
  exists s1 s2,
    build_layout config s = Ok (tt, s1) /\ built s1 /\
    _add_traps config s1 = Ok (tt, s2) /\
    _add_secret_rooms config s2 = Ok (tt, s') /\
    d = _export config seed s'.
Proof.
  unfold generate. intros Hrun Hrooms Hnext.
  apply bind_inv in Hrun as ([] & s1 & H1 & Hrun).
  apply bind_inv in Hrun as ([] & s2 & H2 & Hrun).
  apply bind_inv in Hrun as ([] & s3 & H3 & Hrun).
  inv_run Hrun. exists s1, s2.
  split; [done|]. split; [eapply build_layout_built; eauto|]. done.
Qed.

Lemma run_generator_inv seed global d :
  run_generator config seed global = Ok d ->
  exists sd s0 s1 s2 s3,
    DungeonGenerator_init seed global = Ok (sd, s0) /\
    build_layout config s0 = Ok (tt, s1) /\ built s1 /\
    _add_traps config s1 = Ok (tt, s2) /\
    _add_secret_rooms config s2 = Ok (tt, s3) /\
    d = _export config sd s3.
Proof.
  unfold run_generator. intros Hrun.
  destruct (DungeonGenerator_init seed global) as [[sd s0]|] eqn:Hinit;
    [|done].
  destruct (generate config sd s0) as [[d' s3]|] eqn:Hgen; [|done].
  injection Hrun as ->.
  apply DungeonGenerator_init_inv in Hinit as Hs0.
  destruct Hs0 as (Hrooms & Hnext & _).
  apply generate_inv in Hgen as (s1 & s2 & ? & ? & ? & ? & ?); [|done..].
  exists sd, s0, s1, s2, s3. done.
Qed.

(** The catalog after the trap pass and the secret-room pass. *)
Lemma final_rooms s1 s2 s3 :
  built s1 ->
  _add_traps config s1 = Ok (tt, s2) ->
  _add_secret_rooms config s2 = Ok (tt, s3) ->
  pairwise_apart (map room_rect (Self.rooms s3)) /\
  Forall enc_ok (Self.rooms s3) /\
  Forall boss_enc_ok (Self.rooms s3) /\
  (0 <= Config.min_room_size config -> Self.rooms s3 = Self.rooms s1).
Proof.
  intros Hb Htraps Hsecret.
  apply _add_traps_count in Htraps as (Hr2 & _ & _ & _).
  apply _add_secret_rooms_added in Hsecret as [[_ Hadd] Hsame].
  rewrite Hr2 in Hadd, Hsame. destruct Hb.
  repeat split.
  - destruct Hadd as [->|(secret & -> & _ & _ & Hapart)]; [done|].
    rewrite map_app. apply pairwise_apart_snoc; [done|].
    intros rc Hrc. apply list_elem_of_fmap in Hrc as (r & -> & Hr). auto.
  - destruct Hadd as [->|(secret & -> & _ & Henc & _)]; [done|].
    apply Forall_app. split; [done|]. constructor; [|done].
    unfold enc_ok. rewrite Henc. constructor.
  - destruct Hadd as [->|(secret & -> & Hty & _ & _)]; [done|].
    apply Forall_app. split; [done|]. constructor; [|done].
    unfold boss_enc_ok. by rewrite Hty.
  - intros Hmin. apply Hsame.
    eapply Forall_impl; [exact built_sized0|].
    intros r [? ?]. split; lia.
Qed.

Definition grid_tag (t : TileType) : Prop := t = WALL \/ t = FLOOR \/ t = TRAP.

Lemma length_cells xs ys : length (cells xs ys) = (length ys * length xs)%nat.
Proof.
  unfold cells. induction ys as [|y ys IH]; simpl; [done|].
  by rewrite length_app, length_map, IH.
Qed.

Lemma length_range_0 b : length (range 0 b) = Z.to_nat b.
Proof. by rewrite range_0, length_map, length_seq. Qed.

(** The grid after the trap pass and the secret-room pass. *)
Lemma final_grid s1 s2 s3 :
  built s1 ->
  _add_traps config s1 = Ok (tt, s2) ->
  _add_secret_rooms config s2 = Ok (tt, s3) ->
  tiles_in grid_tag (Self.grid s3) /\
  (count_tile TRAP (Self.grid s3) <= count_tile FLOOR (Self.grid s1))%nat /\
  (0 <= Config.width config -> 0 <= Config.height config ->
   (0 <= Config.trap_density config)%Q ->
   Z.of_nat (count_tile TRAP (Self.grid s3)) <=
     Qfloor (inject_Z (Config.width config * Config.height config) *
             Config.trap_density config)).
Proof.
  intros Hb Htraps Hsecret.
  apply _add_traps_count in Htraps
    as (_ & _ & Hw2 & ft & k & Hft & Hk & Hknum & Hcount).
  apply _add_secret_rooms_added in Hsecret as [[Hw3 _] _].
  destruct Hb.
  pose proof (writes_count FLOOR TRAP _ _ Hw3 ltac:(done)) as Hc3.
  rewrite (tiles_in_count_zero floor_or_wall TRAP (Self.grid s1)) in Hcount;
    [|done|by intros [?|?]].
  pose proof (collect_floor_length _ _ _ Hft) as Hftlen.
  apply collect_floor_count in Hft; [|done].
  repeat split.
  - eapply writes_tiles_in; [exact Hw3 | by right; left |].
    eapply writes_tiles_in; [exact Hw2 | by right; right |].
    eapply tiles_in_impl; [|exact built_tiles0].
    intros t [?|?]; [by left | by right; left].
  - lia.
  - intros HW HH Hd.
    unfold grid_cells in Hftlen.
    rewrite length_cells, !length_range_0 in Hftlen.
    assert (k <= Qfloor (inject_Z (Config.width config * Config.height config)
                         * Config.trap_density config)); [|lia].
    etrans; [exact Hknum|]. unfold num_traps.
    apply py_int_nonneg_le.
    + apply Qmult_le_0_compat; [|done].
      change 0%Q with (inject_Z 0). rewrite <- Zle_Qle. lia.
    + apply Qmult_le_compat_r; [|done]. rewrite <- Zle_Qle. nia.
Qed.
End StateFacts.

(** ** The fuel of the tree loop

    [mst_loop] is the only place where the embedding counts rounds.  The
    fuel [_connect_rooms] gives it always suffices: no run ends with
    [OutOfFuel]. *)

Definition fuel_safe {S A} (m : SE S A) : Prop :=
  forall s, m s <> Raise OutOfFuel.

Lemma fuel_safe_ret {S A} (a : A) : fuel_safe (ret (S := S) a).
Proof. by intros s. Qed.

Lemma fuel_safe_raise {S A} e :
  e <> OutOfFuel -> fuel_safe (raise (S := S) (A := A) e).
Proof. intros He s [= ->]. done. Qed.

Lemma fuel_safe_get_state {S} : fuel_safe (get_state (S := S)).
Proof. by intros s. Qed.

Lemma fuel_safe_bind {S A B} (m : SE S A) (f : A -> SE S B) :
  fuel_safe m -> (forall a, fuel_safe (f a)) -> fuel_safe (bind m f).
Proof.
  intros Hm Hf s Hrun.
  apply bind_raise_inv in Hrun as [Hrun|(a & s1 & _ & Hrun)].
  - by apply Hm in Hrun.
  - by apply Hf in Hrun.
Qed.

Lemma fuel_safe_repeat_se {S} n (body : SE S unit) :
  fuel_safe body -> fuel_safe (repeat_se n body).
Proof.
  intros Hbody. induction n as [|n IH]; simpl.
  - apply fuel_safe_ret.
  - by apply fuel_safe_bind.
Qed.

Lemma fuel_safe_replicate_se {S A} n (m : SE S A) :
  fuel_safe m -> fuel_safe (replicate_se n m).
Proof.
  intros Hm. induction n as [|n IH]; simpl.
  - apply fuel_safe_ret.
  - apply fuel_safe_bind; [done|]. intros a.
    apply fuel_safe_bind; [done|]. intros rest. apply fuel_safe_ret.
Qed.

Lemma fuel_safe_map_se {S A B} (f : A -> SE S B) l :
  (forall a, fuel_safe (f a)) -> fuel_safe (map_se f l).
Proof.
  intros Hf. induction l as [|a l IH]; simpl.
  - apply fuel_safe_ret.
  - apply fuel_safe_bind; [done|]. intros b.
    apply fuel_safe_bind; [done|]. intros bs. apply fuel_safe_ret.
Qed.

Lemma grid_set_raise g x y t e : grid_set g x y t = Raise e -> e = IndexError.
Proof.
  unfold grid_set. destruct (py_index (length g) y) as [j|]; [|congruence].
  destruct (g !! j) as [row|]; [|congruence].
  destruct (py_index (length row) x); congruence.
Qed.

Lemma grid_get_raise g x y e : grid_get g x y = Raise e -> e = IndexError.
Proof.
  unfold grid_get. destruct (py_index (length g) y) as [j|]; [|congruence].
  destruct (g !! j) as [row|]; [|congruence].
  destruct (py_index (length row) x) as [i|]; [|congruence].
  destruct (row !! i); congruence.
Qed.

Lemma set_tiles_fuel cs t g : set_tiles cs t g <> Raise OutOfFuel.
Proof.
  revert g. induction cs as [|[x y] cs IH]; simpl; intros g; [done|].
  destruct (grid_set g x y t) as [g1|e] eqn:Hset; [apply IH|].
  apply grid_set_raise in Hset as ->. done.
Qed.

Lemma collect_floor_fuel g cs : collect_floor g cs <> Raise OutOfFuel.
Proof.
  induction cs as [|[x y] cs IH]; simpl; [done|].
  destruct (grid_get g x y) as [t|e] eqn:Hget.
  - destruct (collect_floor g cs) as [rest|e]; [done|]. congruence.
  - apply grid_get_raise in Hget as ->. done.
Qed.

Section Fuel.
Context `{RandomGen}.
Variable config : Config.t.

Lemma fuel_safe_randint a b : fuel_safe (randint a b).
Proof.
  intros g. unfold randint. destruct (b <? a); [done|].
  by destruct (randbelow _ g).
Qed.

Lemma fuel_safe_random : fuel_safe random.
Proof. by intros g. Qed.

Lemma fuel_safe_choice_index n : fuel_safe (choice_index n).
Proof.
  intros g. unfold choice_index. destruct n; [done|].
  by destruct (randbelow _ g).
Qed.

Lemma fuel_safe_choice {A} (l : list A) : fuel_safe (choice l).
Proof.
  apply fuel_safe_bind; [apply fuel_safe_choice_index|]. intros i.
  destruct (l !! i); [apply fuel_safe_ret | by apply fuel_safe_raise].
Qed.

Lemma fuel_safe_sample_pool {A} k (pool : list A) n :
  fuel_safe (sample_pool k pool n).
Proof.
  revert pool n. induction k as [|k IH]; simpl; intros pool n.
  - apply fuel_safe_ret.
  - apply fuel_safe_bind; [apply fuel_safe_choice_index|]. intros j.
    destruct (pool !! j); [|by apply fuel_safe_raise].
    destruct (pool !! (n - 1)%nat); [|by apply fuel_safe_raise].
    apply fuel_safe_bind; [apply IH|]. intros rest. apply fuel_safe_ret.
Qed.

Lemma fuel_safe_sample {A} (population : list A) k :
  fuel_safe (sample population k).
Proof.
  unfold sample. destruct (_ || _); [by apply fuel_safe_raise|].
  apply fuel_safe_sample_pool.
Qed.

Lemma fuel_safe_lift_rand {A} (m : Rand A) :
  fuel_safe m -> fuel_safe (lift_rand m).
Proof.
  intros Hm s. unfold lift_rand. specialize (Hm (Self.rand s)).
  destruct (m (Self.rand s)) as [[a g]|e]; [done | congruence].
Qed.

Lemma fuel_safe_update_grid f :
  (forall g, f g <> Raise OutOfFuel) -> fuel_safe (update_grid f).
Proof.
  intros Hf s. unfold update_grid. specialize (Hf (Self.grid s)).
  destruct (f (Self.grid s)); [done | congruence].
Qed.

Lemma fuel_safe_room_at i : fuel_safe (room_at i).
Proof. intros s. unfold room_at. by destruct (Self.rooms s !! i). Qed.

Lemma fuel_safe_append_connection_at i c :
  fuel_safe (append_connection_at i c).
Proof.
  intros s. unfold append_connection_at. by destruct (Self.rooms s !! i).
Qed.

Lemma fuel_safe__carve_corridor r1 r2 :
  fuel_safe (_carve_corridor config r1 r2).
Proof.
  unfold _carve_corridor.
  apply fuel_safe_bind; [apply fuel_safe_lift_rand, fuel_safe_random|].
  intros roll. destruct (Qltb roll _);
    (apply fuel_safe_bind; [|intros ?]);
    apply fuel_safe_update_grid; intros g; apply set_tiles_fuel.
Qed.

(** Each round removes the chosen room from [unconnected]. *)
Lemma set_remove_length u l l' :
  set_remove u l = Ok l' -> (length l' < length l)%nat.
Proof.
  unfold set_remove. case_decide as Hu; [|done]. intros [= <-].
  induction l as [|v l IH]; [by apply elem_of_nil in Hu|].
  simpl. destruct (Nat.eqb v u) eqn:Hvu; simpl.
  - pose proof (List.filter_length_le (fun v => negb (Nat.eqb v u)) l). lia.
  - apply Nat.eqb_neq in Hvu.
    apply elem_of_cons in Hu as [->|Hu]; [done|].
    specialize (IH Hu). lia.
Qed.

Lemma fuel_safe_mst_loop fuel connected unconnected :
  (length unconnected <= fuel)%nat ->
  fuel_safe (mst_loop config fuel connected unconnected).
Proof.
  revert connected unconnected.
  induction fuel as [|fuel IH]; intros C U Hfuel;
    (destruct U as [|u0 U0]; simpl; [apply fuel_safe_ret|]).
  - simpl in Hfuel. lia.
  - apply fuel_safe_bind; [apply fuel_safe_get_state|]. intros s.
    destruct (scan_pairs _ _ _ _) as [[bd [c u]]|e] eqn:Hscan.
    + apply fuel_safe_bind; [apply fuel_safe_room_at|]. intros rc.
      apply fuel_safe_bind; [apply fuel_safe_room_at|]. intros ru.
      apply fuel_safe_bind; [apply fuel_safe__carve_corridor|]. intros ?.
      apply fuel_safe_bind; [apply fuel_safe_append_connection_at|].
      intros ?.
      apply fuel_safe_bind; [apply fuel_safe_append_connection_at|].
      intros ?.
      destruct (set_remove u (u0 :: U0)) as [U'|e] eqn:Hrem.
      * apply IH. apply set_remove_length in Hrem. simpl in *. lia.
      * apply fuel_safe_raise. unfold set_remove in Hrem.
        case_decide; [done|]. by injection Hrem as <-.
    + apply fuel_safe_raise. intros ->. clear -Hscan.
      revert Hscan. generalize (@None Z) (0%nat, 1%nat).
      induction (pairs_of C (u0 :: U0)) as [|[c u] pairs IHp]; simpl;
        intros bd bp; [done|].
      repeat (case_match; try discriminate); apply IHp.
Qed.

(** The connectivity builder never runs out of fuel. *)
Lemma fuel_safe__connect_rooms : fuel_safe (_connect_rooms config).
Proof.
  unfold _connect_rooms.
  apply fuel_safe_bind; [apply fuel_safe_get_state|]. intros s.
  destruct (_ <? 2)%nat; [apply fuel_safe_ret|].
  apply fuel_safe_bind.
  { apply fuel_safe_mst_loop. by rewrite length_seq. }
  intros ?.
  apply fuel_safe_bind; [apply fuel_safe_lift_rand, fuel_safe_randint|].
  intros n. apply fuel_safe_repeat_se. unfold extra_connection.
  apply fuel_safe_bind; [apply fuel_safe_get_state|]. intros s1.
  apply fuel_safe_bind; [apply fuel_safe_lift_rand, fuel_safe_choice_index|].
  intros i1. apply fuel_safe_bind; [apply fuel_safe_room_at|]. intros r1.
  apply fuel_safe_bind; [apply fuel_safe_lift_rand, fuel_safe_choice_index|].
  intros i2. apply fuel_safe_bind; [apply fuel_safe_room_at|]. intros r2.
  destruct (_ && _); [|apply fuel_safe_ret].
  apply fuel_safe_bind; [apply fuel_safe__carve_corridor|]. intros ?.
  apply fuel_safe_bind; apply fuel_safe_append_connection_at
    || (intros ?; apply fuel_safe_append_connection_at).
Qed.

Ltac fuel_safe_step :=
  first
    [ apply fuel_safe_ret
    | apply fuel_safe_get_state
    | apply fuel_safe_randint
    | apply fuel_safe_random
    | apply fuel_safe_choice
    | apply fuel_safe_choice_index
    | apply fuel_safe_sample
    | apply fuel_safe_room_at
    | apply fuel_safe_append_connection_at
    | apply fuel_safe__carve_corridor
    | apply fuel_safe__connect_rooms
    | apply fuel_safe_lift_rand
    | apply fuel_safe_replicate_se
    | apply fuel_safe_map_se; intros ?
    | apply fuel_safe_update_grid; intros ?; apply set_tiles_fuel
    | apply fuel_safe_raise; discriminate
    | apply fuel_safe_bind; [|intros ?]
    | match goal with
      | |- fuel_safe (if ?b then _ else _) => destruct b
      | |- fuel_safe (match ?x with _ => _ end) => destruct x
      end
    | by intros ? ].

Lemma fuel_safe_place_loop n num_rooms :
  fuel_safe (place_loop config n num_rooms).
Proof.
  induction n as [|n IH]; simpl; [apply fuel_safe_ret|].
  apply fuel_safe_bind; [apply fuel_safe_get_state|]. intros s.
  destruct (num_rooms <=? _); [apply fuel_safe_ret|].
  apply fuel_safe_bind; [|by intros ?].
  unfold place_trial, _carve_room. repeat fuel_safe_step.
Qed.

Lemma fuel_safe__generate_loot room bonus boss :
  fuel_safe (_generate_loot config room bonus boss).
Proof. unfold _generate_loot. repeat fuel_safe_step. Qed.

Lemma fuel_safe_try_positions width height ps :
  fuel_safe (try_positions config width height ps).
Proof.
  induction ps as [|p ps IH]; simpl; [apply fuel_safe_ret|].
  apply fuel_safe_bind; [apply fuel_safe_get_state|]. intros s.
  destruct (secret_fits _ _ _ _ _); [|done].
  apply fuel_safe_bind; [|intros ?; apply fuel_safe_ret].
  unfold place_secret, _carve_room.
  repeat (fuel_safe_step || apply fuel_safe__generate_loot).
Qed.

Lemma fuel_safe_secret_attempts n : fuel_safe (secret_attempts config n).
Proof.
  induction n as [|n IH]; simpl; [apply fuel_safe_ret|].
  apply fuel_safe_bind; [|intros []; [apply fuel_safe_ret | done]].
  unfold secret_attempt.
  repeat (apply fuel_safe_try_positions || fuel_safe_step).
Qed.

Lemma fuel_safe_generate seed : fuel_safe (generate config seed).
Proof.
  unfold generate, build_layout.
  apply fuel_safe_bind; [|intros ?].
  { apply fuel_safe_bind; [by apply fuel_safe_update_grid|]. intros ?.
    apply fuel_safe_bind.
    { unfold _generate_rooms_bsp. fuel_safe_step; [repeat fuel_safe_step|].
      apply fuel_safe_place_loop. }
    intros ?. apply fuel_safe_bind; [apply fuel_safe__connect_rooms|].
    intros ?. apply fuel_safe_bind.
    { unfold _place_special_rooms. repeat fuel_safe_step. }
    intros ?. unfold _populate_rooms.
    unfold populate_room, populate_boss, _generate_encounters,
      _generate_puzzle.
    repeat (fuel_safe_step || apply fuel_safe__generate_loot). }
  apply fuel_safe_bind; [|intros ?].
  { unfold _add_traps.
    apply fuel_safe_bind; [apply fuel_safe_get_state|]. intros s.
    destruct (collect_floor _ _) as [floor_tiles|e] eqn:Hfl.
    - repeat fuel_safe_step.
    - apply fuel_safe_raise. intros ->. by apply collect_floor_fuel in Hfl. }
  apply fuel_safe_bind; [|intros ?; repeat fuel_safe_step].
  unfold _add_secret_rooms.
  apply fuel_safe_bind; [repeat fuel_safe_step|]. intros roll.
  destruct (Qltb _ roll); [apply fuel_safe_ret|].
  apply fuel_safe_secret_attempts.
Qed.

(** No run of the generator ends with the embedding out of fuel. *)
Theorem run_generator_fuel (seed : option Z) (global : rng) :
  run_generator config seed global <> Raise OutOfFuel.
Proof.
  unfold run_generator.
  destruct (DungeonGenerator_init seed global) as [[sd s0]|e] eqn:Hinit.
  - pose proof (fuel_safe_generate sd s0) as Hgen.
    destruct (generate config sd s0) as [[d s]|e]; [done | congruence].
  - intros [= ->]. unfold DungeonGenerator_init in Hinit.
    pose proof (fuel_safe_randint 0 (2 ^ 32) global) as Hdraw.
    destruct (randint 0 (2 ^ 32) global) as [[v g]|e];
      [|assert (e <> OutOfFuel) by congruence];
      destruct seed as [n|]; try destruct (n =? 0); congruence.
Qed.
End Fuel.

(** * The generated dungeons *)

(** ** The exported catalog *)

Definition dict_node (r : RoomDict.t) : node :=
  (RoomDict.id r, RoomDict.connections r).

(** The room at position [i] is the one room of the catalog with the role
    tag [ty]. *)
Definition only_room_of_type (ty : string) (rooms : list RoomDict.t) (i : nat)
  : Prop :=
  (i < length rooms)%nat /\
  forall j r, rooms !! j = Some r -> (RoomDict.type r = ty <-> j = i).

Lemma export_lookup (rs : list Room.t) i rd :
  map export_room rs !! i = Some rd ->
  exists r, rs !! i = Some r /\ rd = export_room r.
Proof.
  change (map export_room rs) with (export_room <$> rs).
  rewrite list_lookup_fmap. destruct (rs !! i) as [r|]; [|done].
  intros [= <-]. eauto.
Qed.

Lemma export_elem (rs : list Room.t) rd :
  rd ∈ map export_room rs -> exists r, r ∈ rs /\ rd = export_room r.
Proof.
  intros Hrd. apply list_elem_of_fmap in Hrd as (r & -> & Hr). eauto.
Qed.

Lemma export_nodes (rs : list Room.t) :
  map dict_node (map export_room rs) = map room_node rs.
Proof. rewrite map_map. reflexivity. Qed.

Lemma RoomType_value_eq t u : RoomType_value t = RoomType_value u <-> t = u.
Proof. split; [apply RoomType_value_inj | by intros ->]. Qed.

(** ** Concrete runs

    A cave of four rooms of size 4 on a 30 x 30 grid, generated from a
    scripted generator: the rooms land at (2,2), (8,2), (2,14) and (16,16),
    the second one becomes a combat room, and the trap pass turns a tenth
    of the floor into traps. *)

Definition cave_monsters : list dict :=
  [ [("id", VStr "cave_spider"); ("level", VInt 20)] ]%string.

Definition cave_loot : list dict :=
  [ [("id", VStr "gold_coins"); ("max_quantity", VInt 500)] ]%string.

Definition cave_boss : dict :=
  [("id", VStr "cave_horror"); ("level", VInt 80)]%string.

Definition cave_config_with (boss : option dict) : Config.t :=
  Config.mk "d" "cave" "novice" 4 4 4 4 30 30
            (4 # 10) (15 # 100) (1 # 10) (5 # 100) (1 # 10)
            [] cave_monsters cave_loot boss.

Definition cave_config : Config.t := cave_config_with (Some cave_boss).

Definition cave_tape : list Z :=
  [ 0;  0; 0; 0; 0;  0; 0; 6; 0;  0; 0; 0; 12;  0; 0; 14; 14;
    100; 700; 100;  0; 1; 3; 900;
    100; 0; 0; 1; 1; 900;
    950; 950 ].

Definition cave_gen : RandomGen := TapeGen (fun _ => cave_tape).

Definition no_dungeon : Output.t :=
  Output.mk {| md_name := ""; md_theme := ""; md_difficulty := "";
               md_seed := 0; md_width := 0; md_height := 0 |} [] [] [].

Definition dungeon_of (r : result Output.t) : Output.t :=
  match r with
  | Ok d => d
  | Raise _ => no_dungeon
  end.

Definition cave_dungeon : Output.t :=
  Eval vm_compute in
    dungeon_of (@run_generator cave_gen cave_config (Some 42) []).

Lemma cave_run :
  @run_generator cave_gen cave_config (Some 42) [] = Ok cave_dungeon.
Proof. vm_compute. reflexivity. Qed.

(** The same cave without a boss descriptor. *)
Definition bossless_dungeon : Output.t :=
  Eval vm_compute in
    dungeon_of (@run_generator cave_gen (cave_config_with None) (Some 42) []).

Lemma bossless_run :
  @run_generator cave_gen (cave_config_with None) (Some 42) []
  = Ok bossless_dungeon.
Proof. vm_compute. reflexivity. Qed.

(** ** Room separation *)

(** C1, amended: in every generated dungeon, for every two distinct rooms
    of the final catalog (a secret room included), the rectangle of one
    room grown by the 2-tile padding on all sides shares no tile with the
    rectangle of the other room: the rooms lie at least two tiles apart. *)
Theorem rooms_two_tiles_apart `{RandomGen} (config : Config.t)
  (seed : option Z) (global : rng) (d : Output.t) :
  run_generator config seed global = Ok d ->
  forall i j a b, i <> j ->
    Output.rooms d !! i = Some a -> Output.rooms d !! j = Some b ->
    rect_intersects (expand 2 (RoomDict.bounds a)) (RoomDict.bounds b)
    = false.
Proof.
  intros Hrun i j a b Hij Ha Hb.
  apply run_generator_inv in Hrun
    as (sd & s0 & s1 & s2 & s3 & _ & _ & Hbuilt & Htraps & Hsecret & ->).
  destruct (final_rooms config s1 s2 s3 Hbuilt Htraps Hsecret) as (Hapart & _).
  simpl in Ha, Hb.
  apply export_lookup in Ha as (ra & Ha & ->).
  apply export_lookup in Hb as (rb & Hb & ->).
  simpl. apply apart_iff. apply (Hapart i j); [done|..];
    change (map room_rect (Self.rooms s3)) with (room_rect <$> Self.rooms s3);
    by rewrite list_lookup_fmap, ?Ha, ?Hb.
Qed.

Lemma rooms_two_tiles_apart_witness :
  exists a b,
    Output.rooms cave_dungeon !! 0%nat = Some a /\
    Output.rooms cave_dungeon !! 1%nat = Some b /\
    rect_intersects (expand 2 (RoomDict.bounds a)) (RoomDict.bounds b)
    = false.
Proof.
  eexists _, _. split; [reflexivity|]. split; [reflexivity|].
  apply (@rooms_two_tiles_apart cave_gen cave_config (Some 42) []
           cave_dungeon cave_run 0%nat 1%nat).
  - discriminate.
  - reflexivity.
  - reflexivity.
Defined.

(** C1 as claimed fails: the first two rooms of the cave, at x = 2..5 and
    x = 8..11, passed the overlap test, yet their rectangles grown by two
    tiles on all sides share the tiles of the columns 6 and 7. *)
Lemma padded_rectangles_can_intersect :
  exists d a b,
    @run_generator cave_gen cave_config (Some 42) [] = Ok d /\
    Output.rooms d !! 0%nat = Some a /\ Output.rooms d !! 1%nat = Some b /\
    rect_intersects (expand 2 (RoomDict.bounds a))
                    (expand 2 (RoomDict.bounds b)) = true.
Proof.
  eexists cave_dungeon, _, _.
  split; [exact cave_run|]. split; [reflexivity|]. split; reflexivity.
Qed.

(** ** Connectivity *)

(** C2: in every dungeon generated from a configuration whose room sizes
    are not negative, the graph of the rooms of the final catalog and their
    recorded connections is connected. *)
Theorem rooms_connected `{RandomGen} (config : Config.t)
  (seed : option Z) (global : rng) (d : Output.t) :
  run_generator config seed global = Ok d ->
  0 <= Config.min_room_size config ->
  connected_graph (map dict_node (Output.rooms d)).
Proof.
  intros Hrun Hmin.
  apply run_generator_inv in Hrun
    as (sd & s0 & s1 & s2 & s3 & _ & _ & Hbuilt & Htraps & Hsecret & ->).
  destruct (final_rooms config s1 s2 s3 Hbuilt Htraps Hsecret)
    as (_ & _ & _ & Hsame).
  simpl. rewrite export_nodes, (Hsame Hmin).
  destruct Hbuilt. by apply all_reached_connected.
Qed.

Lemma rooms_connected_witness :
  connected_graph (map dict_node (Output.rooms cave_dungeon)).
Proof.
  apply (@rooms_connected cave_gen cave_config (Some 42) [] cave_dungeon).
  - exact cave_run.
  - vm_compute. discriminate.
Defined.

(** The precondition on the room sizes cannot be dropped: rooms of
    negative size do not block the positions next to them, so a secret
    room can join the catalog, and it has no connection. *)
Definition negative_size_config : Config.t :=
  Config.mk "d" "cave" "novice" 4 4 (-3) (-3) 30 30
            (4 # 10) (15 # 100) (1 # 10) (5 # 100) (0 # 1)
            [] cave_monsters cave_loot (Some cave_boss).

Definition negative_size_gen : RandomGen :=
  TapeGen (fun _ =>
    [ 0;  0; 0; 3; 3;  0; 0; 13; 3;  0; 0; 3; 13;  0; 0; 13; 13;
      100; 100; 100;  0; 0; 0;
      900; 900; 900; 900;
      0; 0; 0; 0;  0; 0; 0; 0 ]).

Definition negative_size_dungeon : Output.t :=
  Eval vm_compute in
    dungeon_of (@run_generator negative_size_gen negative_size_config
                               (Some 42) []).

Remark negative_sizes_isolate_secret_room :
  @run_generator negative_size_gen negative_size_config (Some 42) []
  = Ok negative_size_dungeon /\
  map RoomDict.type (Output.rooms negative_size_dungeon)
  = ["entrance"; "safe"; "safe"; "boss"; "secret"]%string /\
  ~ connected_graph (map dict_node (Output.rooms negative_size_dungeon)).
Proof.
  split; [vm_compute; reflexivity|]. split; [reflexivity|].
  intros Hconn.
  specialize (Hconn (0%nat, [1%nat; 2%nat]) (4%nat, [])).
  simpl in Hconn.
  assert (rtc (edge (map dict_node (Output.rooms negative_size_dungeon)))
              0%nat 4%nat) as Hpath.
  { apply Hconn; [by left|]. do 4 right. by left. }
  apply rtc_inv_r in Hpath as [?|(y & _ & n & Hn & Hedge)]; [done|].
  simpl in Hn.
  repeat (apply elem_of_cons in Hn as [->|Hn]); simpl in Hedge;
    try (by apply elem_of_nil in Hn);
    destruct Hedge as [[_ H4]|[? Hy]]; try discriminate;
    repeat (apply elem_of_cons in H4 as [?|H4]; [discriminate|]);
    try (by apply elem_of_nil in H4); try (by apply elem_of_nil in Hy).
Qed.

(** ** Reproducibility *)

(** A seed other than zero fixes the whole output, whatever the state of
    the global generator before the run. *)
Lemma nonzero_seed_reproducible `{RandomGen} (config : Config.t) (seed : Z)
  (global1 global2 : rng) :
  seed <> 0 ->
  run_generator config (Some seed) global1
  = run_generator config (Some seed) global2.
Proof.
  intros Hseed. unfold run_generator, DungeonGenerator_init.
  apply Z.eqb_neq in Hseed. by rewrite Hseed.
Qed.

(** The seed 0 is taken for no seed at all. *)
Lemma seed_zero_is_no_seed `{RandomGen} (config : Config.t) (global : rng) :
  run_generator config (Some 0) global = run_generator config None global.
Proof. reflexivity. Qed.

(** C3 fails for the seed 0: [seed or random.randint(0, 2**32)] takes the
    supplied 0 as no seed at all and draws one from the global generator,
    so two runs with seed 0 record different seeds. *)
Theorem seed_zero_not_reproducible :
  exists d1 d2,
    @run_generator cave_gen cave_config (Some 0) [5] = Ok d1 /\
    @run_generator cave_gen cave_config (Some 0) [7] = Ok d2 /\
    md_seed (Output.metadata d1) = 5 /\
    md_seed (Output.metadata d2) = 7 /\
    d1 <> d2.
Proof.
  eexists _, _. split; [vm_compute; reflexivity|].
  split; [vm_compute; reflexivity|].
  split; [reflexivity|]. split; [reflexivity|]. discriminate.
Qed.

(** ** The connectivity builder on two or three rooms *)

Definition two_room_config : Config.t :=
  Config.mk "d" "cave" "novice" 2 2 4 4 30 30
            (4 # 10) (15 # 100) (1 # 10) (5 # 100) (1 # 10)
            [] cave_monsters cave_loot (Some cave_boss).

(** Whenever two or three rooms were placed, [_connect_rooms] does not
    return: after the tree is built, [len(self.rooms) // 4] is 0 and
    [random.randint(1, 0)] raises. *)
Lemma connect_rooms_small_raises `{RandomGen} (config : Config.t)
  (s : Self.t) :
  (2 <= length (Self.rooms s) <= 3)%nat ->
  exists e, _connect_rooms config s = Raise e.
Proof.
  intros Hn. destruct (_connect_rooms config s) as [[[] s']|e] eqn:Hrun.
  - by apply _connect_rooms_small in Hrun.
  - eauto.
Qed.

(** Hence no dungeon is generated with two or three rooms, when room
    sizes are not negative. *)
Lemma no_dungeon_of_two_or_three_rooms `{RandomGen} (config : Config.t)
  (seed : option Z) (global : rng) (d : Output.t) :
  run_generator config seed global = Ok d ->
  0 <= Config.min_room_size config ->
  ~ (2 <= length (Output.rooms d) <= 3)%nat.
Proof.
  intros Hrun Hmin.
  apply run_generator_inv in Hrun
    as (sd & s0 & s1 & s2 & s3 & _ & _ & Hbuilt & Htraps & Hsecret & ->).
  destruct (final_rooms config s1 s2 s3 Hbuilt Htraps Hsecret)
    as (_ & _ & _ & Hsame).
  simpl. rewrite (Hsame Hmin), length_map. by destruct Hbuilt.
Qed.

(** C4 fails on a run that places two rooms. *)
Theorem two_rooms_connect_raises :
  @run_generator cave_gen two_room_config (Some 42) [] = Raise ValueError.
Proof. vm_compute. reflexivity. Qed.

(** ** The secret-room pass on an empty catalog *)

Definition empty_config : Config.t :=
  Config.mk "d" "cave" "novice" 0 0 4 4 30 30
            (4 # 10) (15 # 100) (1 # 10) (1 # 1) (1 # 10)
            [] cave_monsters cave_loot (Some cave_boss).

(** With no room in the catalog, the secret-room pass raises as soon as
    its roll does not exceed [secret_room_chance]: [random.choice] is
    applied to the empty list. *)
Lemma secret_pass_empty_raises `{RandomGen} (config : Config.t) (s : Self.t) :
  Self.rooms s = [] ->
  Qltb (Config.secret_room_chance config) (fst (random_unit (Self.rand s)))
  = false ->
  _add_secret_rooms config s = Raise IndexError.
Proof.
  intros Hrooms Hroll. unfold _add_secret_rooms, bind, lift_rand, random.
  destruct (random_unit (Self.rand s)) as [roll g]. simpl in *.
  rewrite Hroll. simpl. unfold bind, secret_attempt, bind, get_state.
  simpl. rewrite Hrooms. reflexivity.
Qed.

Section EmptyCatalog.
Context `{RandomGen}.
Variable config : Config.t.
Hypothesis Hmin : Config.min_rooms config = 0.
Hypothesis Hmax : Config.max_rooms config = 0.

Lemma randint_0_0 g : exists g', randint 0 0 g = Ok (0, g').
Proof.
  unfold randint. change (0 <? 0) with false. change (0 - 0 + 1) with 1.
  cbv iota.
  pose proof (randbelow_range 1 g ltac:(lia)) as Hr.
  destruct (randbelow 1 g) as [r g']. simpl in Hr.
  exists g'. replace r with 0 by lia. reflexivity.
Qed.

Lemma collect_floor_walls g cs :
  (forall c, c ∈ cs -> grid_get g (fst c) (snd c) = Ok WALL) ->
  collect_floor g cs = Ok [].
Proof.
  induction cs as [|[x y] cs IH]; simpl; intros Hcs; [done|].
  pose proof (Hcs (x, y) ltac:(left)) as Hxy. simpl in Hxy.
  rewrite Hxy, IH; [done|].
  intros c Hc. apply Hcs. by right.
Qed.

Lemma collect_floor_init_grid :
  collect_floor (init_grid config) (grid_cells config) = Ok [].
Proof.
  apply collect_floor_walls. intros [x y] Hc.
  unfold grid_cells, cells in Hc. rewrite !range_0 in Hc.
  apply list_elem_of_In, in_flat_map in Hc as (y' & Hy & Hc).
  apply in_map_iff in Hc as (x' & [= <- <-] & Hx).
  apply in_map_iff in Hy as (j & <- & Hj).
  apply in_map_iff in Hx as (i & <- & Hi).
  apply in_seq in Hi, Hj. simpl.
  apply (grid_get_nat _ (replicate (Z.to_nat (Config.width config)) WALL));
    apply lookup_replicate_2; lia.
Qed.

(** Asked for no room, the phases before the trap pass leave the catalog
    empty and the grid all wall. *)
Lemma build_layout_empty s :
  Self.rooms s = [] ->
  exists g, build_layout config s
            = Ok (tt, Self.mk _ [] (init_grid config) (Self.next_room_id s) g).
Proof.
  intros Hrooms. unfold build_layout, _generate_rooms_bsp.
  unfold bind at 1. simpl.
  unfold bind at 1. unfold bind at 1. unfold lift_rand at 1. simpl.
  rewrite Hmin, Hmax.
  destruct (randint_0_0 (Self.rand s)) as [g ->]. simpl.
  rewrite Hrooms.
  unfold bind at 1. unfold _connect_rooms at 1, bind at 1. simpl.
  unfold bind at 1. unfold _place_special_rooms at 1, bind at 1. simpl.
  unfold _populate_rooms, bind, lift_rand. simpl. eauto.
Qed.

Lemma num_traps_nil : num_traps config [] = 0.
Proof.
  unfold num_traps, py_int. destruct (Config.trap_density config) as [n dd].
  reflexivity.
Qed.

Lemma _add_traps_empty rooms next g :
  _add_traps config (Self.mk _ rooms (init_grid config) next g)
  = Ok (tt, Self.mk _ rooms (init_grid config) next g).
Proof.
  unfold _add_traps, bind, get_state. cbn [Self.grid].
  rewrite collect_floor_init_grid, num_traps_nil. reflexivity.
Qed.

Lemma generate_empty seed s :
  Self.rooms s = [] ->
  exists g,
    generate config seed s
    = bind (_add_secret_rooms config)
           (fun _ => s' <- get_state ;; ret (_export config seed s'))
           (Self.mk _ [] (init_grid config) (Self.next_room_id s) g).
Proof.
  intros Hrooms. unfold generate.
  destruct (build_layout_empty s Hrooms) as [g Hlayout]. exists g.
  rewrite (bind_ok _ _ _ _ _ Hlayout).
  by rewrite (bind_ok _ _ _ _ _ (_add_traps_empty _ _ _)).
Qed.
End EmptyCatalog.

(** C5 fails: for a configuration that asks for no room and whose
    [secret_room_chance] is 1 (or more), every run, whatever the seed,
    reaches the secret-room pass with an empty catalog and ends there with
    [IndexError]. *)
Theorem no_rooms_always_raises `{RandomGen} (config : Config.t)
  (seed : option Z) (global : rng) :
  Config.min_rooms config = 0 -> Config.max_rooms config = 0 ->
  (1 <= Config.secret_room_chance config)%Q ->
  run_generator config seed global = Raise IndexError.
Proof.
  intros Hmin Hmax Hchance. unfold run_generator.
  assert (exists sd, DungeonGenerator_init seed global
                     = Ok (sd, Self.mk _ [] [] 0%nat (seed_rng sd)))
    as [sd ->].
  { unfold DungeonGenerator_init.
    assert (exists v g, randint 0 (2 ^ 32) global = Ok (v, g)) as (v & g & ->).
    { unfold randint. change (2 ^ 32 <? 0) with false. cbv iota.
      destruct (randbelow _ global); eauto. }
    destruct seed as [n|]; [destruct (n =? 0)|]; eauto. }
  destruct (generate_empty config Hmin Hmax sd
              (Self.mk _ [] [] 0%nat (seed_rng sd)) eq_refl) as [g ->].
  unfold bind at 1. rewrite secret_pass_empty_raises; [done..|].
  cbn [Self.rand].
  destruct (random_unit_range g) as [_ Hlt].
  unfold Qltb. apply negb_false_iff, Qle_bool_iff.
  apply Qlt_le_weak. eapply Qlt_le_trans; eauto.
Qed.

Lemma no_rooms_secret_pass_raises :
  @run_generator cave_gen empty_config (Some 42) [] = Raise IndexError.
Proof.
  apply (@no_rooms_always_raises cave_gen empty_config (Some 42) []).
  - reflexivity.
  - reflexivity.
  - vm_compute. discriminate.
Defined.

(** ** Traps *)



(** ** Entrance and boss *)

(** C7: in every dungeon generated from a configuration whose room sizes
    are not negative, a catalog of at least two rooms has exactly one
    entrance and exactly one boss room, and they are different rooms; a
    catalog of one room has that room as its boss room and no entrance. *)
Theorem one_entrance_one_boss `{RandomGen} (config : Config.t)
  (seed : option Z) (global : rng) (d : Output.t) :
  run_generator config seed global = Ok d ->
  0 <= Config.min_room_size config ->
  ((2 <= length (Output.rooms d))%nat ->
   exists ie ib,
     ie <> ib /\
     only_room_of_type "entrance" (Output.rooms d) ie /\
     only_room_of_type "boss" (Output.rooms d) ib) /\
  (length (Output.rooms d) = 1%nat ->
   only_room_of_type "boss" (Output.rooms d) 0 /\
   forall r, r ∈ Output.rooms d -> RoomDict.type r <> "entrance"%string).
Proof.
  intros Hrun Hmin.
  apply run_generator_inv in Hrun
    as (sd & s0 & s1 & s2 & s3 & _ & _ & Hbuilt & Htraps & Hsecret & ->).
  destruct (final_rooms config s1 s2 s3 Hbuilt Htraps Hsecret)
    as (_ & _ & _ & Hsame).
  simpl. rewrite (Hsame Hmin), length_map. destruct Hbuilt.
  assert (forall ty (t : RoomType),
             ty = RoomType_value t ->
             forall i,
             (i < length (Self.rooms s1))%nat ->
             (forall j r, Self.rooms s1 !! j = Some r ->
                          Room.room_type r = t <-> j = i) ->
             only_room_of_type ty (map export_room (Self.rooms s1)) i)
    as Honly.
  { intros ty t -> i Hi Hiff. split; [by rewrite length_map|].
    intros j rd Hj. apply export_lookup in Hj as (r & Hr & ->). simpl.
    rewrite RoomType_value_eq. by apply Hiff. }
  split.
  - intros Hlen.
    destruct built_roles0 as [Hnil|(ie & ib & (Hie & Hib & Hroles) & Hne)];
      [rewrite Hnil in Hlen; simpl in Hlen; lia|].
    specialize (Hne Hmin Hlen). exists ie, ib. split; [done|]. split.
    + apply (Honly _ ENTRANCE); [done..|].
      intros j r Hr. destruct (Hroles j r Hr) as [He _]. tauto.
    + apply (Honly _ BOSS); [done..|].
      intros j r Hr. by destruct (Hroles j r Hr) as [_ Hb].
  - intros Hlen.
    destruct built_roles0 as [Hnil|(ie & ib & (Hie & Hib & Hroles) & _)];
      [rewrite Hnil in Hlen; simpl in Hlen; lia|].
    assert (ie = 0%nat) as -> by lia. assert (ib = 0%nat) as -> by lia.
    split.
    + apply (Honly _ BOSS); [done|lia|].
      intros j r Hr. by destruct (Hroles j r Hr) as [_ Hb].
    + intros rd Hrd. apply export_elem in Hrd as (r & Hr & ->). simpl.
      change "entrance"%string with (RoomType_value ENTRANCE).
      rewrite RoomType_value_eq.
      apply list_elem_of_lookup in Hr as [j Hj].
      destruct (Hroles j r Hj) as [He _]. tauto.
Qed.

Lemma one_entrance_one_boss_witness :
  exists ie ib,
    ie <> ib /\
    only_room_of_type "entrance" (Output.rooms cave_dungeon) ie /\
    only_room_of_type "boss" (Output.rooms cave_dungeon) ib.
Proof.
  apply (@one_entrance_one_boss cave_gen cave_config (Some 42) []).
  - exact cave_run.
  - vm_compute. discriminate.
  - vm_compute. lia.
Defined.

(** A run that places a single room: it ends as the boss room, and the
    catalog has no entrance. *)
Definition single_room_config : Config.t :=
  Config.mk "d" "cave" "novice" 1 1 4 4 30 30
            (4 # 10) (15 # 100) (1 # 10) (5 # 100) (1 # 10)
            [] cave_monsters cave_loot (Some cave_boss).

Example single_room_is_boss :
  exists d,
    @run_generator cave_gen single_room_config (Some 42) [] = Ok d /\
    map RoomDict.type (Output.rooms d) = ["boss"%string].
Proof. eexists. split; [vm_compute; reflexivity | reflexivity]. Qed.

(** ** The boss encounter *)

(** C8, amended: in every generated dungeon, the encounter list of every
    room with role boss is the one [_generate_boss_encounter] builds: a
    single boss encounter taken from the boss descriptor (with its defaults
    for a missing id, level or mechanics) when a non-empty descriptor is
    supplied, and the empty list otherwise. *)
Theorem boss_room_encounters `{RandomGen} (config : Config.t)
  (seed : option Z) (global : rng) (d : Output.t) :
  run_generator config seed global = Ok d ->
  forall r, r ∈ Output.rooms d -> RoomDict.type r = "boss"%string ->
    RoomDict.encounters r =
      match Config.boss_config config with
      | Some ((_ :: _) as boss) =>
          [BossEncounter (dict_get boss "id" (VStr "dungeon_boss"))
                         (dict_get boss "level" (VInt 100))
                         (dict_get boss "mechanics" (VList []))]
      | _ => []
      end.
Proof.
  intros Hrun rd Hrd Hty.
  apply run_generator_inv in Hrun
    as (sd & s0 & s1 & s2 & s3 & _ & _ & Hbuilt & Htraps & Hsecret & ->).
  destruct (final_rooms config s1 s2 s3 Hbuilt Htraps Hsecret)
    as (_ & _ & Hboss & _).
  simpl in Hrd. apply export_elem in Hrd as (r & Hr & ->). simpl in *.
  change "boss"%string with (RoomType_value BOSS) in Hty.
  apply RoomType_value_eq in Hty.
  apply (proj1 (Forall_forall _ _) Hboss r Hr Hty).
Qed.

Lemma boss_room_encounters_witness :
  exists r,
    Output.rooms cave_dungeon !! 3%nat = Some r /\
    RoomDict.type r = "boss"%string /\
    RoomDict.encounters r =
      [BossEncounter (VStr "cave_horror") (VInt 80) (VList [])].
Proof.
  eexists. split; [reflexivity|]. split; [reflexivity|].
  apply (@boss_room_encounters cave_gen cave_config (Some 42) []
           cave_dungeon cave_run).
  - apply (list_elem_of_lookup_2 _ 3%nat). reflexivity.
  - reflexivity.
Defined.

(** C8 as claimed fails: without a boss descriptor the boss room of the
    cave has no encounter at all. *)
Lemma boss_room_without_descriptor :
  exists d r,
    @run_generator cave_gen (cave_config_with None) (Some 42) [] = Ok d /\
    Output.rooms d !! 3%nat = Some r /\
    RoomDict.type r = "boss"%string /\ RoomDict.encounters r = [].
Proof.
  eexists bossless_dungeon, _. split; [exact bossless_run|].
  split; [reflexivity|]. split; reflexivity.
Qed.

(** ** Encounter positions *)

(** C9: in every generated dungeon, the position of every encounter record
    lies in the interior of its room, the rectangle of the room shrunk by
    one tile on every side. *)
Theorem encounters_in_interior `{RandomGen} (config : Config.t)
  (seed : option Z) (global : rng) (d : Output.t) :
  run_generator config seed global = Ok d ->
  forall r e px py,
    r ∈ Output.rooms d -> e ∈ RoomDict.encounters r ->
    encounter_position e = Some (px, py) ->
    rx (RoomDict.bounds r) + 1 <= px
      <= rx (RoomDict.bounds r) + rw (RoomDict.bounds r) - 2 /\
    ry (RoomDict.bounds r) + 1 <= py
      <= ry (RoomDict.bounds r) + rh (RoomDict.bounds r) - 2.
Proof.
  intros Hrun rd e px py Hrd He Hpos.
  apply run_generator_inv in Hrun
    as (sd & s0 & s1 & s2 & s3 & _ & _ & Hbuilt & Htraps & Hsecret & ->).
  destruct (final_rooms config s1 s2 s3 Hbuilt Htraps Hsecret)
    as (_ & Henc & _).
  simpl in Hrd. apply export_elem in Hrd as (r & Hr & ->). simpl in *.
  pose proof (proj1 (Forall_forall _ _) Henc r Hr) as Hok.
  apply (proj1 (Forall_forall _ _) Hok e He px py Hpos).
Qed.

Lemma encounters_in_interior_witness :
  exists r e,
    Output.rooms cave_dungeon !! 1%nat = Some r /\
    RoomDict.encounters r !! 0%nat = Some e /\
    encounter_position e = Some (10, 4) /\
    rx (RoomDict.bounds r) + 1 <= 10
      <= rx (RoomDict.bounds r) + rw (RoomDict.bounds r) - 2 /\
    ry (RoomDict.bounds r) + 1 <= 4
      <= ry (RoomDict.bounds r) + rh (RoomDict.bounds r) - 2.
Proof.
  eexists _, _. split; [reflexivity|]. split; [reflexivity|].
  split; [reflexivity|].
  eapply (@encounters_in_interior cave_gen cave_config (Some 42) []
            cave_dungeon cave_run).
  - apply (list_elem_of_lookup_2 _ 1%nat). reflexivity.
  - apply (list_elem_of_lookup_2 _ 0%nat). reflexivity.
  - reflexivity.
Defined.

(** ** Tile tags *)

(** C10: in every generated dungeon, every tile of the exported grid is
    tagged wall, floor or trap; none of the seven other tags occurs. *)
Theorem grid_tags_wall_floor_trap `{RandomGen} (config : Config.t)
  (seed : option Z) (global : rng) (d : Output.t) :
  run_generator config seed global = Ok d ->
  forall row tag, row ∈ Output.grid d -> tag ∈ row ->
    (tag = "wall" \/ tag = "floor" \/ tag = "trap")%string /\
    ~ In tag ["door"; "locked_door"; "water"; "lava"; "pit"; "stairs_up";
              "stairs_down"]%string.
Proof.
  intros Hrun row tag Hrow Htag.
  apply run_generator_inv in Hrun
    as (sd & s0 & s1 & s2 & s3 & _ & _ & Hbuilt & Htraps & Hsecret & ->).
  destruct (final_grid config s1 s2 s3 Hbuilt Htraps Hsecret) as (Htiles & _).
  simpl in Hrow.
  apply list_elem_of_fmap in Hrow as (row0 & -> & Hrow0).
  apply list_elem_of_fmap in Htag as (t & -> & Ht).
  pose proof (proj1 (Forall_forall _ _) Htiles row0 Hrow0) as Hrow_ok.
  pose proof (proj1 (Forall_forall _ _) Hrow_ok t Ht) as [->|[->| ->]];
    simpl; (split; [tauto|]); intros Hin;
    repeat (destruct Hin as [Heq|Hin]; [discriminate Heq|]); done.
Qed.

Lemma grid_tags_wall_floor_trap_witness :
  exists row tag,
    Output.grid cave_dungeon !! 2%nat = Some row /\
    row !! 2%nat = Some tag /\
    (tag = "wall" \/ tag = "floor" \/ tag = "trap")%string /\
    ~ In tag ["door"; "locked_door"; "water"; "lava"; "pit"; "stairs_up";
              "stairs_down"]%string.
Proof.
  eexists _, _. split; [reflexivity|]. split; [reflexivity|].
  eapply (@grid_tags_wall_floor_trap cave_gen cave_config (Some 42) []
            cave_dungeon cave_run).
  - apply (list_elem_of_lookup_2 _ 2%nat). reflexivity.
  - apply (list_elem_of_lookup_2 _ 2%nat). reflexivity.
Defined.

(** * Further properties of the generator *)

Lemma replicate_se_length {S A} n (m : SE S A) s l s' :
  replicate_se n m s = Ok (l, s') -> length l = n.
Proof.
  revert s l. induction n as [|n IH]; simpl; intros s l Hrun.
  - apply ret_inv in Hrun as [-> _]. reflexivity.
  - apply bind_inv in Hrun as (a & s1 & _ & Hrun).
    apply bind_inv in Hrun as (rest & s2 & Hrest & Hrun).
    apply ret_inv in Hrun as [-> ->]. simpl. f_equal. eauto.
Qed.

Lemma elem_of_range a b x : x ∈ range a b <-> a <= x < b.
Proof.
  unfold range. rewrite list_elem_of_In, in_map_iff. split.
  - intros (i & <- & Hi). apply in_seq in Hi. lia.
  - intros Hx. exists (Z.to_nat (x - a)). split; [lia|].
    apply in_seq. lia.
Qed.

Lemma elem_of_cells xs ys x y : (x, y) ∈ cells xs ys <-> x ∈ xs /\ y ∈ ys.
Proof.
  unfold cells. rewrite !list_elem_of_In, in_flat_map. split.
  - intros (y' & Hy & Hin). apply in_map_iff in Hin as (x' & [= <- <-] & Hx).
    done.
  - intros [Hx Hy]. exists y. split; [done|]. apply in_map_iff. eauto.
Qed.

(** ** Reading the grid after writing it *)

Lemma py_index_lt len i j : py_index len i = Some j -> (j < len)%nat.
Proof.
  unfold py_index.
  destruct ((0 <=? i) && (i <? Z.of_nat len)) eqn:H1.
  - apply andb_true_iff in H1 as [H0 Hl].
    apply Z.leb_le in H0. apply Z.ltb_lt in Hl. intros [= <-]. lia.
  - destruct ((- Z.of_nat len <=? i) && (i <? 0)) eqn:H2; [|done].
    apply andb_true_iff in H2 as [H0 Hl].
    apply Z.leb_le in H0. apply Z.ltb_lt in Hl. intros [= <-]. lia.
Qed.

Lemma grid_set_get g x y t g' :
  grid_set g x y t = Ok g' -> grid_get g' x y = Ok t.
Proof.
  unfold grid_set, grid_get.
  destruct (py_index (length g) y) as [j|] eqn:Hy; [|done].
  destruct (g !! j) as [row|] eqn:Hj; [|done].
  destruct (py_index (length row) x) as [i|] eqn:Hx; [|done].
  intros [= <-]. rewrite length_insert, Hy.
  rewrite list_lookup_insert_eq by (by eapply lookup_lt_Some).
  rewrite length_insert, Hx.
  rewrite list_lookup_insert_eq by (by eapply py_index_lt). done.
Qed.

(** A tile that is not a wall stays so under writes of another tag. *)
Definition open_at (g : Grid) (c : Z * Z) : Prop :=
  exists t, grid_get g (fst c) (snd c) = Ok t /\ t <> WALL.

Lemma writes_get t g g' x y a :
  writes t g g' -> grid_get g x y = Ok a ->
  exists b, grid_get g' x y = Ok b /\ (b = a \/ b = t).
Proof.
  unfold writes, grid_get. intros Hw.
  rewrite <- (Forall2_length _ _ _ Hw).
  destruct (py_index (length g) y) as [j|]; [|done].
  destruct (g !! j) as [row|] eqn:Hj; [|done].
  destruct (Forall2_lookup_l _ _ _ _ _ Hw Hj) as (row' & -> & Hrow).
  rewrite <- (Forall2_length _ _ _ Hrow).
  destruct (py_index (length row) x) as [i|]; [|done].
  destruct (row !! i) as [a0|] eqn:Hi; [|done].
  destruct (Forall2_lookup_l _ _ _ _ _ Hrow Hi) as (b & -> & Hb).
  intros [= <-]. eauto.
Qed.

Lemma writes_open t g g' c :
  writes t g g' -> t <> WALL -> open_at g c -> open_at g' c.
Proof.
  intros Hw Ht (a & Ha & Hne).
  destruct (writes_get _ _ _ _ _ _ Hw Ha) as (b & Hb & [->| ->]);
    by exists b || eexists.
Qed.

Lemma set_tiles_open cs t g g' :
  set_tiles cs t g = Ok g' -> t <> WALL ->
  forall c, c ∈ cs -> open_at g' c.
Proof.
  intros Hset Ht. revert g Hset.
  induction cs as [|[x y] cs IH]; simpl; intros g Hset c Hc;
    [by apply elem_of_nil in Hc|].
  destruct (grid_set g x y t) as [g1|] eqn:H1; [|done].
  apply elem_of_cons in Hc as [->|Hc]; [|eauto].
  eapply writes_open; [eapply set_tiles_writes; eauto | done |].
  exists t. split; [|done]. simpl. by eapply grid_set_get.
Qed.

(** [first_min_from] scans [l], which follows the prefix [p] already
    scanned, and answers the position of a least key. *)
Lemma first_min_from_least {A} (key : A -> Z) p l best ab :
  p !! best = Some ab -> (forall b, b ∈ p -> key ab <= key b) ->
  exists a, (p ++ l) !! first_min_from key l (length p) best (key ab) = Some a
            /\ forall b, b ∈ p ++ l -> key a <= key b.
Proof.
  revert p best ab. induction l as [|a l IH]; simpl; intros p best ab Hb Hmin.
  - exists ab. rewrite app_nil_r. done.
  - destruct (key a <? key ab) eqn:Hlt.
    + apply Z.ltb_lt in Hlt.
      destruct (IH (p ++ [a]) (length p) a) as (m & Hm & Hleast).
      * by rewrite lookup_app_r, Nat.sub_diag.
      * intros b Hin. apply elem_of_app in Hin as [Hin|Hin].
        -- specialize (Hmin b Hin). lia.
        -- apply list_elem_of_singleton in Hin as ->. lia.
      * rewrite length_app, Nat.add_1_r, <- app_assoc in Hm.
        rewrite <- app_assoc in Hleast. eauto.
    + apply Z.ltb_ge in Hlt.
      destruct (IH (p ++ [a]) best ab) as (m & Hm & Hleast).
      * by apply lookup_app_l_Some.
      * intros b Hin. apply elem_of_app in Hin as [Hin|Hin]; [auto|].
        apply list_elem_of_singleton in Hin as ->. lia.
      * rewrite length_app, Nat.add_1_r, <- app_assoc in Hm.
        rewrite <- app_assoc in Hleast. eauto.
Qed.

Lemma first_min_least {A} (key : A -> Z) l i :
  first_min key l = Some i ->
  exists a, l !! i = Some a /\ forall b, b ∈ l -> key a <= key b.
Proof.
  destruct l as [|a0 l]; [done|]. intros [= <-].
  apply (first_min_from_least key [a0] l 0 a0); [done|].
  intros b Hb. apply list_elem_of_singleton in Hb as ->. lia.
Qed.

(** The distances of [_place_special_rooms], on rectangles. *)
Definition rect_distance (a b : Rect) : Z :=
  (rx a + rw a / 2 - (rx b + rw b / 2)) ^ 2 +
  (ry a + rh a / 2 - (ry b + rh b / 2)) ^ 2.

Definition rect_edge_distance (width height : Z) (r : Rect) : Z :=
  Z.min (Z.min (Z.min (rx r) (ry r)) (width - rx r - rw r))
        (height - ry r - rh r).

Section Further.
Context `{RandomGen}.
Variable config : Config.t.

Ltac inv_run H :=
  lazymatch type of H with
  | bind _ _ _ = Ok _ =>
      let H1 := fresh "Hstep" in
      apply bind_inv in H as (? & ? & H1 & H); cbv beta in H;
      inv_run H1; inv_run H
  | ret _ _ = Ok _ => apply ret_inv in H as [? ?]; subst
  | get_state _ = Ok _ => apply get_state_inv in H as [? ?]; subst
  | raise _ _ = Ok _ => discriminate H
  | lift_rand _ _ = Ok _ => apply lift_rand_inv in H as (? & H & ?); subst
  | modify_rooms _ _ = Ok _ => apply modify_rooms_inv in H; subst
  | set_rooms _ _ = Ok _ => apply set_rooms_inv in H; subst
  | incr_next_room_id _ = Ok _ => apply incr_next_room_id_inv in H; subst
  | room_at _ _ = Ok _ => apply room_at_inv in H as [H ?]; subst
  | append_connection_at _ _ _ = Ok _ =>
      apply append_connection_at_inv in H as [H ?]; subst
  | _ => idtac
  end.

(** ** Placement, once more *)

(** A room without content. *)
Definition blank (r : Room.t) : Prop :=
  Room.encounters r = [] /\ Room.loot r = [] /\ Room.puzzle r = None /\
  Room.skill_requirement r = None.

(** The room keeps [k] tiles from every edge of the grid. *)
Definition margin (k : Z) (r : Room.t) : Prop :=
  k <= Room.x r /\ k <= Room.y r /\
  Room.x r + Room.width r <= Config.width config - k /\
  Room.y r + Room.height r <= Config.height config - k.

(** The sides of the room lie between the sizes of the configuration. *)
Definition in_size (r : Room.t) : Prop :=
  Config.min_room_size config <= Room.width r <= Config.max_room_size config /\
  Config.min_room_size config <= Room.height r <= Config.max_room_size config.

(** No tile of the room is a wall. *)
Definition carved_room (g : Grid) (r : Room.t) : Prop :=
  forall c, c ∈ room_cells r -> open_at g c.

Lemma place_trial_inv s a s' :
  place_trial config s = Ok (a, s') ->
  (Self.rooms s' = Self.rooms s /\
   Self.next_room_id s' = Self.next_room_id s /\
   Self.grid s' = Self.grid s) \/
  exists x y w h,
    Config.min_room_size config <= w <= Config.max_room_size config /\
    Config.min_room_size config <= h <= Config.max_room_size config /\
    2 <= x <= Config.width config - w - 2 /\
    2 <= y <= Config.height config - h - 2 /\
    set_tiles (room_cells (Room.new (Self.next_room_id s) CORRIDOR x y w h))
              FLOOR (Self.grid s) = Ok (Self.grid s') /\
    Self.rooms s' =
      Self.rooms s ++ [Room.new (Self.next_room_id s) CORRIDOR x y w h] /\
    Self.next_room_id s' = S (Self.next_room_id s).
Proof.
  unfold place_trial. intros Hrun. inv_run Hrun. simpl in Hrun.
  destruct (_check_room_overlap _ _ _ _ _) eqn:Hchk; simpl in Hrun.
  - inv_run Hrun. left. done.
  - inv_run Hrun. apply update_grid_inv in Hrun as (g' & Hset & ->).
    simpl in *. right.
    repeat match goal with
           | Hd : randint _ _ _ = Ok _ |- _ => apply randint_range in Hd
           end.
    eexists _, _, _, _. repeat split; try eassumption; lia.
Qed.

Record laid (n : Z) (s : Self.t) : Prop := {
  laid_rooms :
    Forall (fun r => blank r /\ margin 2 r /\ in_size r) (Self.rooms s);
  laid_carved : Forall (carved_room (Self.grid s)) (Self.rooms s);
  laid_count : Z.of_nat (length (Self.rooms s)) <= Z.max 0 n
}.

Lemma carved_room_writes t g g' r :
  writes t g g' -> t <> WALL -> carved_room g r -> carved_room g' r.
Proof. intros Hw Ht Hr c Hc. eapply writes_open; eauto. Qed.

Lemma place_loop_laid n num_rooms s a s' :
  place_loop config n num_rooms s = Ok (a, s') ->
  laid num_rooms s -> laid num_rooms s'.
Proof.
  revert s. induction n as [|n IH]; simpl; intros s Hrun Hs.
  - by inv_run Hrun.
  - inv_run Hrun.
    destruct (num_rooms <=? _) eqn:Hfull; [by inv_run Hrun|].
    apply Z.leb_gt in Hfull. inv_run Hrun.
    eapply IH; [exact Hrun|].
    match goal with
    | Ht : place_trial _ _ = Ok _ |- _ =>
        apply place_trial_inv in Ht
          as [(Hr & _ & Hg)
             |(px & py & w & h & Hw & Hh & Hx & Hy & Hset & Hr & _)]
    end.
    + destruct Hs. split; rewrite ?Hr, ?Hg; done.
    + destruct Hs. split; rewrite Hr.
      * apply Forall_app. split; [done|]. constructor; [|done].
        split; [done|]. unfold margin, in_size. simpl. lia.
      * apply Forall_app. split.
        -- eapply Forall_impl; [done|]. intros r Hcr.
           apply (carved_room_writes FLOOR (Self.grid s)); [|done|done].
           eapply set_tiles_writes; eauto.
        -- constructor; [|done]. intros c Hc.
           eapply set_tiles_open; eauto.
      * rewrite length_app. simpl. lia.
Qed.

Lemma _generate_rooms_bsp_laid s a s' :
  _generate_rooms_bsp config s = Ok (a, s') ->
  Self.rooms s = [] ->
  laid (Config.max_rooms config) s'.
Proof.
  unfold _generate_rooms_bsp. intros Hrun Hrooms. inv_run Hrun.
  match goal with
  | Hd : randint _ _ _ = Ok (?n, _) |- _ =>
      apply randint_range in Hd;
      apply (place_loop_laid _ n) in Hrun
  end.
  - destruct Hrun. split; [done..|]. lia.
  - split; simpl; rewrite Hrooms; [done..|]. simpl. lia.
Qed.

(** ** Connections, once more *)

(** Every recorded connection leads to another room of the catalog, which
    records the connection back. *)
Definition adjacency_ok (rs : list Room.t) : Prop :=
  forall i r c, rs !! i = Some r -> c ∈ Room.connections r ->
    c <> i /\ exists r', rs !! c = Some r' /\ i ∈ Room.connections r'.

Lemma connects_lookup rs rs' k r c :
  Forall2 connects rs rs' -> rs !! k = Some r -> c ∈ Room.connections r ->
  exists r', rs' !! k = Some r' /\ c ∈ Room.connections r'.
Proof.
  intros Hc Hk Hin.
  destruct (Forall2_lookup_l _ _ _ _ _ Hc Hk) as (r' & Hk' & [extra ->]).
  eexists. split; [done|]. simpl. apply elem_of_app. by left.
Qed.

Lemma adjacency_link rs a b :
  adjacency_ok rs -> a <> b -> is_Some (rs !! a) -> is_Some (rs !! b) ->
  adjacency_ok (alter (Room.append_connection a) b
                      (alter (Room.append_connection b) a rs)).
Proof.
  intros Hadj Hab [ra Hra] [rb Hrb].
  assert (Forall2 connects rs
            (alter (Room.append_connection a) b
                   (alter (Room.append_connection b) a rs))) as Hc
    by (eapply Forall2_connects_trans; apply Forall2_connects_alter).
  assert (exists r', alter (Room.append_connection a) b
                       (alter (Room.append_connection b) a rs) !! a
                     = Some r' /\ b ∈ Room.connections r') as Ha.
  { rewrite list_lookup_alter_ne by done.
    rewrite list_lookup_alter_eq, Hra. eexists. split; [done|].
    simpl. apply elem_of_app. right. by left. }
  assert (exists r', alter (Room.append_connection a) b
                       (alter (Room.append_connection b) a rs) !! b
                     = Some r' /\ a ∈ Room.connections r') as Hb.
  { rewrite list_lookup_alter_eq.
    rewrite list_lookup_alter_ne by done. rewrite Hrb.
    eexists. split; [done|]. simpl. apply elem_of_app. right. by left. }
  intros i r c Hi Hin.
  destruct (decide (i = b)) as [->|Hib].
  - rewrite list_lookup_alter_eq, list_lookup_alter_ne, Hrb in Hi by done.
    injection Hi as <-.
    simpl in Hin. apply elem_of_app in Hin as [Hin|Hin].
    + destruct (Hadj b rb c Hrb Hin) as (Hne & r' & Hc' & Hback).
      split; [done|]. eapply connects_lookup; eauto.
    + apply list_elem_of_singleton in Hin as ->. done.
  - rewrite list_lookup_alter_ne in Hi by done.
    destruct (decide (i = a)) as [->|Hia].
    + rewrite list_lookup_alter_eq, Hra in Hi. injection Hi as <-.
      simpl in Hin. apply elem_of_app in Hin as [Hin|Hin].
      * destruct (Hadj a ra c Hra Hin) as (Hne & r' & Hc' & Hback).
        split; [done|]. eapply connects_lookup; eauto.
      * apply list_elem_of_singleton in Hin as ->. done.
    + rewrite list_lookup_alter_ne in Hi by done.
      destruct (Hadj i r c Hi Hin) as (Hne & r' & Hc' & Hback).
      split; [done|]. eapply connects_lookup; eauto.
Qed.

Lemma is_Some_alter {A} (f : A -> A) i j (l : list A) :
  is_Some (alter f i l !! j) -> is_Some (l !! j).
Proof.
  rewrite !lookup_lt_is_Some, length_alter. done.
Qed.

Lemma set_remove_notin u l l' : set_remove u l = Ok l' -> u ∉ l'.
Proof.
  unfold set_remove. case_decide; [|done]. intros [= <-] Hin.
  apply list_elem_of_In, filter_In in Hin as [_ Hne].
  by rewrite Nat.eqb_refl in Hne.
Qed.

Lemma mst_loop_adjacency fuel connected unconnected s a s' :
  mst_loop config fuel connected unconnected s = Ok (a, s') ->
  adjacency_ok (Self.rooms s) -> connected <> [] ->
  (forall v, v ∈ connected -> v ∉ unconnected) ->
  adjacency_ok (Self.rooms s').
Proof.
  revert connected unconnected s.
  induction fuel as [|fuel IH]; intros C U s Hrun Hadj HC Hdisj;
    (destruct U as [|u0 U0]; simpl in Hrun; [by inv_run Hrun|]).
  - discriminate.
  - inv_run Hrun.
    destruct (scan_pairs _ _ _ _) as [[bd [c u]]|] eqn:Hscan; [|discriminate].
    apply scan_pairs_first in Hscan; [|by apply pairs_of_nonempty].
    apply elem_of_pairs_of in Hscan as [Hc Hu].
    inv_run Hrun.
    destruct (set_remove u (u0 :: U0)) as [U'|] eqn:Hrem; [|discriminate].
    match goal with
    | Hcarve : _carve_corridor _ _ _ _ = Ok (_, ?s1),
      Hc1 : is_Some (Self.rooms ?s1 !! c),
      Hu1 : is_Some (_ !! u) |- _ =>
        apply _carve_corridor_carved in Hcarve as (Hr1 & _ & _);
        apply is_Some_alter in Hu1; rewrite Hr1 in Hc1, Hu1, Hrun;
        rename Hc1 into Hsc; rename Hu1 into Hsu
    end.
    eapply IH; [exact Hrun|..]; simpl.
    + apply adjacency_link; try done.
      intros ->. by apply (Hdisj u).
    + by destruct C.
    + intros v Hv Hv'. apply (set_remove_sub _ _ _ _ Hrem) in Hv' as Hv0.
      apply elem_of_app in Hv as [Hv|Hv]; [by apply (Hdisj v)|].
      apply list_elem_of_singleton in Hv as ->.
      by apply (set_remove_notin _ _ _ Hrem).
Qed.

Lemma extra_connection_adjacency s a s' :
  extra_connection config s = Ok (a, s') ->
  ids_ok (Self.rooms s) -> adjacency_ok (Self.rooms s) ->
  adjacency_ok (Self.rooms s').
Proof.
  unfold extra_connection. intros Hrun Hids Hadj. inv_run Hrun.
  match type of Hrun with
  | (if ?b then _ else _) _ = _ => destruct b eqn:Hcond
  end; [|by inv_run Hrun].
  apply andb_true_iff in Hcond as [Hne _].
  apply negb_true_iff, Nat.eqb_neq in Hne.
  inv_run Hrun.
  match goal with
  | Hcarve : _carve_corridor _ _ _ _ = Ok (_, ?s1),
    Hc1 : is_Some (Self.rooms ?s1 !! ?i1),
    Hu1 : is_Some (_ !! ?i2),
    H1 : Self.rooms _ !! ?i1 = Some ?r1,
    H2 : Self.rooms _ !! ?i2 = Some ?r2 |- _ =>
      apply _carve_corridor_carved in Hcarve as (Hr1 & _ & _);
      apply is_Some_alter in Hu1; simpl in *; rewrite Hr1 in *;
      rewrite (ids_ok_lookup _ _ _ Hids H1) in *;
      rewrite (ids_ok_lookup _ _ _ Hids H2) in *
  end.
  apply adjacency_link; done.
Qed.

Lemma repeat_se_inv {S} (P : S -> Prop) n (body : SE S unit) s a s' :
  (forall s1 a1 s2, body s1 = Ok (a1, s2) -> P s1 -> P s2) ->
  repeat_se n body s = Ok (a, s') -> P s -> P s'.
Proof.
  intros Hbody. revert s. induction n as [|n IH]; simpl; intros s Hrun Hs.
  - apply ret_inv in Hrun as [_ ->]. done.
  - apply bind_inv in Hrun as (? & s1 & H1 & Hrun). eauto.
Qed.

Lemma _connect_rooms_adjacency s a s' :
  _connect_rooms config s = Ok (a, s') ->
  ids_ok (Self.rooms s) -> adjacency_ok (Self.rooms s) ->
  adjacency_ok (Self.rooms s').
Proof.
  unfold _connect_rooms. intros Hrun Hids Hadj.
  apply bind_inv in Hrun as (s0 & s0' & Hget & Hrun).
  apply get_state_inv in Hget as [-> ->].
  destruct (length (Self.rooms s) <? 2)%nat eqn:Hn;
    [by apply ret_inv in Hrun as [_ ->]|].
  apply Nat.ltb_ge in Hn.
  apply bind_inv in Hrun as (? & s1 & Hmst & Hrun).
  apply bind_inv in Hrun as (n & s2 & Hdraw & Hrun).
  apply lift_rand_inv in Hdraw as (g & _ & ->).
  assert (ids_ok (Self.rooms s1) /\ adjacency_ok (Self.rooms s1)) as Hs1.
  { split.
    - pose proof Hmst as Hmst'.
      apply mst_loop_reached in Hmst' as [(Hc & _) _]; [|done|done|].
      + eapply connects_ids_ok; eauto.
      + constructor; [|constructor]. split; [lia | reflexivity].
    - eapply mst_loop_adjacency; [exact Hmst | done | done |].
      intros v Hv Hv'. apply list_elem_of_singleton in Hv as ->.
      apply elem_of_seq in Hv'. lia. }
  eapply (repeat_se_inv
            (fun st => ids_ok (Self.rooms st) /\ adjacency_ok (Self.rooms st)))
    in Hrun; [by destruct Hrun | | exact Hs1].
  intros st a1 st' Hbody [Hi Ha]. split.
  - apply extra_connection_linked in Hbody as (Hc & _).
    eapply connects_ids_ok; eauto.
  - eapply extra_connection_adjacency; eauto.
Qed.

(** ** Content, once more *)

(** The parameter of a puzzle lies in the range of its kind. *)
Definition puzzle_in_range (p : Puzzle) : Prop :=
  match puzzle_type p with
  | lever_sequence => 3 <= puzzle_count p <= 6
  | pressure_plates => 4 <= puzzle_count p <= 9
  | symbol_matching => 3 <= puzzle_count p <= 5
  | torch_lighting => 4 <= puzzle_count p <= 8
  | block_pushing => 2 <= puzzle_count p <= 4
  end.

(** The loot record names an item of the loot table, in a quantity between
    1 and the [max_quantity] of the item; boss loot has it doubled. *)
Definition loot_from_table (boss : bool) (l : Loot) : Prop :=
  exists item m q,
    item ∈ Config.loot_table config /\
    dict_get item "max_quantity" (VInt 1) = VInt m /\
    item_id l = dict_get item "id" (VStr "gold_coins") /\
    1 <= q <= m /\
    quantity l = (if boss then q * 2 else q).

(** The encounter is a monster of the monster table. *)
Definition monster_from_table (e : Encounter) : Prop :=
  exists monster px py,
    monster ∈ Config.monster_table config /\
    e = MonsterEncounter (dict_get monster "id" (VStr "generic_monster"))
                         (dict_get monster "level" (VInt 1)) px py.

Lemma _generate_puzzle_in_range g p g' :
  _generate_puzzle g = Ok (p, g') -> puzzle_in_range p.
Proof.
  unfold _generate_puzzle. intros Hrun.
  apply bind_inv in Hrun as (levers & g1 & H1 & Hrun).
  apply bind_inv in Hrun as (plates & g2 & H2 & Hrun).
  apply bind_inv in Hrun as (symbols & g3 & H3 & Hrun).
  apply bind_inv in Hrun as (torches & g4 & H4 & Hrun).
  apply bind_inv in Hrun as (blocks & g5 & H5 & Hrun).
  apply randint_range in H1, H2, H3, H4, H5.
  apply choice_elem in Hrun.
  repeat (apply elem_of_cons in Hrun as [->|Hrun]; [done|]).
  by apply elem_of_nil in Hrun.
Qed.

Definition loot_bonus (bonus boss : bool) : Z :=
  (if bonus then 2 else 0) + (if boss then 3 else 0).

Lemma _generate_loot_from_table room bonus boss g l g' :
  _generate_loot config room bonus boss g = Ok (l, g') ->
  Forall (loot_from_table boss) l /\
  (Config.loot_table config = [] -> l = []) /\
  (Config.loot_table config <> [] ->
   1 + loot_bonus bonus boss <= Z.of_nat (length l)
     <= 3 + loot_bonus bonus boss).
Proof.
  unfold _generate_loot, loot_from_table.
  destruct (Config.loot_table config) as [|i0 table] eqn:Htable.
  - intros Hrun. apply ret_inv in Hrun as [-> _]. done.
  - intros Hrun. apply bind_inv in Hrun as (n0 & g1 & Hn0 & Hrun).
    apply randint_range in Hn0.
    pose proof (replicate_se_length _ _ _ _ _ Hrun) as Hlen.
    split; [|split; [done|]].
    + eapply replicate_se_Forall; [|exact Hrun].
      clear. intros g1 lt g2 Hone.
      apply bind_inv in Hone as (item & g3 & Hitem & Hone).
      apply choice_elem in Hitem.
      destruct (dict_get item "max_quantity" (VInt 1)) as [m| |] eqn:Hm;
        try discriminate.
      apply bind_inv in Hone as (q & g4 & Hq & Hone).
      apply randint_range in Hq. apply ret_inv in Hone as [-> _].
      exists item, m, q. done.
    + intros _. rewrite Hlen. unfold loot_bonus.
      destruct bonus, boss; lia.
Qed.

Lemma _generate_encounters_from_table room g es g' :
  _generate_encounters config room g = Ok (es, g') ->
  Forall monster_from_table es /\
  (Config.monster_table config = [] -> es = []) /\
  (Config.monster_table config <> [] ->
   1 <= Z.of_nat (length es)
     <= Z.max 1 (Room.width room * Room.height room / 20)).
Proof.
  unfold _generate_encounters, monster_from_table.
  destruct (Config.monster_table config) as [|m0 table] eqn:Htable.
  - intros Hrun. apply ret_inv in Hrun as [-> _]. done.
  - intros Hrun. apply bind_inv in Hrun as (n & g1 & Hn & Hrun).
    apply randint_range in Hn.
    pose proof (replicate_se_length _ _ _ _ _ Hrun) as Hlen.
    split; [|split; [done|]].
    + eapply replicate_se_Forall; [|exact Hrun].
      clear. intros g1 e g2 Hone.
      apply bind_inv in Hone as (monster & g3 & Hm & Hone).
      apply choice_elem in Hm.
      apply bind_inv in Hone as (px & g4 & _ & Hone).
      apply bind_inv in Hone as (py & g5 & _ & Hone).
      apply ret_inv in Hone as [-> _]. eauto.
    + intros _. rewrite Hlen. lia.
Qed.

(** What the encounters of a room are, by its role. *)
Definition encounters_ok (r : Room.t) : Prop :=
  match Room.room_type r with
  | COMBAT =>
      Forall monster_from_table (Room.encounters r) /\
      (Config.monster_table config = [] -> Room.encounters r = []) /\
      (Config.monster_table config <> [] ->
       1 <= Z.of_nat (length (Room.encounters r))
         <= Z.max 1 (Room.width r * Room.height r / 20))
  | BOSS => True
  | _ => Room.encounters r = []
  end.

(** What the loot of a room is, by its role. *)
Definition loot_ok (r : Room.t) : Prop :=
  Forall (loot_from_table (bool_decide (Room.room_type r = BOSS)))
         (Room.loot r) /\
  (Config.loot_table config = [] -> Room.loot r = []) /\
  match Room.room_type r with
  | ENTRANCE => Room.loot r = []
  | TREASURE | SECRET =>
      Config.loot_table config <> [] ->
      3 <= Z.of_nat (length (Room.loot r)) <= 5
  | BOSS =>
      Config.loot_table config <> [] ->
      4 <= Z.of_nat (length (Room.loot r)) <= 6
  | _ => Z.of_nat (length (Room.loot r)) <= 3
  end.

Definition puzzle_ok (r : Room.t) : Prop :=
  match Room.puzzle r with
  | Some p => Room.room_type r = PUZZLE /\ puzzle_in_range p
  | None => Room.room_type r <> PUZZLE
  end.

(** The content of a room of the final catalog. *)
Definition content_ok (r : Room.t) : Prop :=
  Room.room_type r <> CORRIDOR /\ Room.room_type r <> SKILL_CHECK /\
  Room.skill_requirement r = None /\
  puzzle_ok r /\ encounters_ok r /\ loot_ok r.

(** Between the two loops of [_populate_rooms] the boss rooms are still
    blank. *)
Definition content_ok1 (r : Room.t) : Prop :=
  if bool_decide (Room.room_type r = BOSS) then blank r else content_ok r.

Lemma second_roll_content room1 g room' g' :
  (if bool_decide (Room.room_type room1 = TREASURE) then ret room1
   else
     roll2 <- random ;;
     if Qltb roll2 (3 # 10) then
       l <- _generate_loot config room1 false false ;;
       ret (Room.set_loot l room1)
     else ret room1) g = Ok (room', g') ->
  room' = room1 \/
  Room.room_type room1 <> TREASURE /\
  exists l g1 g2,
    _generate_loot config room1 false false g1 = Ok (l, g2) /\
    room' = Room.set_loot l room1.
Proof.
  case_bool_decide as Ht.
  - intros Hrun. apply ret_inv in Hrun as [-> _]. by left.
  - intros Hrun. apply bind_inv in Hrun as (roll2 & g1 & _ & Hrun).
    destruct (Qltb roll2 _).
    + apply bind_inv in Hrun as (l & g2 & Hl & Hrun).
      apply ret_inv in Hrun as [-> _]. right. eauto 10.
    + apply ret_inv in Hrun as [-> _]. by left.
Qed.

Lemma plain_loot_ok room l gA gB :
  _generate_loot config room false false gA = Ok (l, gB) ->
  Forall (loot_from_table false) l /\
  (Config.loot_table config = [] -> l = []) /\
  Z.of_nat (length l) <= 3.
Proof.
  intros Hl. apply _generate_loot_from_table in Hl as (Hall & Hnil & Hlen).
  split; [done|]. split; [done|].
  destruct (decide (Config.loot_table config = [])) as [Hnone|Hsome].
  - rewrite (Hnil Hnone). simpl. lia.
  - specialize (Hlen Hsome). unfold loot_bonus in Hlen. lia.
Qed.

Ltac content_done :=
  repeat split; try done; try (simpl; lia);
  try (match goal with
       | Hn : _ <> [], Hx : _ <> [] -> _ |- _ => specialize (Hx Hn); lia
       end).

Lemma populate_room_content room g room' g' :
  populate_room config room g = Ok (room', g') ->
  blank room -> content_ok1 room'.
Proof.
  unfold populate_room. intros Hrun (Henc & Hloot & Hpz & Hskill).
  destruct (bool_decide (Room.room_type room = ENTRANCE)) eqn:He.
  { apply bool_decide_eq_true in He.
    apply ret_inv in Hrun as [-> _].
    unfold content_ok1, content_ok, puzzle_ok, encounters_ok, loot_ok.
    rewrite He, Henc, Hloot, Hpz, Hskill. simpl. repeat split; done. }
  destruct (bool_decide (Room.room_type room = BOSS)) eqn:Hb.
  { apply ret_inv in Hrun as [-> _]. unfold content_ok1. rewrite Hb. done. }
  simpl in Hrun.
  apply bind_inv in Hrun as (roll & g1 & _ & Hrun).
  apply bind_inv in Hrun as (room1 & g2 & Hkind & Hrun).
  apply second_roll_content in Hrun.
  unfold content_ok1, content_ok, puzzle_ok, encounters_ok, loot_ok.
  destruct (Qltb roll _).
  { apply bind_inv in Hkind as (es & g3 & Hes & Hkind).
    apply ret_inv in Hkind as [-> _].
    apply _generate_encounters_from_table in Hes as (Hes1 & Hes2 & Hes3).
    destruct Hrun as [->|(_ & l & gA & gB & Hl & ->)]; simpl.
    - rewrite Hloot, Hpz, Hskill. content_done.
    - apply plain_loot_ok in Hl as (Hl1 & Hl2 & Hl3). rewrite Hpz, Hskill.
      content_done. }
  destruct (Qltb roll _).
  { apply bind_inv in Hkind as (pz & g3 & Hpuzzle & Hkind).
    apply ret_inv in Hkind as [-> _].
    apply _generate_puzzle_in_range in Hpuzzle.
    destruct Hrun as [->|(_ & l & gA & gB & Hl & ->)]; simpl.
    - rewrite Hloot, Henc, Hskill. content_done.
    - apply plain_loot_ok in Hl as (Hl1 & Hl2 & Hl3). rewrite Henc, Hskill.
      content_done. }
  destruct (Qltb roll _).
  { apply bind_inv in Hkind as (l0 & g3 & Hl0 & Hkind).
    apply ret_inv in Hkind as [-> _].
    apply _generate_loot_from_table in Hl0 as (Hl1 & Hl2 & Hlen0).
    destruct Hrun as [->|(Hnt & _)]; [|done]. simpl.
    rewrite Henc, Hpz, Hskill. unfold loot_bonus in Hlen0. content_done. }
  apply ret_inv in Hkind as [-> _].
  destruct Hrun as [->|(_ & l & gA & gB & Hl & ->)]; simpl.
  - rewrite Hloot, Henc, Hpz, Hskill. content_done.
  - apply plain_loot_ok in Hl as (Hl1 & Hl2 & Hl3). rewrite Henc, Hpz, Hskill.
    content_done.
Qed.

Lemma populate_boss_content room g room' g' :
  populate_boss config room g = Ok (room', g') ->
  content_ok1 room -> content_ok room'.
Proof.
  unfold populate_boss, content_ok1.
  destruct (bool_decide (Room.room_type room = BOSS)) eqn:Hb.
  - apply bool_decide_eq_true in Hb.
    intros Hrun (Henc & Hloot & Hpz & Hskill).
    apply bind_inv in Hrun as (l & g1 & Hl & Hrun).
    apply ret_inv in Hrun as [-> _].
    apply _generate_loot_from_table in Hl as (Hl1 & Hl2 & Hlen).
    unfold loot_bonus in Hlen.
    unfold content_ok, puzzle_ok, encounters_ok, loot_ok. simpl.
    rewrite Hb, Hpz, Hskill. content_done.
  - intros Hrun. by apply ret_inv in Hrun as [-> _].
Qed.

Lemma _populate_rooms_content s a s' :
  _populate_rooms config s = Ok (a, s') ->
  Forall blank (Self.rooms s) -> Forall content_ok (Self.rooms s').
Proof.
  unfold _populate_rooms. intros Hrun Hblank.
  apply bind_inv in Hrun as (s0 & ? & Hget & Hrun).
  apply get_state_inv in Hget as [-> ->].
  apply bind_inv in Hrun as (rs & s1 & H1 & Hrun).
  apply lift_rand_inv in H1 as (g1 & H1 & ->).
  apply bind_inv in Hrun as (? & s2 & Hset & Hrun).
  apply set_rooms_inv in Hset as ->.
  apply bind_inv in Hrun as (rs' & s3 & H2 & Hrun).
  apply lift_rand_inv in H2 as (g2 & H2 & ->).
  apply set_rooms_inv in Hrun as ->. simpl in *.
  apply (map_se_Forall2 _ (fun r r' => blank r -> content_ok1 r')) in H1;
    [|intros ????; apply populate_room_content].
  apply (map_se_Forall2 _ (fun r r' => content_ok1 r -> content_ok r')) in H2;
    [|intros ????; apply populate_boss_content].
  eapply Forall2_Forall_transfer; [|exact H2|].
  - intros r r' Hrr Hr. exact (Hrr Hr).
  - eapply Forall2_Forall_transfer; [|exact H1|exact Hblank].
    intros r r' Hrr Hr. exact (Hrr Hr).
Qed.

(** ** The secret room, once more *)

(** The secret-room pass leaves the catalog and the grid as they are, or
    carves one room that lies inside the grid and appends it with its
    bonus loot. *)
Definition secret_placed (w h : Z) (s s' : Self.t) : Prop :=
  exists x y l gA gB,
    0 < x /\ 0 < y /\ x + w < Config.width config /\
    y + h < Config.height config /\
    _generate_loot config (Room.new (Self.next_room_id s) SECRET x y w h)
                   true false gA = Ok (l, gB) /\
    set_tiles (room_cells (Room.new (Self.next_room_id s) SECRET x y w h))
              FLOOR (Self.grid s) = Ok (Self.grid s') /\
    Self.rooms s' =
      Self.rooms s
        ++ [Room.set_loot l (Room.new (Self.next_room_id s) SECRET x y w h)]
    /\ Self.next_room_id s' = S (Self.next_room_id s).

Definition secret_shape (s s' : Self.t) : Prop :=
  (Self.rooms s' = Self.rooms s /\ Self.grid s' = Self.grid s /\
   Self.next_room_id s' = Self.next_room_id s) \/
  exists w h, 3 <= w <= 6 /\ 3 <= h <= 6 /\ secret_placed w h s s'.

Lemma try_positions_shape width height ps s placed s' :
  try_positions config width height ps s = Ok (placed, s') ->
  if placed then secret_placed width height s s' else s' = s.
Proof.
  induction ps as [|p ps IH]; simpl; intros Hrun.
  - by inv_run Hrun.
  - apply bind_inv in Hrun as (s0 & ? & Hget & Hrun).
    apply get_state_inv in Hget as [-> ->].
    destruct (secret_fits _ _ _ _ _) eqn:Hfits; [|by apply IH].
    apply bind_inv in Hrun as (? & s1 & Hplace & Hrun).
    apply ret_inv in Hrun as [-> ->].
    unfold secret_fits in Hfits.
    rewrite !andb_true_iff, !Z.gtb_ltb, !Z.ltb_lt in Hfits.
    destruct Hfits as ((((Hx & Hy) & Hxw) & Hyh) & _).
    unfold place_secret in Hplace. inv_run Hplace. simpl in *.
    match goal with
    | Hc : _carve_room _ _ = Ok _ |- _ =>
        apply update_grid_inv in Hc as (g' & Hset & ->)
    end.
    simpl in *.
    eexists (fst p), (snd p), _, _, _.
    do 4 (split; [done|]). split; [eassumption|]. split; [done|].
    split; [|done].
    replace (length (Self.rooms s)) with (length (Self.rooms s) + 0)%nat
      by lia.
    by rewrite alter_app_r.
Qed.

Lemma secret_attempts_shape n s a s' :
  secret_attempts config n s = Ok (a, s') -> secret_shape s s'.
Proof.
  revert s. induction n as [|n IH]; simpl; intros s Hrun.
  - inv_run Hrun. by left.
  - apply bind_inv in Hrun as (placed & s1 & Hattempt & Hrun).
    unfold secret_attempt in Hattempt.
    apply bind_inv in Hattempt as (s0 & ? & Hget & Hattempt).
    apply get_state_inv in Hget as [-> ->].
    apply bind_inv in Hattempt as (base & sA & Hbase & Hattempt).
    apply lift_rand_inv in Hbase as (gA & _ & ->).
    apply bind_inv in Hattempt as (w & sB & Hw & Hattempt).
    apply lift_rand_inv in Hw as (gB & Hw & ->).
    apply bind_inv in Hattempt as (h & sC & Hh & Hattempt).
    apply lift_rand_inv in Hh as (gC & Hh & ->).
    apply randint_range in Hw, Hh. simpl in Hw, Hh.
    apply try_positions_shape in Hattempt.
    destruct placed.
    + inv_run Hrun. right. exists w, h. done.
    + subst s1. apply IH in Hrun. exact Hrun.
Qed.

Lemma _add_secret_rooms_shape s a s' :
  _add_secret_rooms config s = Ok (a, s') -> secret_shape s s'.
Proof.
  unfold _add_secret_rooms. intros Hrun. inv_run Hrun.
  destruct (Qltb _ _).
  - inv_run Hrun. by left.
  - by apply secret_attempts_shape in Hrun.
Qed.

(** ** The layout, once more *)

Lemma room_cells_rect r r' :
  room_rect r' = room_rect r -> room_cells r' = room_cells r.
Proof. unfold room_cells. intros [= -> -> -> ->]. done. Qed.

Lemma margin_rect k r r' :
  room_rect r' = room_rect r -> margin k r -> margin k r'.
Proof. unfold margin. intros [= -> -> -> ->]. done. Qed.

Lemma in_size_rect r r' :
  room_rect r' = room_rect r -> in_size r -> in_size r'.
Proof. unfold in_size. intros [= _ _ -> ->]. done. Qed.

Lemma carved_room_rect g r r' :
  room_rect r' = room_rect r -> carved_room g r -> carved_room g r'.
Proof.
  unfold carved_room. intros Hrect. by rewrite (room_cells_rect _ _ Hrect).
Qed.

Lemma lookup_map_eq {A B} (f : A -> B) (l l' : list A) j a :
  map f l' = map f l -> l !! j = Some a ->
  exists a', l' !! j = Some a' /\ f a' = f a.
Proof.
  intros Heq Hj.
  assert ((f <$> l') !! j = Some (f a)) as Hm.
  { change (f <$> l') with (map f l'). rewrite Heq.
    change (map f l) with (f <$> l). by rewrite list_lookup_fmap, Hj. }
  rewrite list_lookup_fmap in Hm.
  destruct (l' !! j) as [a'|]; [|done]. injection Hm as Hm. eauto.
Qed.

Lemma adjacency_ok_ext rs rs' :
  map Room.connections rs' = map Room.connections rs ->
  adjacency_ok rs -> adjacency_ok rs'.
Proof.
  intros Heq Hadj i r' c Hi Hc.
  destruct (lookup_map_eq Room.connections rs' rs i r' (eq_sym Heq) Hi)
    as (r & Hr & Hcr).
  rewrite <- Hcr in Hc.
  destruct (Hadj i r c Hr Hc) as (Hne & r2 & Hr2 & Hback).
  split; [done|].
  destruct (lookup_map_eq Room.connections rs rs' c r2 Heq Hr2)
    as (r2' & Hr2' & Hcr2).
  exists r2'. split; [done|]. by rewrite Hcr2.
Qed.

(** The entrance, at [ie], is a room nearest to an edge of the grid, and
    the boss room, at [ib], a room farthest from the entrance. *)
Definition extremal (rl : list Rect) (ie ib : nat) : Prop :=
  exists re rb,
    rl !! ie = Some re /\ rl !! ib = Some rb /\
    forall rc, rc ∈ rl ->
      rect_edge_distance (Config.width config) (Config.height config) re
        <= rect_edge_distance (Config.width config) (Config.height config) rc
      /\ rect_distance re rc <= rect_distance re rb.

Lemma _place_special_rooms_extremal s a s' :
  _place_special_rooms config s = Ok (a, s') ->
  (Self.rooms s = [] /\ Self.rooms s' = []) \/
  exists ie ib e,
    (ie < length (Self.rooms s))%nat /\
    alter (Room.set_room_type ENTRANCE) ie (Self.rooms s) !! ie = Some e /\
    first_max (_room_distance e)
              (alter (Room.set_room_type ENTRANCE) ie (Self.rooms s))
      = Some ib /\
    Self.rooms s' =
      alter (Room.set_room_type BOSS) ib
            (alter (Room.set_room_type ENTRANCE) ie (Self.rooms s)) /\
    extremal (map room_rect (Self.rooms s)) ie ib.
Proof.
  unfold _place_special_rooms. intros Hrun.
  apply bind_inv in Hrun as (s0 & ? & Hget & Hrun).
  apply get_state_inv in Hget as [-> ->].
  destruct (first_min _ _) as [ie|] eqn:Hmin.
  - pose proof (first_min_lt _ _ _ Hmin) as Hie.
    apply first_min_least in Hmin as (r0 & Hr0 & Hleast).
    apply bind_inv in Hrun as (? & s1 & Hmod & Hrun).
    apply modify_rooms_inv in Hmod as ->.
    apply bind_inv in Hrun as (e & s2 & Hat & Hrun).
    apply room_at_inv in Hat as [Hat ->].
    apply bind_inv in Hrun as (s3 & ? & Hget & Hrun).
    apply get_state_inv in Hget as [-> ->]. simpl in *.
    destruct (first_max _ _) as [ib|] eqn:Hmax.
    + apply modify_rooms_inv in Hrun as ->. simpl. right.
      exists ie, ib, e. do 4 (split; [done|]).
      pose proof Hmax as Hgreat.
      apply first_max_greatest in Hgreat as (m & Hm & Hgreat).
      rewrite list_lookup_alter_eq, Hr0 in Hat. injection Hat as <-.
      assert (exists m0, Self.rooms s !! ib = Some m0 /\
                         room_rect m0 = room_rect m) as (m0 & Hm0 & Hrm).
      { destruct (decide (ib = ie)) as [->|Hne].
        - rewrite list_lookup_alter_eq, Hr0 in Hm. injection Hm as <-.
          eauto.
        - rewrite list_lookup_alter_ne in Hm by done. eauto. }
      exists (room_rect r0), (room_rect m0).
      change (map room_rect (Self.rooms s)) with (room_rect <$> Self.rooms s).
      rewrite !list_lookup_fmap, Hr0, Hm0.
      split; [done|]. split; [done|].
      intros rc Hrc. apply list_elem_of_fmap in Hrc as (r & -> & Hr).
      split; [exact (Hleast r Hr)|].
      apply list_elem_of_lookup in Hr as [j Hj].
      assert (exists r', alter (Room.set_room_type ENTRANCE) ie (Self.rooms s)
                           !! j = Some r' /\ room_rect r' = room_rect r)
        as (r' & Hr' & Hrr).
      { destruct (decide (j = ie)) as [->|Hne].
        - rewrite list_lookup_alter_eq, Hj. eauto.
        - rewrite list_lookup_alter_ne by done. eauto. }
      apply list_elem_of_lookup_2 in Hr'. specialize (Hgreat r' Hr').
      rewrite Hrm.
      change (rect_distance (room_rect r0) (room_rect r))
        with (_room_distance r0 r).
      change (rect_distance (room_rect r0) (room_rect m))
        with (_room_distance (Room.set_room_type ENTRANCE r0) m).
      replace (_room_distance r0 r)
        with (_room_distance (Room.set_room_type ENTRANCE r0) r'); [done|].
      unfold _room_distance, center. simpl.
      injection Hrr as -> -> -> ->. done.
    + exfalso. unfold first_max in Hmax.
      destruct (alter _ _ _) eqn:Halt; [|done].
      by rewrite lookup_nil in Hat.
  - apply ret_inv in Hrun as [_ ->]. left.
    unfold first_min in Hmin. by destruct (Self.rooms s).
Qed.

Lemma populate_room_plain room g room' g' :
  populate_room config room g = Ok (room', g') ->
  Room.room_type room <> SECRET -> Room.room_type room' <> SECRET.
Proof.
  unfold populate_room. intros Hrun Hplain.
  destruct (bool_decide (Room.room_type room = ENTRANCE));
    [by apply ret_inv in Hrun as [-> _]|].
  destruct (bool_decide (Room.room_type room = BOSS));
    [by apply ret_inv in Hrun as [-> _]|].
  simpl in Hrun.
  apply bind_inv in Hrun as (roll & g1 & _ & Hrun).
  apply bind_inv in Hrun as (room1 & g2 & Hkind & Hrun).
  apply second_roll_content in Hrun.
  assert (Room.room_type room1 <> SECRET) as H1.
  { destruct (Qltb roll _).
    { apply bind_inv in Hkind as (es & g3 & _ & Hkind).
      by apply ret_inv in Hkind as [-> _]. }
    destruct (Qltb roll _).
    { apply bind_inv in Hkind as (pz & g3 & _ & Hkind).
      by apply ret_inv in Hkind as [-> _]. }
    destruct (Qltb roll _).
    { apply bind_inv in Hkind as (l0 & g3 & _ & Hkind).
      by apply ret_inv in Hkind as [-> _]. }
    by apply ret_inv in Hkind as [-> _]. }
  by destruct Hrun as [->|(_ & l & gA & gB & _ & ->)].
Qed.

Lemma populate_boss_plain room g room' g' :
  populate_boss config room g = Ok (room', g') ->
  Room.room_type room <> SECRET -> Room.room_type room' <> SECRET.
Proof.
  unfold populate_boss. intros Hrun Hplain.
  destruct (bool_decide (Room.room_type room = BOSS)).
  - apply bind_inv in Hrun as (l & g1 & _ & Hrun).
    by apply ret_inv in Hrun as [-> _].
  - by apply ret_inv in Hrun as [-> _].
Qed.

Definition plain (r : Room.t) : Prop := Room.room_type r <> SECRET.

Lemma _populate_rooms_plain s a s' :
  _populate_rooms config s = Ok (a, s') ->
  Forall plain (Self.rooms s) -> Forall plain (Self.rooms s').
Proof.
  unfold _populate_rooms. intros Hrun Hplain.
  apply bind_inv in Hrun as (s0 & ? & Hget & Hrun).
  apply get_state_inv in Hget as [-> ->].
  apply bind_inv in Hrun as (rs & s1 & H1 & Hrun).
  apply lift_rand_inv in H1 as (g1 & H1 & ->).
  apply bind_inv in Hrun as (? & s2 & Hset & Hrun).
  apply set_rooms_inv in Hset as ->.
  apply bind_inv in Hrun as (rs' & s3 & H2 & Hrun).
  apply lift_rand_inv in H2 as (g2 & H2 & ->).
  apply set_rooms_inv in Hrun as ->. simpl in *.
  apply (map_se_Forall2 _ (fun r r' => plain r -> plain r')) in H1;
    [|intros ????; apply populate_room_plain].
  apply (map_se_Forall2 _ (fun r r' => plain r -> plain r')) in H2;
    [|intros ????; apply populate_boss_plain].
  eapply Forall2_Forall_transfer; [|exact H2|].
  - intros r r' Hrr Hr. exact (Hrr Hr).
  - eapply Forall2_Forall_transfer; [|exact H1|exact Hplain].
    intros r r' Hrr Hr. exact (Hrr Hr).
Qed.

(** What holds, besides [built], after placement, connection, role
    assignment and content. *)
Record furnished (s : Self.t) : Prop := {
  fur_next : Self.next_room_id s = length (Self.rooms s);
  fur_ids : ids_ok (Self.rooms s);
  fur_margin : Forall (margin 2) (Self.rooms s);
  fur_size : Forall in_size (Self.rooms s);
  fur_plain : Forall plain (Self.rooms s);
  fur_content : Forall content_ok (Self.rooms s);
  fur_carved : Forall (carved_room (Self.grid s)) (Self.rooms s);
  fur_count :
    Z.of_nat (length (Self.rooms s)) <= Z.max 0 (Config.max_rooms config);
  fur_adjacency : adjacency_ok (Self.rooms s);
  fur_roles :
    Self.rooms s = [] \/
    exists ie ib,
      roles_at (Self.rooms s) ie ib /\
      extremal (map room_rect (Self.rooms s)) ie ib
}.

Lemma build_layout_furnished s a s' :
  build_layout config s = Ok (a, s') ->
  Self.rooms s = [] -> Self.next_room_id s = 0%nat -> furnished s'.
Proof.
  unfold build_layout. intros Hrun Hrooms Hnext.
  apply bind_inv in Hrun as (? & sA & HA & Hrun).
  apply bind_inv in Hrun as (? & sB & HB & Hrun).
  apply bind_inv in Hrun as (? & sC & HC & Hrun).
  apply bind_inv in Hrun as (? & sD & HD & HE).
  apply update_grid_inv in HA as (g0 & [= <-] & ->).
  (* placement *)
  pose proof (_generate_rooms_bsp_laid _ _ _ HB Hrooms)
    as [HlaidB HcarvedB HcountB].
  apply _generate_rooms_bsp_placed in HB as [[HnextB HidsB _ HfreshB] _].
  2:{ split; simpl; rewrite ?Hrooms, ?Hnext; done. }
  assert (adjacency_ok (Self.rooms sB)) as HadjB.
  { intros i r c Hi Hc.
    destruct (proj1 (Forall_lookup _ _) HfreshB i r Hi) as (_ & _ & Hnone & _).
    rewrite Hnone in Hc. by apply elem_of_nil in Hc. }
  (* connection *)
  pose proof (_connect_rooms_adjacency _ _ _ HC HidsB HadjB) as HadjC.
  apply _connect_rooms_reached in HC as [(HcC & HnextC & HwC) _]; [|done].
  pose proof (connects_ids_ok _ _ HcC HidsB) as HidsC.
  pose proof (Forall2_length _ _ _ HcC) as HlenC.
  assert (Forall (fun r => blank r /\ margin 2 r /\ in_size r /\
                           Room.room_type r = CORRIDOR) (Self.rooms sC))
    as HlaidC.
  { eapply Forall2_Forall_transfer;
      [|exact HcC|apply Forall_and; exact (conj HlaidB HfreshB)].
    intros r r' [e ->] ((? & ? & ?) & (? & _)). done. }
  assert (Forall (carved_room (Self.grid sC)) (Self.rooms sC)) as HcarvedC.
  { eapply Forall2_Forall_transfer; [|exact HcC|exact HcarvedB].
    intros r r' Hrr Hr.
    apply (carved_room_writes FLOOR (Self.grid sB)); [done|done|].
    eapply carved_room_rect; [|exact Hr]. by apply connects_rect. }
  (* roles *)
  pose proof (_place_special_rooms_extremal _ _ _ HD) as HrolesD.
  apply _place_special_rooms_inv in HD as (HgD & HnextD & _).
  assert (map room_rect (Self.rooms sD) = map room_rect (Self.rooms sC) /\
          map Room.connections (Self.rooms sD)
            = map Room.connections (Self.rooms sC) /\
          map Room.id (Self.rooms sD) = map Room.id (Self.rooms sC) /\
          Forall (fun r => blank r /\ margin 2 r /\ in_size r /\ plain r)
                 (Self.rooms sD) /\
          Forall (carved_room (Self.grid sC)) (Self.rooms sD))
    as (HrD & HcD & HiD & HlaidD & HcarvedD).
  { assert (Forall (fun r => blank r /\ margin 2 r /\ in_size r /\ plain r)
                   (Self.rooms sC)) as HlaidC'.
    { eapply Forall_impl; [exact HlaidC|].
      intros r (? & ? & ? & Hty). unfold plain. rewrite Hty. done. }
    destruct HrolesD as [[HC0 ->]|(ie & ib & e & _ & _ & _ & -> & _)].
    - by rewrite HC0 in *.
    - rewrite !alter_map_fixed by done.
      do 3 (split; [done|]).
      split.
      + apply Forall_alter; [apply Forall_alter; [done|]|];
          intros r _ (Hb & Hm & Hsz & Hp);
          (split; [exact Hb|]); (split; [exact Hm|]); (split; [exact Hsz|]);
          unfold plain; simpl; done.
      + repeat (apply Forall_alter; [|by intros ? _]). done. }
  (* content *)
  pose proof (_populate_rooms_content _ _ _ HE
                ltac:(eapply Forall_impl; [exact HlaidD|]; by intros ? [? _]))
    as HcontentE.
  pose proof (_populate_rooms_plain _ _ _ HE
                ltac:(eapply Forall_impl; [exact HlaidD|];
                      by intros ? (_ & _ & _ & ?)))
    as HplainE.
  apply _populate_rooms_populated in HE as (HgE & HnextE & HpE & _).
  pose proof (Forall2_populated_map room_rect _ _
                ltac:(by intros ?? (_ & ? & _)) HpE) as HrE.
  pose proof (Forall2_populated_map Room.connections _ _
                ltac:(by intros ?? ([= _ ?] & _)) HpE) as HcE.
  pose proof (Forall2_populated_map Room.id _ _
                ltac:(by intros ?? ([= ? _] & _)) HpE) as HiE.
  assert (length (Self.rooms s') = length (Self.rooms sB)) as Hlen.
  { rewrite <- (length_map Room.id), HiE, HiD, length_map. done. }
  split.
  - rewrite Hlen. congruence.
  - eapply ids_ok_ext; [exact HiE|]. eapply ids_ok_ext; [exact HiD|]. done.
  - eapply Forall2_Forall_transfer; [|exact HpE|exact HlaidD].
    intros r r' (_ & Hrect & _) (_ & ? & _). by eapply margin_rect.
  - eapply Forall2_Forall_transfer; [|exact HpE|exact HlaidD].
    intros r r' (_ & Hrect & _) (_ & _ & ? & _). by eapply in_size_rect.
  - done.
  - done.
  - rewrite HgE, HgD.
    eapply Forall2_Forall_transfer; [|exact HpE|exact HcarvedD].
    intros r r' (_ & Hrect & _) ?. by eapply carved_room_rect.
  - rewrite Hlen. done.
  - eapply adjacency_ok_ext; [exact HcE|].
    eapply adjacency_ok_ext; [exact HcD|]. done.
  - destruct HrolesD as [[HC0 HD0]|(ie & ib & e & Hie & He & Hmax & HD & Hext)].
    + left. rewrite HD0 in HpE. by inversion HpE.
    + right. exists ie, ib. split.
      * apply (populated_roles_at _ _ _ _ HpE). rewrite HD.
        eapply special_roles; [|done|done].
        eapply Forall_impl; [exact HlaidC|]. by intros r (_ & _ & _ & ?).
      * by rewrite HrE, HrD.
Qed.

(** ** The catalog and the grid at the end of the run *)

(** A secret room records no connection and has sides of 3 to 6 tiles. *)
Definition secret_ok (r : Room.t) : Prop :=
  Room.connections r = [] /\
  3 <= Room.width r <= 6 /\ 3 <= Room.height r <= 6.

Record finished (s1 s : Self.t) : Prop := {
  fin_ids : ids_ok (Self.rooms s);
  fin_margin : Forall (margin 1) (Self.rooms s);
  fin_content : Forall content_ok (Self.rooms s);
  fin_carved : Forall (carved_room (Self.grid s)) (Self.rooms s);
  fin_adjacency : adjacency_ok (Self.rooms s);
  fin_dims : grid_dims (Z.to_nat (Config.height config))
                       (Z.to_nat (Config.width config)) (Self.grid s);
  fin_tags : tiles_in grid_tag (Self.grid s);
  fin_tail :
    exists tail,
      Self.rooms s = Self.rooms s1 ++ tail /\ (length tail <= 1)%nat /\
      Forall (fun r => Room.room_type r = SECRET /\ secret_ok r) tail /\
      (0 <= Config.min_room_size config -> tail = [])
}.

Lemma secret_room_content x y w h i l gA gB :
  _generate_loot config (Room.new i SECRET x y w h) true false gA
    = Ok (l, gB) ->
  content_ok (Room.set_loot l (Room.new i SECRET x y w h)).
Proof.
  intros Hl. apply _generate_loot_from_table in Hl as (Hl1 & Hl2 & Hl3).
  unfold loot_bonus in Hl3.
  unfold content_ok, puzzle_ok, encounters_ok, loot_ok. simpl.
  content_done.
Qed.

Lemma adjacency_ok_snoc rs r :
  adjacency_ok rs -> Room.connections r = [] -> adjacency_ok (rs ++ [r]).
Proof.
  intros Hadj Hnone i r0 c Hi Hc.
  apply lookup_app_Some in Hi as [Hi|[_ Hi]].
  - destruct (Hadj i r0 c Hi Hc) as (Hne & r' & Hr' & Hback).
    split; [done|]. exists r'. split; [|done]. by apply lookup_app_l_Some.
  - apply list_lookup_singleton_Some in Hi as [_ <-].
    rewrite Hnone in Hc. by apply elem_of_nil in Hc.
Qed.

Lemma finish_furnished s1 s2 s3 :
  built config s1 -> furnished s1 ->
  _add_traps config s1 = Ok (tt, s2) ->
  _add_secret_rooms config s2 = Ok (tt, s3) ->
  finished s1 s3.
Proof.
  intros Hb Hf Htraps Hsecret.
  destruct (final_grid _ _ _ _ Hb Htraps Hsecret) as (Htags & _).
  apply _add_traps_count in Htraps as (Hr2 & Hn2 & Hw2 & _).
  pose proof (_add_secret_rooms_added _ _ _ _ Hsecret) as [[Hw3 _] Hsame].
  apply _add_secret_rooms_shape in Hsecret.
  destruct Hf as [Hnext Hids Hmargin Hsize Hplain Hcontent Hcarved Hcount
                    Hadj Hroles].
  assert (grid_dims (Z.to_nat (Config.height config))
                    (Z.to_nat (Config.width config)) (Self.grid s3)) as Hdims.
  { eapply writes_dims; [exact Hw3|]. eapply writes_dims; [exact Hw2|].
    by destruct Hb. }
  assert (Forall (margin 1) (Self.rooms s1)) as Hmargin1.
  { eapply Forall_impl; [exact Hmargin|]. unfold margin. intros r. lia. }
  assert (Forall (carved_room (Self.grid s3)) (Self.rooms s1)) as Hcarved3.
  { eapply Forall_impl; [exact Hcarved|]. intros r Hr.
    apply (carved_room_writes FLOOR (Self.grid s2)); [done|done|].
    by apply (carved_room_writes TRAP (Self.grid s1)). }
  unfold secret_shape, secret_placed in Hsecret.
  rewrite Hr2, Hn2 in *.
  destruct Hsecret as [(Hr3 & Hg3 & _)
                      |(w & h & Hw & Hh & x & y & l & gA & gB & Hx & Hy & Hxw
                        & Hyh & Hl & Hset & Hr3 & _)].
  - split; rewrite ?Hr3; try done.
    exists []. rewrite app_nil_r. split; [done|]. split; [simpl; lia|].
    split; [constructor | done].
  - assert (~ 0 <= Config.min_room_size config) as Hmin.
    { intros Hmin. rewrite Hsame in Hr3.
      - apply (f_equal length) in Hr3. rewrite length_app in Hr3.
        simpl in Hr3. lia.
      - eapply Forall_impl; [exact Hsize|].
        unfold in_size, nonneg_size. intros r. lia. }
    split; rewrite ?Hr3.
    + unfold ids_ok in *. rewrite map_app, length_app, Hids. simpl.
      rewrite Nat.add_1_r, seq_S. simpl. by rewrite Hnext.
    + apply Forall_app. split; [done|]. constructor; [|done].
      unfold margin. simpl. lia.
    + apply Forall_app. split; [done|]. constructor; [|done].
      eapply secret_room_content; eauto.
    + apply Forall_app. split; [done|]. constructor; [|done].
      intros c Hc. eapply set_tiles_open; eauto.
    + by apply adjacency_ok_snoc.
    + done.
    + done.
    + eexists [_]. split; [done|]. split; [simpl; lia|].
      split; [|done]. constructor; [|done].
      unfold secret_ok. simpl. repeat split; (done || lia).
Qed.

Lemma run_generator_finished seed global d :
  run_generator config seed global = Ok d ->
  exists sd s0 s1 s3,
    DungeonGenerator_init seed global = Ok (sd, s0) /\
    built config s1 /\ furnished s1 /\ finished s1 s3 /\
    d = _export config sd s3.
Proof.
  intros Hrun.
  apply run_generator_inv in Hrun
    as (sd & s0 & s1 & s2 & s3 & Hinit & Hlayout & Hbuilt & Htraps & Hsecret
        & ->).
  pose proof (DungeonGenerator_init_inv _ _ _ _ Hinit)
    as (Hrooms & Hnext & _).
  pose proof (build_layout_furnished _ _ _ Hlayout Hrooms Hnext) as Hf.
  exists sd, s0, s1, s3. split; [done|]. split; [done|]. split; [done|].
  split; [|done]. eapply finish_furnished; eauto.
Qed.
End Further.

(** ** The rooms of a generated dungeon *)

Lemma final_room_cases `{RandomGen} (config : Config.t) s1 s3 r :
  finished config s1 s3 -> r ∈ Self.rooms s3 ->
  r ∈ Self.rooms s1 \/ (Room.room_type r = SECRET /\ secret_ok r).
Proof.
  intros [_ _ _ _ _ _ _ (tail & -> & _ & Hsec & _)] Hr.
  apply elem_of_app in Hr as [Hr|Hr]; [by left|right].
  apply (proj1 (Forall_forall _ _) Hsec r Hr).
Qed.

Lemma not_secret_tag (r : Room.t) :
  RoomType_value (Room.room_type r) <> "secret"%string ->
  Room.room_type r <> SECRET.
Proof. intros Hne Hty. by rewrite Hty in Hne. Qed.

(** X1: Every room of a generated dungeon lies strictly inside the grid, at
    least one tile from each edge; every room other than a secret room keeps
    two tiles from each edge. *)
Theorem rooms_inside_grid `{RandomGen} (config : Config.t)
  (seed : option Z) (global : rng) (d : Output.t) :
  run_generator config seed global = Ok d ->
  forall r, r ∈ Output.rooms d ->
    (1 <= rx (RoomDict.bounds r) /\ 1 <= ry (RoomDict.bounds r) /\
     rx (RoomDict.bounds r) + rw (RoomDict.bounds r)
       <= Config.width config - 1 /\
     ry (RoomDict.bounds r) + rh (RoomDict.bounds r)
       <= Config.height config - 1) /\
    (RoomDict.type r <> "secret"%string ->
     2 <= rx (RoomDict.bounds r) /\ 2 <= ry (RoomDict.bounds r) /\
     rx (RoomDict.bounds r) + rw (RoomDict.bounds r)
       <= Config.width config - 2 /\
     ry (RoomDict.bounds r) + rh (RoomDict.bounds r)
       <= Config.height config - 2).
Proof.
  intros Hrun rd Hrd.
  apply run_generator_finished in Hrun
    as (sd & s0 & s1 & s3 & _ & _ & Hfur & Hfin & ->).
  simpl in Hrd. apply export_elem in Hrd as (r & Hr & ->). simpl.
  split.
  - apply (proj1 (Forall_forall _ _) (fin_margin _ _ _ Hfin) r Hr).
  - intros Hplain. apply not_secret_tag in Hplain.
    destruct (final_room_cases _ _ _ _ Hfin Hr) as [Hr1|[Hty _]]; [|done].
    apply (proj1 (Forall_forall _ _) (fur_margin _ _ Hfur) r Hr1).
Qed.

Lemma rooms_inside_grid_witness :
  exists r,
    Output.rooms cave_dungeon !! 3%nat = Some r /\
    (1 <= rx (RoomDict.bounds r) /\ 1 <= ry (RoomDict.bounds r) /\
     rx (RoomDict.bounds r) + rw (RoomDict.bounds r) <= 30 - 1 /\
     ry (RoomDict.bounds r) + rh (RoomDict.bounds r) <= 30 - 1) /\
    (RoomDict.type r <> "secret"%string ->
     2 <= rx (RoomDict.bounds r) /\ 2 <= ry (RoomDict.bounds r) /\
     rx (RoomDict.bounds r) + rw (RoomDict.bounds r) <= 30 - 2 /\
     ry (RoomDict.bounds r) + rh (RoomDict.bounds r) <= 30 - 2).
Proof.
  eexists. split; [reflexivity|].
  apply (@rooms_inside_grid cave_gen cave_config (Some 42) []
           cave_dungeon cave_run).
  apply (list_elem_of_lookup_2 _ 3%nat). reflexivity.
Defined.

(** X2: The sides of every room other than a secret room lie between
    [min_room_size] and [max_room_size]; the sides of a secret room measure
    3 to 6 tiles. *)
Theorem room_sizes_in_range `{RandomGen} (config : Config.t)
  (seed : option Z) (global : rng) (d : Output.t) :
  run_generator config seed global = Ok d ->
  forall r, r ∈ Output.rooms d ->
    if String.eqb (RoomDict.type r) "secret" then
      3 <= rw (RoomDict.bounds r) <= 6 /\ 3 <= rh (RoomDict.bounds r) <= 6
    else
      Config.min_room_size config <= rw (RoomDict.bounds r)
        <= Config.max_room_size config /\
      Config.min_room_size config <= rh (RoomDict.bounds r)
        <= Config.max_room_size config.
Proof.
  intros Hrun rd Hrd.
  apply run_generator_finished in Hrun
    as (sd & s0 & s1 & s3 & _ & _ & Hfur & Hfin & ->).
  simpl in Hrd. apply export_elem in Hrd as (r & Hr & ->). simpl.
  destruct (final_room_cases _ _ _ _ Hfin Hr) as [Hr1|[Hty (_ & Hw & Hh)]].
  - pose proof (proj1 (Forall_forall _ _) (fur_plain _ _ Hfur) r Hr1) as Hp.
    pose proof (proj1 (Forall_forall _ _) (fur_size _ _ Hfur) r Hr1) as Hs.
    unfold plain in Hp.
    destruct (Room.room_type r); simpl; done.
  - rewrite Hty. simpl. done.
Qed.

Lemma room_sizes_in_range_witness :
  exists r,
    Output.rooms cave_dungeon !! 2%nat = Some r /\
    4 <= rw (RoomDict.bounds r) <= 4 /\ 4 <= rh (RoomDict.bounds r) <= 4.
Proof.
  eexists. split; [reflexivity|].
  match goal with
  | |- context [RoomDict.bounds ?r] =>
      apply (@room_sizes_in_range cave_gen cave_config (Some 42) []
               cave_dungeon cave_run r)
  end.
  apply (list_elem_of_lookup_2 _ 2%nat). reflexivity.
Defined.

(** X3: A generated dungeon has at most [max_rooms] rooms and one secret
    room; when room sizes are not negative it has at most [max_rooms] rooms. *)
Theorem room_count_bounded `{RandomGen} (config : Config.t)
  (seed : option Z) (global : rng) (d : Output.t) :
  run_generator config seed global = Ok d ->
  Z.of_nat (length (Output.rooms d)) <= Z.max 0 (Config.max_rooms config) + 1
  /\ (0 <= Config.min_room_size config ->
      Z.of_nat (length (Output.rooms d))
        <= Z.max 0 (Config.max_rooms config)).
Proof.
  intros Hrun.
  apply run_generator_finished in Hrun
    as (sd & s0 & s1 & s3 & _ & _ & Hfur & Hfin & ->).
  simpl. rewrite length_map.
  destruct Hfin as [_ _ _ _ _ _ _ (tail & -> & Hlen & _ & Hnone)].
  pose proof (fur_count _ _ Hfur) as Hcount.
  rewrite length_app. split; [lia|].
  intros Hmin. rewrite (Hnone Hmin). simpl. lia.
Qed.

Lemma room_count_bounded_witness :
  Z.of_nat (length (Output.rooms cave_dungeon)) <= Z.max 0 4 + 1 /\
  (0 <= 4 -> Z.of_nat (length (Output.rooms cave_dungeon)) <= Z.max 0 4).
Proof.
  apply (@room_count_bounded cave_gen cave_config (Some 42) []
           cave_dungeon cave_run).
Defined.

(** X4: The identity of every room of a generated dungeon is its position in
    the room list; a secret room included. *)
Theorem room_ids_are_positions `{RandomGen} (config : Config.t)
  (seed : option Z) (global : rng) (d : Output.t) :
  run_generator config seed global = Ok d ->
  forall i r, Output.rooms d !! i = Some r -> RoomDict.id r = i.
Proof.
  intros Hrun i rd Hrd.
  apply run_generator_finished in Hrun
    as (sd & s0 & s1 & s3 & _ & _ & _ & Hfin & ->).
  simpl in Hrd. apply export_lookup in Hrd as (r & Hr & ->). simpl.
  eapply ids_ok_lookup; [|exact Hr]. by destruct Hfin.
Qed.

Lemma room_ids_are_positions_witness :
  exists r,
    Output.rooms cave_dungeon !! 2%nat = Some r /\ RoomDict.id r = 2%nat.
Proof.
  eexists. split; [reflexivity|].
  apply (@room_ids_are_positions cave_gen cave_config (Some 42) []
           cave_dungeon cave_run).
  reflexivity.
Defined.

(** X5: Recorded connections are mutual: every connection of a room names
    another room of the dungeon, never the room itself, and that room
    records the connection back. *)
Theorem connections_are_mutual `{RandomGen} (config : Config.t)
  (seed : option Z) (global : rng) (d : Output.t) :
  run_generator config seed global = Ok d ->
  forall i r c,
    Output.rooms d !! i = Some r -> c ∈ RoomDict.connections r ->
    c <> i /\
    exists r', Output.rooms d !! c = Some r' /\ i ∈ RoomDict.connections r'.
Proof.
  intros Hrun i rd c Hrd Hc.
  apply run_generator_finished in Hrun
    as (sd & s0 & s1 & s3 & _ & _ & _ & Hfin & ->).
  simpl in Hrd. apply export_lookup in Hrd as (r & Hr & ->). simpl in *.
  destruct (fin_adjacency _ _ _ Hfin i r c Hr Hc) as (Hne & r' & Hr' & Hback).
  split; [done|]. exists (export_room r'). split; [|done].
  change (map export_room (Self.rooms s3))
    with (export_room <$> Self.rooms s3).
  by rewrite list_lookup_fmap, Hr'.
Qed.

Lemma connections_are_mutual_witness :
  exists r,
    Output.rooms cave_dungeon !! 0%nat = Some r /\
    1%nat <> 0%nat /\
    exists r', Output.rooms cave_dungeon !! 1%nat = Some r' /\
               0%nat ∈ RoomDict.connections r'.
Proof.
  eexists. split; [reflexivity|].
  eapply (@connections_are_mutual cave_gen cave_config (Some 42) []
            cave_dungeon cave_run 0%nat).
  - reflexivity.
  - apply (list_elem_of_lookup_2 _ 0%nat). reflexivity.
Defined.

(** ** The content of the rooms *)

Lemma final_content `{RandomGen} (config : Config.t) s1 s3 r :
  finished config s1 s3 -> r ∈ Self.rooms s3 -> content_ok config r.
Proof.
  intros Hfin Hr.
  apply (proj1 (Forall_forall _ _) (fin_content _ _ _ Hfin) r Hr).
Qed.

(** X6: Every room of a generated dungeon carries one of the seven roles
    entrance, boss, combat, puzzle, treasure, safe and secret, never the
    placeholder role corridor nor the role skill_check, and its skill
    requirement is never set. *)
Theorem room_roles_assigned `{RandomGen} (config : Config.t)
  (seed : option Z) (global : rng) (d : Output.t) :
  run_generator config seed global = Ok d ->
  forall r, r ∈ Output.rooms d ->
    In (RoomDict.type r)
       ["entrance"; "boss"; "combat"; "puzzle"; "treasure"; "safe";
        "secret"]%string /\
    RoomDict.skill_requirement r = None.
Proof.
  intros Hrun rd Hrd.
  apply run_generator_finished in Hrun
    as (sd & s0 & s1 & s3 & _ & _ & _ & Hfin & ->).
  simpl in Hrd. apply export_elem in Hrd as (r & Hr & ->).
  destruct (final_content _ _ _ _ Hfin Hr) as (Hcorr & Hskill & Hnone & _).
  split; [|done]. simpl.
  destruct (Room.room_type r); simpl; tauto.
Qed.

Lemma room_roles_assigned_witness :
  exists r,
    Output.rooms cave_dungeon !! 1%nat = Some r /\
    In (RoomDict.type r)
       ["entrance"; "boss"; "combat"; "puzzle"; "treasure"; "safe";
        "secret"]%string /\
    RoomDict.skill_requirement r = None.
Proof.
  eexists. split; [reflexivity|].
  apply (@room_roles_assigned cave_gen cave_config (Some 42) []
           cave_dungeon cave_run).
  apply (list_elem_of_lookup_2 _ 1%nat). reflexivity.
Defined.



(** X8: The encounters of a combat room are monsters of the monster table,
    between 1 and max(1, area // 20) of them, and none when the table is
    empty; a room that is neither a combat room nor a boss room has no
    encounter. *)
Theorem monsters_in_combat_rooms `{RandomGen} (config : Config.t)
  (seed : option Z) (global : rng) (d : Output.t) :
  run_generator config seed global = Ok d ->
  forall r, r ∈ Output.rooms d ->
    (RoomDict.type r = "combat"%string ->
     Forall (monster_from_table config) (RoomDict.encounters r) /\
     (Config.monster_table config = [] -> RoomDict.encounters r = []) /\
     (Config.monster_table config <> [] ->
      1 <= Z.of_nat (length (RoomDict.encounters r))
        <= Z.max 1 (rw (RoomDict.bounds r) * rh (RoomDict.bounds r) / 20)))
    /\
    (RoomDict.type r <> "combat"%string ->
     RoomDict.type r <> "boss"%string -> RoomDict.encounters r = []).
Proof.
  intros Hrun rd Hrd.
  apply run_generator_finished in Hrun
    as (sd & s0 & s1 & s3 & _ & _ & _ & Hfin & ->).
  simpl in Hrd. apply export_elem in Hrd as (r & Hr & ->).
  destruct (final_content _ _ _ _ Hfin Hr) as (_ & _ & _ & _ & Henc & _).
  unfold encounters_ok in Henc. simpl.
  destruct (Room.room_type r); simpl; split; done.
Qed.

Lemma monsters_in_combat_rooms_witness :
  exists r,
    Output.rooms cave_dungeon !! 1%nat = Some r /\
    RoomDict.type r = "combat"%string /\
    Forall (monster_from_table cave_config) (RoomDict.encounters r) /\
    1 <= Z.of_nat (length (RoomDict.encounters r))
      <= Z.max 1 (rw (RoomDict.bounds r) * rh (RoomDict.bounds r) / 20).
Proof.
  eexists. split; [reflexivity|]. split; [reflexivity|].
  match goal with
  | |- context [RoomDict.bounds ?r] =>
      destruct (@monsters_in_combat_rooms cave_gen cave_config (Some 42) []
                  cave_dungeon cave_run r) as [(Hall & _ & Hlen) _]
  end.
  - apply (list_elem_of_lookup_2 _ 1%nat). reflexivity.
  - reflexivity.
  - split; [exact Hall|]. apply Hlen. discriminate.
Defined.

(** X9: Every loot record of a room names an item of the loot table, in a
    quantity between 1 and the maximum quantity of the item (a missing
    maximum counting as 1); the quantity is doubled in a boss room. With an
    empty loot table no room has loot. *)
Theorem loot_from_loot_table `{RandomGen} (config : Config.t)
  (seed : option Z) (global : rng) (d : Output.t) :
  run_generator config seed global = Ok d ->
  forall r, r ∈ Output.rooms d ->
    Forall (loot_from_table config (String.eqb (RoomDict.type r) "boss"))
           (RoomDict.loot r) /\
    (Config.loot_table config = [] -> RoomDict.loot r = []).
Proof.
  intros Hrun rd Hrd.
  apply run_generator_finished in Hrun
    as (sd & s0 & s1 & s3 & _ & _ & _ & Hfin & ->).
  simpl in Hrd. apply export_elem in Hrd as (r & Hr & ->).
  destruct (final_content _ _ _ _ Hfin Hr)
    as (_ & _ & _ & _ & _ & Hloot & Hnone & _).
  simpl. split; [|done].
  replace (String.eqb (RoomType_value (Room.room_type r)) "boss")
    with (bool_decide (Room.room_type r = BOSS)); [done|].
  destruct (Room.room_type r); reflexivity.
Qed.

Lemma loot_from_loot_table_witness :
  exists r,
    Output.rooms cave_dungeon !! 3%nat = Some r /\
    RoomDict.loot r <> [] /\
    Forall (loot_from_table cave_config true) (RoomDict.loot r).
Proof.
  eexists. split; [reflexivity|]. split; [discriminate|].
  match goal with
  | |- Forall _ (RoomDict.loot ?r) =>
      apply (@loot_from_loot_table cave_gen cave_config (Some 42) []
               cave_dungeon cave_run r)
  end.
  apply (list_elem_of_lookup_2 _ 3%nat). reflexivity.
Defined.

(** X10: The number of loot records follows the role of the room: none in
    the entrance, 3 to 5 in a treasure room or a secret room, 4 to 6 in a
    boss room, and at most 3 in a combat, puzzle or safe room; the lower
    bounds hold when the loot table is not empty. *)
Theorem loot_count_by_role `{RandomGen} (config : Config.t)
  (seed : option Z) (global : rng) (d : Output.t) :
  run_generator config seed global = Ok d ->
  forall r, r ∈ Output.rooms d ->
    (RoomDict.type r = "entrance"%string -> RoomDict.loot r = []) /\
    (RoomDict.type r = "treasure"%string \/
     RoomDict.type r = "secret"%string ->
     Config.loot_table config <> [] ->
     3 <= Z.of_nat (length (RoomDict.loot r)) <= 5) /\
    (RoomDict.type r = "boss"%string ->
     Config.loot_table config <> [] ->
     4 <= Z.of_nat (length (RoomDict.loot r)) <= 6) /\
    (RoomDict.type r = "combat"%string \/ RoomDict.type r = "puzzle"%string \/
     RoomDict.type r = "safe"%string ->
     Z.of_nat (length (RoomDict.loot r)) <= 3).
Proof.
  intros Hrun rd Hrd.
  apply run_generator_finished in Hrun
    as (sd & s0 & s1 & s3 & _ & _ & _ & Hfin & ->).
  simpl in Hrd. apply export_elem in Hrd as (r & Hr & ->).
  destruct (final_content _ _ _ _ Hfin Hr)
    as (_ & _ & _ & _ & _ & _ & _ & Hcount).
  simpl.
  destruct (Room.room_type r); simpl;
    (split; [try done|]); (split; [try (by intros [?|?])|]);
    (split; [try done|]); try (by intros [?|[?|?]]).
Qed.

Lemma loot_count_by_role_witness :
  exists r,
    Output.rooms cave_dungeon !! 3%nat = Some r /\
    RoomDict.type r = "boss"%string /\
    4 <= Z.of_nat (length (RoomDict.loot r)) <= 6.
Proof.
  eexists. split; [reflexivity|]. split; [reflexivity|].
  match goal with
  | |- context [RoomDict.loot ?r] =>
      destruct (@loot_count_by_role cave_gen cave_config (Some 42) []
                  cave_dungeon cave_run r) as (_ & _ & Hboss & _)
  end.
  - apply (list_elem_of_lookup_2 _ 3%nat). reflexivity.
  - apply Hboss; [reflexivity | discriminate].
Defined.

(** ** The grid of a generated dungeon *)

Lemma grid_get_nonneg (g : Grid) x y t :
  0 <= x -> 0 <= y -> grid_get g x y = Ok t ->
  exists row, g !! Z.to_nat y = Some row /\ row !! Z.to_nat x = Some t.
Proof.
  intros Hx Hy. unfold grid_get, py_index.
  rewrite (proj2 (Z.leb_le 0 y) Hy), (proj2 (Z.leb_le 0 x) Hx).
  rewrite (proj2 (Z.ltb_ge y 0) Hy), (proj2 (Z.ltb_ge x 0) Hx).
  rewrite !andb_false_r. simpl.
  destruct (y <? _); [|done].
  destruct (g !! Z.to_nat y) as [row|]; [|done].
  rewrite ?andb_false_r.
  destruct (x <? _); [|done].
  destruct (row !! Z.to_nat x) as [t'|] eqn:Ht; [|done].
  intros [= ->]. eauto.
Qed.

(** X11: The grid of a generated dungeon has [height] rows of [width] tiles
    each, the dimensions recorded in the metadata. *)
Theorem grid_has_configured_shape `{RandomGen} (config : Config.t)
  (seed : option Z) (global : rng) (d : Output.t) :
  run_generator config seed global = Ok d ->
  md_width (Output.metadata d) = Config.width config /\
  md_height (Output.metadata d) = Config.height config /\
  length (Output.grid d) = Z.to_nat (md_height (Output.metadata d)) /\
  forall row, row ∈ Output.grid d ->
    length row = Z.to_nat (md_width (Output.metadata d)).
Proof.
  intros Hrun.
  apply run_generator_finished in Hrun
    as (sd & s0 & s1 & s3 & _ & _ & _ & Hfin & ->).
  destruct (fin_dims _ _ _ Hfin) as [Hrows Hcols]. simpl.
  split; [done|]. split; [done|]. split; [by rewrite length_map|].
  intros row Hrow. apply list_elem_of_fmap in Hrow as (row0 & -> & Hrow0).
  rewrite length_map.
  apply (proj1 (Forall_forall _ _) Hcols row0 Hrow0).
Qed.

Lemma grid_has_configured_shape_witness :
  md_width (Output.metadata cave_dungeon) = 30 /\
  md_height (Output.metadata cave_dungeon) = 30 /\
  length (Output.grid cave_dungeon) = 30%nat /\
  forall row, row ∈ Output.grid cave_dungeon -> length row = 30%nat.
Proof.
  apply (@grid_has_configured_shape cave_gen cave_config (Some 42) []
           cave_dungeon cave_run).
Defined.

(** X12: Every tile inside the rectangle of a room of a generated dungeon is
    a floor tile or a trap tile: rooms are carved, and nothing walls a tile
    up again. *)
Theorem rooms_are_carved `{RandomGen} (config : Config.t)
  (seed : option Z) (global : rng) (d : Output.t) :
  run_generator config seed global = Ok d ->
  forall r x y, r ∈ Output.rooms d ->
    rx (RoomDict.bounds r) <= x
      < rx (RoomDict.bounds r) + rw (RoomDict.bounds r) ->
    ry (RoomDict.bounds r) <= y
      < ry (RoomDict.bounds r) + rh (RoomDict.bounds r) ->
    exists row tag,
      Output.grid d !! Z.to_nat y = Some row /\
      row !! Z.to_nat x = Some tag /\
      (tag = "floor" \/ tag = "trap")%string.
Proof.
  intros Hrun rd x y Hrd Hx Hy.
  apply run_generator_finished in Hrun
    as (sd & s0 & s1 & s3 & _ & _ & _ & Hfin & ->).
  pose proof (fin_tags _ _ _ Hfin) as Htags.
  simpl in Hrd. apply export_elem in Hrd as (r & Hr & ->). simpl in *.
  pose proof (proj1 (Forall_forall _ _) (fin_carved _ _ _ Hfin) r Hr) as Hopen.
  destruct (proj1 (Forall_forall _ _) (fin_margin _ _ _ Hfin) r Hr)
    as (Hmx & Hmy & _).
  destruct (Hopen (x, y)) as (t & Hget & Hne).
  { apply elem_of_cells. split; apply elem_of_range; lia. }
  simpl in Hget. apply grid_get_nonneg in Hget as (row & Hrow & Ht); [|lia..].
  exists (map TileType_value row), (TileType_value t).
  change (map (map TileType_value) (Self.grid s3))
    with (map TileType_value <$> Self.grid s3).
  change (map TileType_value row) with (TileType_value <$> row).
  rewrite !list_lookup_fmap, Hrow, Ht. split; [done|]. split; [done|].
  apply list_elem_of_lookup_2 in Hrow, Ht.
  pose proof (proj1 (Forall_forall _ _) Htags row Hrow) as Hrow_ok.
  destruct (proj1 (Forall_forall _ _) Hrow_ok t Ht) as [->|[->| ->]];
    [done | by left | by right].
Qed.

Lemma rooms_are_carved_witness :
  exists r,
    Output.rooms cave_dungeon !! 1%nat = Some r /\
    rx (RoomDict.bounds r) <= 9
      < rx (RoomDict.bounds r) + rw (RoomDict.bounds r) /\
    ry (RoomDict.bounds r) <= 3
      < ry (RoomDict.bounds r) + rh (RoomDict.bounds r) /\
    exists row tag,
      Output.grid cave_dungeon !! 3%nat = Some row /\
      row !! 9%nat = Some tag /\ (tag = "floor" \/ tag = "trap")%string.
Proof.
  eexists. split; [reflexivity|].
  match goal with
  | |- context [RoomDict.bounds ?r] =>
      pose proof (@rooms_are_carved cave_gen cave_config (Some 42) []
                    cave_dungeon cave_run r 9 3
                    (list_elem_of_lookup_2 (Output.rooms cave_dungeon)
                                           1%nat r eq_refl)) as Hcarved
  end.
  simpl in Hcarved. simpl.
  split; [lia|]. split; [lia|]. apply Hcarved; lia.
Defined.

(** ** The recorded seed *)




(** ** Secret rooms *)

(** X14: When room sizes are not negative no generated dungeon has a secret
    room, whatever the secret-room chance: every candidate position of the
    secret-room pass is rejected by the overlap test. *)
Theorem no_secret_room_for_proper_sizes `{RandomGen} (config : Config.t)
  (seed : option Z) (global : rng) (d : Output.t) :
  run_generator config seed global = Ok d ->
  0 <= Config.min_room_size config ->
  forall r, r ∈ Output.rooms d -> RoomDict.type r <> "secret"%string.
Proof.
  intros Hrun Hmin rd Hrd.
  apply run_generator_finished in Hrun
    as (sd & s0 & s1 & s3 & _ & _ & Hfur & Hfin & ->).
  simpl in Hrd. apply export_elem in Hrd as (r & Hr & ->). simpl.
  destruct Hfin as [_ _ _ _ _ _ _ (tail & Htail & _ & _ & Hnone)].
  rewrite Htail, (Hnone Hmin), app_nil_r in Hr.
  pose proof (proj1 (Forall_forall _ _) (fur_plain _ _ Hfur) r Hr) as Hp.
  change "secret"%string with (RoomType_value SECRET).
  by rewrite RoomType_value_eq.
Qed.

Lemma no_secret_room_for_proper_sizes_witness :
  exists r,
    Output.rooms cave_dungeon !! 2%nat = Some r /\
    RoomDict.type r <> "secret"%string.
Proof.
  eexists. split; [reflexivity|].
  apply (@no_secret_room_for_proper_sizes cave_gen cave_config (Some 42) []
           cave_dungeon cave_run).
  - simpl. lia.
  - apply (list_elem_of_lookup_2 _ 2%nat). reflexivity.
Defined.

Lemma negative_size_run :
  @run_generator negative_size_gen negative_size_config (Some 42) []
  = Ok negative_size_dungeon.
Proof. vm_compute. reflexivity. Qed.

(** X15: A secret room, which only a configuration of negative room sizes
    can get, is the last room of the dungeon and is cut off: it records no
    connection, no room records a connection to it, and it holds neither
    encounters nor a puzzle. *)
Theorem secret_room_is_cut_off `{RandomGen} (config : Config.t)
  (seed : option Z) (global : rng) (d : Output.t) :
  run_generator config seed global = Ok d ->
  forall i r, Output.rooms d !! i = Some r ->
    RoomDict.type r = "secret"%string ->
    Config.min_room_size config < 0 /\
    S i = length (Output.rooms d) /\
    RoomDict.connections r = [] /\
    (forall r', r' ∈ Output.rooms d -> i ∉ RoomDict.connections r') /\
    RoomDict.encounters r = [] /\ RoomDict.puzzle r = None.
Proof.
  intros Hrun i rd Hrd Hty.
  apply run_generator_finished in Hrun
    as (sd & s0 & s1 & s3 & _ & _ & Hfur & Hfin & ->).
  simpl in Hrd. apply export_lookup in Hrd as (r & Hr & ->). simpl in *.
  change "secret"%string with (RoomType_value SECRET) in Hty.
  apply RoomType_value_eq in Hty.
  pose proof (final_content _ _ _ _ Hfin (list_elem_of_lookup_2 _ _ _ Hr))
    as (_ & _ & _ & Hpz & Henc & _).
  pose proof (fin_adjacency _ _ _ Hfin) as Hadj.
  destruct Hfin as [_ _ _ _ _ _ _ (tail & Htail & Hlen & Hsec & Hnone)].
  assert (Room.connections r = [] /\ S i = length (Self.rooms s3) /\
          tail <> []) as (Hconn & Hlast & Hsome).
  { rewrite Htail in Hr |- *.
    apply lookup_app_Some in Hr as [Hr|[Hi Hr]].
    - apply list_elem_of_lookup_2 in Hr.
      by pose proof (proj1 (Forall_forall _ _) (fur_plain _ _ Hfur) r Hr).
    - apply lookup_lt_Some in Hr as Hlt.
      apply list_elem_of_lookup_2 in Hr as Hin.
      destruct (proj1 (Forall_forall _ _) Hsec r Hin) as (_ & Hc & _).
      split; [done|]. split; [rewrite length_app; lia|].
      intros ->. by apply elem_of_nil in Hin. }
  split; [|split; [|split; [|split; [|split]]]].
  - destruct (Z.lt_ge_cases (Config.min_room_size config) 0) as [?|Hmin];
      [done|]. by specialize (Hnone Hmin).
  - by rewrite length_map.
  - done.
  - intros rd' Hrd' Hin.
    apply export_elem in Hrd' as (r' & Hr' & ->). simpl in Hin.
    apply list_elem_of_lookup in Hr' as [j Hj].
    destruct (Hadj j r' i Hj Hin) as (_ & r2 & Hr2 & Hback).
    rewrite Hr in Hr2. injection Hr2 as <-.
    rewrite Hconn in Hback. by apply elem_of_nil in Hback.
  - unfold encounters_ok in Henc. by rewrite Hty in Henc.
  - unfold puzzle_ok in Hpz. rewrite Hty in Hpz.
    destruct (Room.puzzle r); [by destruct Hpz | done].
Qed.

Lemma secret_room_is_cut_off_witness :
  exists r,
    Output.rooms negative_size_dungeon !! 4%nat = Some r /\
    RoomDict.type r = "secret"%string /\
    -3 < 0 /\
    5%nat = length (Output.rooms negative_size_dungeon) /\
    RoomDict.connections r = [] /\
    (forall r', r' ∈ Output.rooms negative_size_dungeon ->
                4%nat ∉ RoomDict.connections r') /\
    RoomDict.encounters r = [] /\ RoomDict.puzzle r = None.
Proof.
  eexists. split; [reflexivity|]. split; [reflexivity|].
  apply (@secret_room_is_cut_off negative_size_gen negative_size_config
           (Some 42) [] negative_size_dungeon negative_size_run 4%nat).
  - reflexivity.
  - reflexivity.
Defined.

(** ** The entrance and the boss room *)

(** X16: The entrance of a generated dungeon is a room nearest to an edge of
    the grid, and the boss room a room farthest from the entrance, by the
    distance between room centers; secret rooms, which join the dungeon
    afterwards, are not counted. *)
Theorem entrance_nearest_boss_farthest `{RandomGen} (config : Config.t)
  (seed : option Z) (global : rng) (d : Output.t) :
  run_generator config seed global = Ok d ->
  forall e r, e ∈ Output.rooms d -> r ∈ Output.rooms d ->
    RoomDict.type e = "entrance"%string ->
    RoomDict.type r <> "secret"%string ->
    rect_edge_distance (Config.width config) (Config.height config)
                       (RoomDict.bounds e)
      <= rect_edge_distance (Config.width config) (Config.height config)
                            (RoomDict.bounds r) /\
    forall b, b ∈ Output.rooms d -> RoomDict.type b = "boss"%string ->
      rect_distance (RoomDict.bounds e) (RoomDict.bounds r)
        <= rect_distance (RoomDict.bounds e) (RoomDict.bounds b).
Proof.
  intros Hrun ed rd Hed Hrd Hent Hplain.
  apply run_generator_finished in Hrun
    as (sd & s0 & s1 & s3 & _ & _ & Hfur & Hfin & ->).
  simpl in Hed, Hrd.
  apply export_elem in Hed as (e & He & ->).
  apply export_elem in Hrd as (r & Hr & ->). simpl in *.
  change "entrance"%string with (RoomType_value ENTRANCE) in Hent.
  apply RoomType_value_eq in Hent. apply not_secret_tag in Hplain.
  destruct (final_room_cases _ _ _ _ Hfin He) as [He1|[Hty _]];
    [|congruence].
  destruct (final_room_cases _ _ _ _ Hfin Hr) as [Hr1|[Hty _]]; [|done].
  destruct (fur_roles _ _ Hfur)
    as [Hnil|(ie & ib & (_ & _ & Hroles) & re & rb & Hre & Hrb & Hext)];
    [rewrite Hnil in He1; by apply elem_of_nil in He1|].
  apply list_elem_of_lookup in He1 as [j Hj].
  destruct (Hroles j e Hj) as [Hje _].
  destruct (proj1 Hje Hent) as [-> Hne].
  change (map room_rect (Self.rooms s1)) with (room_rect <$> Self.rooms s1)
    in *.
  rewrite list_lookup_fmap, Hj in Hre. injection Hre as <-.
  assert (room_rect r ∈ room_rect <$> Self.rooms s1) as Hin
    by (apply list_elem_of_fmap; eauto).
  destruct (Hext _ Hin) as [Hedge Hdist]. split; [done|].
  intros bd Hbd Hboss.
  apply export_elem in Hbd as (b & Hb & ->). simpl in *.
  change "boss"%string with (RoomType_value BOSS) in Hboss.
  apply RoomType_value_eq in Hboss.
  destruct (final_room_cases _ _ _ _ Hfin Hb) as [Hb1|[Hty _]];
    [|congruence].
  apply list_elem_of_lookup in Hb1 as [k Hk].
  destruct (Hroles k b Hk) as [_ Hkb].
  destruct (proj1 Hkb Hboss).
  rewrite list_lookup_fmap, Hk in Hrb. injection Hrb as <-. done.
Qed.

Lemma entrance_nearest_boss_farthest_witness :
  exists e r b,
    Output.rooms cave_dungeon !! 0%nat = Some e /\
    Output.rooms cave_dungeon !! 1%nat = Some r /\
    Output.rooms cave_dungeon !! 3%nat = Some b /\
    RoomDict.type e = "entrance"%string /\
    RoomDict.type b = "boss"%string /\
    rect_edge_distance 30 30 (RoomDict.bounds e)
      <= rect_edge_distance 30 30 (RoomDict.bounds r) /\
    rect_distance (RoomDict.bounds e) (RoomDict.bounds r)
      <= rect_distance (RoomDict.bounds e) (RoomDict.bounds b).
Proof.
  eexists _, _, _. split; [reflexivity|]. split; [reflexivity|].
  split; [reflexivity|]. split; [reflexivity|]. split; [reflexivity|].
  match goal with
  | |- rect_edge_distance _ _ (RoomDict.bounds ?e)
         <= rect_edge_distance _ _ (RoomDict.bounds ?r) /\
       _ <= rect_distance _ (RoomDict.bounds ?b) =>
      destruct (@entrance_nearest_boss_farthest cave_gen cave_config
                  (Some 42) [] cave_dungeon cave_run e r) as [Hedge Hdist]
  end.
  - apply (list_elem_of_lookup_2 _ 0%nat). reflexivity.
  - apply (list_elem_of_lookup_2 _ 1%nat). reflexivity.
  - reflexivity.
  - discriminate.
  - split; [exact Hedge|]. apply Hdist; [|reflexivity].
    apply (list_elem_of_lookup_2 _ 3%nat). reflexivity.
Defined.

(** * The tiles the generator writes *)

(** The tile of column [i] and row [j]. *)
Definition tile_at (g : Grid) (i j : nat) : option TileType :=
  match g !! j with
  | Some row => row !! i
  | None => None
  end.

Definition nonneg_cell (c : Z * Z) : Prop := 0 <= fst c /\ 0 <= snd c.

Lemma tile_at_grid_get g i j t :
  tile_at g i j = Some t <-> grid_get g (Z.of_nat i) (Z.of_nat j) = Ok t.
Proof.
  unfold tile_at. split.
  - destruct (g !! j) as [row|] eqn:Hrow; [|done]. intros Ht.
    by eapply grid_get_nat.
  - intros Hget.
    apply grid_get_nonneg in Hget as (row & Hrow & Ht); [|lia..].
    rewrite !Nat2Z.id in *. by rewrite Hrow.
Qed.

(** An assignment [grid[y][x] = t] with indices that are not negative
    leaves the other tiles as they are. *)
Lemma grid_set_tile_at g x y t g' i j :
  grid_set g x y t = Ok g' -> 0 <= x -> 0 <= y ->
  (Z.of_nat i, Z.of_nat j) <> (x, y) ->
  tile_at g' i j = tile_at g i j.
Proof.
  intros Hset Hx Hy Hne. unfold grid_set, py_index in Hset.
  rewrite (proj2 (Z.leb_le 0 y) Hy), (proj2 (Z.ltb_ge y 0) Hy),
    andb_false_r in Hset.
  simpl in Hset. destruct (y <? _); [|done].
  destruct (g !! Z.to_nat y) as [row|] eqn:Hrow; [|done].
  rewrite (proj2 (Z.leb_le 0 x) Hx), (proj2 (Z.ltb_ge x 0) Hx),
    andb_false_r in Hset.
  simpl in Hset. destruct (x <? _); [|done]. injection Hset as <-.
  unfold tile_at. destruct (decide (j = Z.to_nat y)) as [->|Hj].
  - rewrite list_lookup_insert_eq by (by eapply lookup_lt_Some).
    rewrite Hrow. rewrite list_lookup_insert_ne; [done|].
    intros <-. apply Hne. f_equal; lia.
  - by rewrite list_lookup_insert_ne by done.
Qed.

Lemma set_tiles_tile_at cs t g g' i j :
  set_tiles cs t g = Ok g' -> Forall nonneg_cell cs ->
  (Z.of_nat i, Z.of_nat j) ∉ cs ->
  tile_at g' i j = tile_at g i j.
Proof.
  revert g. induction cs as [|[x y] cs IH]; simpl; intros g Hset Hcs Hnotin.
  - by injection Hset as <-.
  - destruct (grid_set g x y t) as [g1|] eqn:H1; [|done].
    inversion Hcs as [|?? [Hx Hy] Hcs']; subst. simpl in *.
    apply not_elem_of_cons in Hnotin as [Hne Hnotin].
    rewrite (IH g1 Hset Hcs' Hnotin). by eapply grid_set_tile_at.
Qed.

(** * Corridors *)

(** The cells of the loops of [_carve_h_corridor] and [_carve_v_corridor],
    before their bounds check. *)
Definition hline (x1 x2 y : Z) : list (Z * Z) :=
  map (fun x => (x, y)) (range (Z.min x1 x2) (Z.max x1 x2 + 1)).

Definition vline (y1 y2 x : Z) : list (Z * Z) :=
  map (fun y => (x, y)) (range (Z.min y1 y2) (Z.max y1 y2 + 1)).

(** The cells of the L-shaped corridor of [_carve_corridor] between the
    centers [a] and [b], by the outcome of its draw. *)
Definition corridor_cells (horizontal_first : bool) (a b : Z * Z)
  : list (Z * Z) :=
  if horizontal_first
  then hline (fst a) (fst b) (snd a) ++ vline (snd a) (snd b) (fst b)
  else vline (snd a) (snd b) (fst a) ++ hline (fst a) (fst b) (snd b).

Lemma elem_of_hline x1 x2 y c :
  c ∈ hline x1 x2 y <->
  snd c = y /\ Z.min x1 x2 <= fst c <= Z.max x1 x2.
Proof.
  unfold hline. split.
  - intros Hc. apply list_elem_of_fmap in Hc as (x & -> & Hx).
    apply elem_of_range in Hx. simpl. lia.
  - destruct c as [cx cy]. simpl. intros [<- Hx].
    apply list_elem_of_fmap. exists cx. split; [done|].
    apply elem_of_range. lia.
Qed.

Lemma elem_of_vline y1 y2 x c :
  c ∈ vline y1 y2 x <->
  fst c = x /\ Z.min y1 y2 <= snd c <= Z.max y1 y2.
Proof.
  unfold vline. split.
  - intros Hc. apply list_elem_of_fmap in Hc as (y & -> & Hy).
    apply elem_of_range in Hy. simpl. lia.
  - destruct c as [cx cy]. simpl. intros [<- Hy].
    apply list_elem_of_fmap. exists cy. split; [done|].
    apply elem_of_range. lia.
Qed.

Lemma corridor_cells_sym hf a b c :
  c ∈ corridor_cells hf a b -> c ∈ corridor_cells (negb hf) b a.
Proof.
  destruct hf; simpl; rewrite !elem_of_app, !elem_of_hline, !elem_of_vline;
    lia.
Qed.

Section Corridors.
Context `{RandomGen}.
Variable config : Config.t.

(** The cells of [cs] that pass the bounds check are not walls. *)
Definition open_cells (g : Grid) (cs : list (Z * Z)) : Prop :=
  forall c, c ∈ cs -> in_grid config c = true -> open_at g c.

(** An L-shaped corridor is open between the two centers. *)
Definition joined (g : Grid) (a b : Z * Z) : Prop :=
  exists horizontal_first, open_cells g (corridor_cells horizontal_first a b).

(** The corridor between [a] and [b] has been carved: its tiles are open,
    and no other tile has changed. *)
Definition carved_between (g g' : Grid) (a b : Z * Z) : Prop :=
  exists horizontal_first,
    open_cells g' (corridor_cells horizontal_first a b) /\
    forall i j,
      (Z.of_nat i, Z.of_nat j) ∉ corridor_cells horizontal_first a b ->
      tile_at g' i j = tile_at g i j.

Lemma carved_joined g g' a b : carved_between g g' a b -> joined g' a b.
Proof. intros (hf & Hopen & _). by exists hf. Qed.

Lemma joined_sym g a b : joined g a b -> joined g b a.
Proof.
  intros [hf Hopen]. exists (negb hf). intros c Hc.
  apply corridor_cells_sym in Hc. rewrite negb_involutive in Hc. auto.
Qed.

Lemma joined_writes t g g' a b :
  writes t g g' -> t <> WALL -> joined g a b -> joined g' a b.
Proof.
  intros Hw Ht [hf Hopen]. exists hf. intros c Hc Hin.
  eapply writes_open; eauto.
Qed.

Lemma carve_line_open cs s a s' :
  update_grid (set_tiles (List.filter (in_grid config) cs) FLOOR) s
    = Ok (a, s') ->
  writes FLOOR (Self.grid s) (Self.grid s') /\ open_cells (Self.grid s') cs /\
  Self.rooms s' = Self.rooms s /\
  Self.next_room_id s' = Self.next_room_id s /\
  forall i j, (Z.of_nat i, Z.of_nat j) ∉ cs ->
    tile_at (Self.grid s') i j = tile_at (Self.grid s) i j.
Proof.
  intros Hrun. apply update_grid_inv in Hrun as (g & Hset & ->). simpl.
  split; [by eapply set_tiles_writes|]. split; [|split; [done|split; [done|]]].
  - intros c Hc Hin. eapply set_tiles_open; [exact Hset | done |].
    apply list_elem_of_In, filter_In.
    split; [by apply list_elem_of_In | done].
  - intros i j Hnotin. eapply set_tiles_tile_at; [exact Hset | |].
    + apply Forall_forall. intros c Hc.
      apply list_elem_of_In, filter_In in Hc as [_ Hin].
      unfold in_grid in Hin.
      rewrite !andb_true_iff, !Z.leb_le in Hin. split; tauto.
    + intros Hc. apply Hnotin.
      apply list_elem_of_In, filter_In in Hc as [Hc _].
      by apply list_elem_of_In.
Qed.

Lemma _carve_corridor_joined r1 r2 s a s' :
  _carve_corridor config r1 r2 s = Ok (a, s') ->
  writes FLOOR (Self.grid s) (Self.grid s') /\
  carved_between (Self.grid s) (Self.grid s') (center r1) (center r2) /\
  Self.rooms s' = Self.rooms s /\
  Self.next_room_id s' = Self.next_room_id s.
Proof.
  unfold _carve_corridor. intros Hrun.
  apply bind_inv in Hrun as (roll & s0 & Hroll & Hrun).
  apply lift_rand_inv in Hroll as (g0 & _ & ->).
  destruct (Qltb roll (1 # 2));
    apply bind_inv in Hrun as (? & s1 & H1 & H2);
    apply carve_line_open in H1 as (Hw1 & Ho1 & Hr1 & Hn1 & Hk1);
    apply carve_line_open in H2 as (Hw2 & Ho2 & Hr2 & Hn2 & Hk2);
    simpl in *;
    (split; [eapply writes_trans; eassumption|]);
    (split; [|split; congruence]).
  - exists true. split.
    + intros c Hc Hin. simpl in Hc.
      apply elem_of_app in Hc as [Hc|Hc]; [|by apply Ho2].
      apply (writes_open FLOOR (Self.grid s1)); [done|done|]. by apply Ho1.
    + intros i j Hnotin. simpl in Hnotin.
      apply not_elem_of_app in Hnotin as [? ?]. rewrite Hk2, Hk1; done.
  - exists false. split.
    + intros c Hc Hin. simpl in Hc.
      apply elem_of_app in Hc as [Hc|Hc]; [|by apply Ho2].
      apply (writes_open FLOOR (Self.grid s1)); [done|done|]. by apply Ho1.
    + intros i j Hnotin. simpl in Hnotin.
      apply not_elem_of_app in Hnotin as [? ?]. rewrite Hk2, Hk1; done.
Qed.

(** One connection: the corridor between the rooms at [a] and [b] is
    carved, and each room records the other. *)
Definition link_step (a b : nat) (s s' : Self.t) : Prop :=
  exists ra rb,
    Self.rooms s !! a = Some ra /\ Self.rooms s !! b = Some rb /\
    writes FLOOR (Self.grid s) (Self.grid s') /\
    carved_between (Self.grid s) (Self.grid s') (center ra) (center rb) /\
    Self.next_room_id s' = Self.next_room_id s /\
    Self.rooms s' =
      alter (Room.append_connection a) b
            (alter (Room.append_connection b) a (Self.rooms s)).

(** [mst_loop] is a run of connections, each between a connected room and
    an unconnected one, which it moves to the connected rooms. *)
Lemma mst_loop_steps (I : list nat -> list nat -> Self.t -> Prop)
  fuel connected unconnected s a s' :
  (forall C U c u U' s0 s1,
     C <> [] -> c ∈ C -> u ∈ U -> set_remove u U = Ok U' ->
     link_step c u s0 s1 -> I C U s0 -> I (C ++ [u]) U' s1) ->
  mst_loop config fuel connected unconnected s = Ok (a, s') ->
  connected <> [] -> I connected unconnected s ->
  exists C, I C [] s'.
Proof.
  intros Hstep. revert connected unconnected s.
  induction fuel as [|fuel IH]; intros C U s Hrun HC HI;
    (destruct U as [|u0 U0]; simpl in Hrun;
     [apply ret_inv in Hrun as [_ ->]; by exists C|]).
  - discriminate.
  - apply bind_inv in Hrun as (s0 & ? & Hget & Hrun).
    apply get_state_inv in Hget as [-> ->].
    destruct (scan_pairs _ _ _ _) as [[bd [c u]]|] eqn:Hscan; [|discriminate].
    apply scan_pairs_first in Hscan; [|by apply pairs_of_nonempty].
    apply elem_of_pairs_of in Hscan as [Hc Hu].
    apply bind_inv in Hrun as (rc & ? & Hrc & Hrun).
    apply room_at_inv in Hrc as [Hrc ->].
    apply bind_inv in Hrun as (ru & ? & Hru & Hrun).
    apply room_at_inv in Hru as [Hru ->].
    apply bind_inv in Hrun as (? & s1 & Hcarve & Hrun).
    apply _carve_corridor_joined in Hcarve as (Hw & Hj & Hr1 & Hn1).
    apply bind_inv in Hrun as (? & s2 & Hc2 & Hrun).
    apply append_connection_at_inv in Hc2 as [_ ->].
    apply bind_inv in Hrun as (? & s3 & Hc3 & Hrun).
    apply append_connection_at_inv in Hc3 as [_ ->]. simpl in Hrun.
    destruct (set_remove u (u0 :: U0)) as [U'|] eqn:Hrem; [|discriminate].
    eapply IH; [exact Hrun | by destruct C |].
    eapply Hstep; [exact HC | exact Hc | exact Hu | exact Hrem | | exact HI].
    exists rc, ru. simpl. rewrite Hr1. done.
Qed.

(** [extra_connection] changes nothing, or connects two distinct rooms the
    first of which did not record the second. *)
Lemma extra_connection_step s a s' :
  extra_connection config s = Ok (a, s') -> ids_ok (Self.rooms s) ->
  (Self.rooms s' = Self.rooms s /\ Self.grid s' = Self.grid s /\
   Self.next_room_id s' = Self.next_room_id s) \/
  exists i1 i2 r1,
    i1 <> i2 /\ Self.rooms s !! i1 = Some r1 /\
    (i2 ∉ Room.connections r1) /\ link_step i1 i2 s s'.
Proof.
  unfold extra_connection. intros Hrun Hids.
  apply bind_inv in Hrun as (s0 & ? & Hget & Hrun).
  apply get_state_inv in Hget as [-> ->].
  apply bind_inv in Hrun as (i1 & sA & H1 & Hrun).
  apply lift_rand_inv in H1 as (gA & _ & ->).
  apply bind_inv in Hrun as (r1 & ? & Hr1 & Hrun).
  apply room_at_inv in Hr1 as [Hr1 ->].
  apply bind_inv in Hrun as (i2 & sB & H2 & Hrun).
  apply lift_rand_inv in H2 as (gB & _ & ->).
  apply bind_inv in Hrun as (r2 & ? & Hr2 & Hrun).
  apply room_at_inv in Hr2 as [Hr2 ->]. simpl in *.
  rewrite (ids_ok_lookup _ _ _ Hids Hr1), (ids_ok_lookup _ _ _ Hids Hr2)
    in Hrun.
  destruct (negb (i1 =? i2)%nat && _) eqn:Hcond.
  - apply andb_true_iff in Hcond as [Hne Hnew].
    apply negb_true_iff, Nat.eqb_neq in Hne.
    apply negb_true_iff, bool_decide_eq_false in Hnew.
    apply bind_inv in Hrun as (? & s1 & Hcarve & Hrun).
    apply _carve_corridor_joined in Hcarve as (Hw & Hj & Hrs & Hn1).
    apply bind_inv in Hrun as (? & s2 & Hc2 & Hc3).
    apply append_connection_at_inv in Hc2 as [_ ->].
    apply append_connection_at_inv in Hc3 as [_ ->]. simpl in *.
    right. exists i1, i2, r1. do 3 (split; [done|]).
    exists r1, r2. rewrite Hrs. done.
  - apply ret_inv in Hrun as [_ ->]. by left.
Qed.

(** ** Corridors stay open *)

(** Every recorded connection has its corridor. *)
Definition corridors_ok (g : Grid) (rs : list Room.t) : Prop :=
  forall i r c, rs !! i = Some r -> c ∈ Room.connections r ->
    exists r', rs !! c = Some r' /\ joined g (center r) (center r').

Lemma corridors_ok_writes t g g' rs :
  writes t g g' -> t <> WALL -> corridors_ok g rs -> corridors_ok g' rs.
Proof.
  intros Hw Ht Hok i r c Hi Hc.
  destruct (Hok i r c Hi Hc) as (r' & Hr' & Hj).
  exists r'. split; [done|]. by eapply joined_writes.
Qed.

Lemma corridors_ok_ext g rs rs' :
  map room_rect rs' = map room_rect rs ->
  map Room.connections rs' = map Room.connections rs ->
  corridors_ok g rs -> corridors_ok g rs'.
Proof.
  intros Hrect Hconn Hok i r' c Hi Hc.
  assert (forall l l' j (a : Room.t),
             map room_rect l' = map room_rect l -> l !! j = Some a ->
             exists a', l' !! j = Some a' /\ center a' = center a) as Hcenter.
  { intros l l' j a Heq Hj.
    destruct (lookup_map_eq room_rect l l' j a Heq Hj) as (a' & Ha' & Hr).
    exists a'. split; [done|]. unfold center.
    by injection Hr as -> -> -> ->. }
  destruct (lookup_map_eq Room.connections rs' rs i r' (eq_sym Hconn) Hi)
    as (r & Hr & Hcr).
  destruct (Hcenter rs' rs i r' (eq_sym Hrect) Hi) as (r0 & Hr0 & Hc0).
  rewrite Hr in Hr0. injection Hr0 as <-.
  rewrite <- Hcr in Hc.
  destruct (Hok i r c Hr Hc) as (r2 & Hr2 & Hj).
  destruct (Hcenter rs rs' c r2 Hrect Hr2) as (r2' & Hr2' & Hc2).
  exists r2'. split; [done|]. by rewrite <- Hc0, Hc2.
Qed.

Lemma corridors_ok_snoc g rs r :
  corridors_ok g rs -> Room.connections r = [] -> corridors_ok g (rs ++ [r]).
Proof.
  intros Hok Hnone i r0 c Hi Hc.
  apply lookup_app_Some in Hi as [Hi|[_ Hi]].
  - destruct (Hok i r0 c Hi Hc) as (r' & Hr' & Hj).
    exists r'. split; [|done]. by apply lookup_app_l_Some.
  - apply list_lookup_singleton_Some in Hi as [_ <-].
    rewrite Hnone in Hc. by apply elem_of_nil in Hc.
Qed.

Lemma link_step_corridors a b s s' :
  a <> b -> link_step a b s s' ->
  corridors_ok (Self.grid s) (Self.rooms s) ->
  corridors_ok (Self.grid s') (Self.rooms s').
Proof.
  intros Hab (ra & rb & Hra & Hrb & Hw & Hj & _ & Hrs) Hok.
  apply carved_joined in Hj.
  apply (corridors_ok_writes FLOOR _ _ _ Hw ltac:(done)) in Hok.
  rewrite Hrs.
  assert (forall k r, Self.rooms s !! k = Some r ->
            exists r', alter (Room.append_connection a) b
                         (alter (Room.append_connection b) a (Self.rooms s))
                         !! k = Some r' /\ center r' = center r) as Hkeep.
  { intros k r Hk.
    destruct (decide (k = b)) as [->|Hkb].
    - rewrite list_lookup_alter_eq, list_lookup_alter_ne, Hk by done.
      eexists. split; [done|]. done.
    - rewrite list_lookup_alter_ne by done.
      destruct (decide (k = a)) as [->|Hka].
      + rewrite list_lookup_alter_eq, Hk. eexists. split; [done|]. done.
      + rewrite list_lookup_alter_ne by done. eauto. }
  destruct (Hkeep a ra Hra) as (ra' & Hra' & Hca).
  destruct (Hkeep b rb Hrb) as (rb' & Hrb' & Hcb).
  assert (forall k r c, Self.rooms s !! k = Some r ->
            c ∈ Room.connections r ->
            exists r', alter (Room.append_connection a) b
                         (alter (Room.append_connection b) a (Self.rooms s))
                         !! c = Some r' /\
                       joined (Self.grid s') (center r) (center r')) as Hold.
  { intros k r c Hk Hc. destruct (Hok k r c Hk Hc) as (r2 & Hr2 & Hj2).
    destruct (Hkeep c r2 Hr2) as (r2' & Hr2' & Hc2).
    exists r2'. split; [done|]. by rewrite Hc2. }
  intros i r c Hi Hin.
  destruct (decide (i = b)) as [->|Hib].
  - rewrite list_lookup_alter_eq, list_lookup_alter_ne, Hrb in Hi by done.
    injection Hi as <-. simpl in Hin.
    apply elem_of_app in Hin as [Hin|Hin]; [by apply (Hold b rb)|].
    apply list_elem_of_singleton in Hin as ->.
    exists ra'. split; [done|]. rewrite Hca. by apply joined_sym.
  - rewrite list_lookup_alter_ne in Hi by done.
    destruct (decide (i = a)) as [->|Hia].
    + rewrite list_lookup_alter_eq, Hra in Hi. injection Hi as <-.
      simpl in Hin.
      apply elem_of_app in Hin as [Hin|Hin]; [by apply (Hold a ra)|].
      apply list_elem_of_singleton in Hin as ->.
      exists rb'. split; [done|]. by rewrite Hcb.
    + rewrite list_lookup_alter_ne in Hi by done. by apply (Hold i r).
Qed.

(** ** Connections are recorded once *)

(** No room records a connection twice. *)
Definition simple (rs : list Room.t) : Prop :=
  Forall (fun r => NoDup (Room.connections r)) rs.

(** What the connectivity builder keeps. *)
Definition wired (s : Self.t) : Prop :=
  ids_ok (Self.rooms s) /\ adjacency_ok (Self.rooms s) /\
  simple (Self.rooms s) /\ corridors_ok (Self.grid s) (Self.rooms s).

Lemma NoDup_snoc {A} (l : list A) x : NoDup l -> x ∉ l -> NoDup (l ++ [x]).
Proof.
  intros Hl Hx. apply NoDup_app. split; [done|]. split.
  - intros y Hy Hyx. apply list_elem_of_singleton in Hyx as ->. done.
  - apply NoDup_singleton.
Qed.

Lemma link_step_wired a b s s' :
  a <> b -> link_step a b s s' ->
  (forall ra, Self.rooms s !! a = Some ra -> b ∉ Room.connections ra) ->
  wired s -> wired s'.
Proof.
  intros Hab Hlink Hnew (Hids & Hadj & Hsimple & Hcorr).
  pose proof (link_step_corridors _ _ _ _ Hab Hlink Hcorr) as Hcorr'.
  destruct Hlink as (ra & rb & Hra & Hrb & _ & _ & _ & Hrs).
  split; [|split; [|split]]; [| | |done]; rewrite Hrs.
  - eapply connects_ids_ok; [|exact Hids].
    eapply Forall2_connects_trans; apply Forall2_connects_alter.
  - apply adjacency_link; eauto.
  - apply Forall_alter; [apply Forall_alter; [done|]|].
    + intros r Hr Hnd. rewrite Hra in Hr. injection Hr as <-. simpl.
      apply NoDup_snoc; [done|]. by apply Hnew.
    + intros r Hr Hnd. rewrite list_lookup_alter_ne, Hrb in Hr by done.
      injection Hr as <-. simpl. apply NoDup_snoc; [done|].
      intros Hin. destruct (Hadj b rb a Hrb Hin) as (_ & r' & Hr' & Hback).
      by apply (Hnew r' Hr').
Qed.

Lemma _connect_rooms_wired s a s' :
  _connect_rooms config s = Ok (a, s') ->
  ids_ok (Self.rooms s) ->
  Forall (fun r => Room.connections r = []) (Self.rooms s) ->
  wired s'.
Proof.
  unfold _connect_rooms. intros Hrun Hids Hnone.
  assert (wired s) as Hwired.
  { split; [done|]. split; [|split].
    - intros i r c Hi Hc.
      rewrite (proj1 (Forall_lookup _ _) Hnone i r Hi) in Hc.
      by apply elem_of_nil in Hc.
    - eapply Forall_impl; [exact Hnone|]. intros r ->. constructor.
    - intros i r c Hi Hc.
      rewrite (proj1 (Forall_lookup _ _) Hnone i r Hi) in Hc.
      by apply elem_of_nil in Hc. }
  apply bind_inv in Hrun as (s0 & ? & Hget & Hrun).
  apply get_state_inv in Hget as [-> ->].
  destruct (length (Self.rooms s) <? 2)%nat eqn:Hn;
    [by apply ret_inv in Hrun as [_ ->]|].
  apply bind_inv in Hrun as (? & s1 & Hmst & Hrun).
  apply bind_inv in Hrun as (n & s2 & Hdraw & Hrun).
  apply lift_rand_inv in Hdraw as (g & _ & ->).
  apply (mst_loop_steps
           (fun C U st =>
              wired st /\
              (forall u r, u ∈ U -> Self.rooms st !! u = Some r ->
                           Room.connections r = []) /\
              (forall v, v ∈ C -> v ∉ U))) in Hmst.
  - destruct Hmst as (C & Hw1 & _).
    eapply (repeat_se_inv wired) in Hrun; [done| |exact Hw1].
    intros st a1 st' Hbody Hst.
    destruct (extra_connection_step _ _ _ Hbody (proj1 Hst))
      as [(Hr & Hg & _)|(i1 & i2 & r1 & Hne & Hr1 & Hnew & Hlink)].
    + unfold wired. by rewrite Hr, Hg.
    + eapply link_step_wired; [exact Hne | exact Hlink | | exact Hst].
      intros ra Hra. rewrite Hr1 in Hra. by injection Hra as <-.
  - clear. intros C U c u U' s0 s1 HC Hc Hu Hrem Hlink (Hw & Hlonely & Hdisj).
    assert (c <> u) as Hcu by (intros ->; by apply (Hdisj u)).
    pose proof Hlink as (rc & ru & Hrc & Hru & _ & _ & _ & Hrs).
    split; [|split].
    + eapply link_step_wired; [exact Hcu | exact Hlink | | exact Hw].
      intros ra Hra Hin. destruct Hw as (_ & Hadj & _).
      destruct (Hadj c ra u Hra Hin) as (_ & r' & Hr' & Hback).
      rewrite (Hlonely u r' Hu Hr') in Hback. by apply elem_of_nil in Hback.
    + intros v r Hv Hr.
      apply (set_remove_sub _ _ _ _ Hrem) in Hv as Hv0.
      assert (v <> u) as Hvu
        by (intros ->; by apply (set_remove_notin _ _ _ Hrem)).
      assert (v <> c) as Hvc by (intros ->; by apply (Hdisj c)).
      rewrite Hrs, !list_lookup_alter_ne in Hr by done. eauto.
    + intros v Hv Hv'.
      apply (set_remove_sub _ _ _ _ Hrem) in Hv' as Hv0.
      apply elem_of_app in Hv as [Hv|Hv]; [by apply (Hdisj v)|].
      apply list_elem_of_singleton in Hv as ->.
      by apply (set_remove_notin _ _ _ Hrem).
  - done.
  - split; [done|]. split.
    + intros u r _ Hr. apply (proj1 (Forall_lookup _ _) Hnone u r Hr).
    + intros v Hv Hv'. apply list_elem_of_singleton in Hv as ->.
      apply elem_of_seq in Hv'. lia.
Qed.

Lemma simple_ext rs rs' :
  map Room.connections rs' = map Room.connections rs ->
  simple rs -> simple rs'.
Proof.
  intros Heq Hs. apply Forall_lookup. intros i r' Hi.
  destruct (lookup_map_eq Room.connections rs' rs i r' (eq_sym Heq) Hi)
    as (r & Hr & <-).
  apply (proj1 (Forall_lookup _ _) Hs i r Hr).
Qed.

(** ** The number of connections *)

(** The number of recorded connections, each corridor counting twice. *)
Definition degree_sum (rs : list Room.t) : nat :=
  sum_list (length <$> map Room.connections rs).

Lemma degree_sum_append c i rs r :
  rs !! i = Some r ->
  degree_sum (alter (Room.append_connection c) i rs) = S (degree_sum rs).
Proof.
  revert i. induction rs as [|r0 rs IH]; intros [|i] Hi; try done.
  - simpl in Hi. injection Hi as ->. unfold degree_sum. simpl.
    rewrite length_app. simpl. lia.
  - simpl in Hi. specialize (IH i Hi).
    change (length (Room.connections r0)
            + degree_sum (alter (Room.append_connection c) i rs)
            = S (length (Room.connections r0) + degree_sum rs))%nat.
    rewrite IH. lia.
Qed.

Lemma link_step_degree a b s s' :
  a <> b -> link_step a b s s' ->
  degree_sum (Self.rooms s') = (degree_sum (Self.rooms s) + 2)%nat.
Proof.
  intros Hab (ra & rb & Hra & Hrb & _ & _ & _ & ->).
  erewrite degree_sum_append;
    [|by rewrite list_lookup_alter_ne, Hrb by done].
  erewrite degree_sum_append; [|exact Hra]. lia.
Qed.

Lemma set_remove_exact u l l' :
  set_remove u l = Ok l' -> NoDup l ->
  NoDup l' /\ S (length l') = length l.
Proof.
  unfold set_remove. case_decide as Hu; [|done]. intros [= <-] Hnd.
  induction Hnd as [|v l Hv Hnd IH]; [by apply elem_of_nil in Hu|].
  simpl. destruct (Nat.eqb v u) eqn:Hvu; simpl.
  - apply Nat.eqb_eq in Hvu as ->.
    assert (List.filter (fun v => negb (v =? u)%nat) l = l) as ->; [|done].
    clear -Hv. induction l as [|w l IH]; [done|]. simpl.
    apply not_elem_of_cons in Hv as [Hne Hv].
    rewrite (proj2 (Nat.eqb_neq w u)) by done. simpl. by rewrite IH.
  - apply Nat.eqb_neq in Hvu.
    apply elem_of_cons in Hu as [->|Hu]; [done|].
    destruct (IH Hu) as [Hnd' Hlen]. split; [|lia].
    constructor; [|done]. intros Hin. apply Hv.
    apply list_elem_of_In, filter_In in Hin as [Hin _].
    by apply list_elem_of_In.
Qed.

Lemma repeat_se_count {S} (f : S -> nat) (P : S -> Prop) n
  (body : SE S unit) s a s' :
  (forall s1 a1 s2, body s1 = Ok (a1, s2) -> P s1 ->
     P s2 /\ (f s1 <= f s2 <= f s1 + 2)%nat) ->
  repeat_se n body s = Ok (a, s') -> P s ->
  (f s <= f s' <= f s + 2 * n)%nat.
Proof.
  intros Hbody. revert s. induction n as [|n IH]; simpl; intros s Hrun Hs.
  - apply ret_inv in Hrun as [_ ->]. lia.
  - apply bind_inv in Hrun as (? & s1 & H1 & Hrun).
    destruct (Hbody _ _ _ H1 Hs) as [Hs1 Hf1].
    specialize (IH _ Hrun Hs1). lia.
Qed.

(** A dungeon of [n] rooms has the [n - 1] corridors of the tree and at
    most [n // 4] more. *)
Definition corridor_count_ok (n : nat) (rs : list Room.t) : Prop :=
  ((n < 2)%nat -> degree_sum rs = 0%nat) /\
  ((2 <= n)%nat ->
   (2 * (n - 1) <= degree_sum rs <= 2 * (n - 1) + 2 * (n / 4))%nat).

Lemma _connect_rooms_degree s a s' :
  _connect_rooms config s = Ok (a, s') ->
  ids_ok (Self.rooms s) ->
  Forall (fun r => Room.connections r = []) (Self.rooms s) ->
  corridor_count_ok (length (Self.rooms s)) (Self.rooms s').
Proof.
  unfold _connect_rooms. intros Hrun Hids Hnone.
  assert (degree_sum (Self.rooms s) = 0%nat) as Hzero.
  { clear -Hnone. induction Hnone as [|r rs Hr _ IH]; [done|].
    change (length (Room.connections r) + degree_sum rs = 0)%nat.
    by rewrite Hr, IH. }
  apply bind_inv in Hrun as (s0 & ? & Hget & Hrun).
  apply get_state_inv in Hget as [-> ->].
  destruct (length (Self.rooms s) <? 2)%nat eqn:Hn.
  { apply ret_inv in Hrun as [_ ->]. apply Nat.ltb_lt in Hn.
    split; [done | lia]. }
  apply Nat.ltb_ge in Hn.
  apply bind_inv in Hrun as (? & s1 & Hmst & Hrun).
  apply bind_inv in Hrun as (k & s2 & Hdraw & Hrun).
  apply lift_rand_inv in Hdraw as (g & Hk & ->).
  apply randint_range in Hk.
  pose proof Hmst as Hlinked.
  apply mst_loop_reached in Hlinked as [(Hc1 & _) _]; [|done|done|].
  2:{ constructor; [|constructor]. split; [lia | reflexivity]. }
  pose proof (connects_ids_ok _ _ Hc1 Hids) as Hids1.
  apply (mst_loop_steps
           (fun C U st =>
              (degree_sum (Self.rooms st) + 2 = 2 * length C)%nat /\
              NoDup U /\
              (length C + length U = length (Self.rooms s))%nat /\
              (forall v, v ∈ C -> v ∉ U))) in Hmst.
  - destruct Hmst as (C & Hdeg & _ & Hlen & _). simpl in Hlen.
    apply (repeat_se_count (fun st => degree_sum (Self.rooms st))
                           (fun st => ids_ok (Self.rooms st))) in Hrun;
      [| |exact Hids1].
    + simpl in Hrun. split; [lia|]. intros _.
      assert (Z.to_nat k <= length (Self.rooms s) / 4)%nat; [|lia].
      apply Nat2Z.inj_le. rewrite Nat2Z.inj_div. simpl. lia.
    + clear. intros st a1 st' Hbody Hst.
      destruct (extra_connection_step _ _ _ Hbody Hst)
        as [(Hr & _)|(i1 & i2 & r1 & Hne & _ & _ & Hlink)].
      * rewrite Hr. split; [done | lia].
      * rewrite (link_step_degree _ _ _ _ Hne Hlink). split; [|lia].
        destruct Hlink as (ra & rb & _ & _ & _ & _ & _ & ->).
        eapply connects_ids_ok; [|exact Hst].
        eapply Forall2_connects_trans; apply Forall2_connects_alter.
  - clear. intros C U c u U' s0 s1 HC Hc Hu Hrem Hlink
             (Hdeg & Hnd & Hlen & Hdisj).
    assert (c <> u) as Hcu by (intros ->; by apply (Hdisj u)).
    destruct (set_remove_exact _ _ _ Hrem Hnd) as [Hnd' Hlen'].
    rewrite (link_step_degree _ _ _ _ Hcu Hlink), length_app. simpl.
    split; [lia|]. split; [done|]. split; [lia|].
    intros v Hv Hv'.
    apply (set_remove_sub _ _ _ _ Hrem) in Hv' as Hv0.
    apply elem_of_app in Hv as [Hv|Hv]; [by apply (Hdisj v)|].
    apply list_elem_of_singleton in Hv as ->.
    by apply (set_remove_notin _ _ _ Hrem).
  - done.
  - rewrite Hzero, length_seq. simpl. split; [done|].
    split; [apply NoDup_seq|]. split; [lia|].
    intros v Hv Hv'. apply list_elem_of_singleton in Hv as ->.
    apply elem_of_seq in Hv'. lia.
Qed.

Lemma degree_sum_ext rs rs' :
  map Room.connections rs' = map Room.connections rs ->
  degree_sum rs' = degree_sum rs.
Proof. unfold degree_sum. by intros ->. Qed.

Lemma degree_sum_snoc rs r :
  Room.connections r = [] -> degree_sum (rs ++ [r]) = degree_sum rs.
Proof.
  intros Hnone. unfold degree_sum.
  rewrite map_app, fmap_app, sum_list_with_app. simpl.
  rewrite Hnone. simpl. lia.
Qed.

(** The catalog and the grid at the end of the run: every connection is
    recorded once and has its corridor. *)
Lemma layout_wired s0 s1 s2 s3 :
  build_layout config s0 = Ok (tt, s1) ->
  Self.rooms s0 = [] -> Self.next_room_id s0 = 0%nat ->
  _add_traps config s1 = Ok (tt, s2) ->
  _add_secret_rooms config s2 = Ok (tt, s3) ->
  simple (Self.rooms s3) /\ corridors_ok (Self.grid s3) (Self.rooms s3) /\
  corridor_count_ok (length (Self.rooms s1)) (Self.rooms s3).
Proof.
  intros Hlayout Hrooms Hnext Htraps Hsecret.
  unfold build_layout in Hlayout.
  apply bind_inv in Hlayout as (? & sA & HA & Hlayout).
  apply bind_inv in Hlayout as (? & sB & HB & Hlayout).
  apply bind_inv in Hlayout as (? & sC & HC & Hlayout).
  apply bind_inv in Hlayout as (? & sD & HD & HE).
  apply update_grid_inv in HA as (g0 & [= <-] & ->).
  apply _generate_rooms_bsp_placed in HB as [[_ HidsB _ HfreshB] _].
  2:{ split; simpl; rewrite ?Hrooms, ?Hnext; done. }
  assert (Forall (fun r => Room.connections r = []) (Self.rooms sB))
    as HnoneB
    by (eapply Forall_impl; [exact HfreshB|]; by intros r (_ & _ & ? & _)).
  pose proof (_connect_rooms_degree _ _ _ HC HidsB HnoneB) as HdegC.
  pose proof HC as HlenC.
  apply _connect_rooms_reached in HlenC as [(HlenC & _) _]; [|done].
  apply Forall2_length in HlenC.
  apply _connect_rooms_wired in HC as (_ & _ & HsimpleC & HcorrC); [|done..].
  apply _place_special_rooms_inv in HD as (HgD & _ & HD).
  assert (map room_rect (Self.rooms sD) = map room_rect (Self.rooms sC) /\
          map Room.connections (Self.rooms sD)
            = map Room.connections (Self.rooms sC)) as [HrD HcD].
  { destruct HD as [[HC0 ->]|(ie & ib & e & _ & _ & _ & ->)].
    - by rewrite HC0.
    - by rewrite !alter_map_fixed. }
  apply _populate_rooms_populated in HE as (HgE & _ & HpE & _).
  pose proof (Forall2_populated_map room_rect _ _
                ltac:(by intros ?? (_ & ? & _)) HpE) as HrE.
  pose proof (Forall2_populated_map Room.connections _ _
                ltac:(by intros ?? ([= _ ?] & _)) HpE) as HcE.
  assert (simple (Self.rooms s1) /\
          corridors_ok (Self.grid s1) (Self.rooms s1) /\
          corridor_count_ok (length (Self.rooms s1)) (Self.rooms s1))
    as (Hsimple1 & Hcorr1 & Hdeg1).
  { split; [|split].
    - eapply simple_ext; [exact HcE|]. by eapply simple_ext.
    - rewrite HgE, HgD.
      eapply corridors_ok_ext; [exact HrE | exact HcE |].
      by eapply corridors_ok_ext.
    - unfold corridor_count_ok.
      rewrite (degree_sum_ext _ _ HcE), (degree_sum_ext _ _ HcD).
      rewrite <- (length_map Room.connections (Self.rooms s1)), HcE, HcD,
        length_map, <- HlenC.
      exact HdegC. }
  apply _add_traps_count in Htraps as (Hr2 & Hn2 & Hw2 & _).
  pose proof (_add_secret_rooms_added _ _ _ _ Hsecret) as [[Hw3 _] _].
  apply _add_secret_rooms_shape in Hsecret.
  assert (corridors_ok (Self.grid s3) (Self.rooms s1)) as Hcorr3.
  { apply (corridors_ok_writes FLOOR (Self.grid s2)); [done|done|].
    by apply (corridors_ok_writes TRAP (Self.grid s1)). }
  unfold secret_shape, secret_placed in Hsecret. rewrite Hr2 in Hsecret.
  destruct Hsecret as [(-> & _)
                      |(w & h & _ & _ & px & py & l & gA & gB & _ & _ & _
                        & _ & _ & _ & -> & _)].
  - done.
  - split; [|split].
    + apply Forall_app. split; [done|]. constructor; [|done]. constructor.
    + by apply corridors_ok_snoc.
    + unfold corridor_count_ok. by rewrite degree_sum_snoc.
Qed.

Lemma run_generator_complete seed global d :
  run_generator config seed global = Ok d ->
  exists sd s1 s3,
    built config s1 /\ furnished config s1 /\ finished config s1 s3 /\
    simple (Self.rooms s3) /\ corridors_ok (Self.grid s3) (Self.rooms s3) /\
    corridor_count_ok (length (Self.rooms s1)) (Self.rooms s3) /\
    d = _export config sd s3.
Proof.
  intros Hrun.
  apply run_generator_inv in Hrun
    as (sd & s0 & s1 & s2 & s3 & Hinit & Hlayout & Hbuilt & Htraps & Hsecret
        & ->).
  apply DungeonGenerator_init_inv in Hinit as (Hrooms & Hnext & _).
  pose proof (build_layout_furnished _ _ _ _ Hlayout Hrooms Hnext) as Hfur.
  pose proof (finish_furnished _ _ _ _ Hbuilt Hfur Htraps Hsecret) as Hfin.
  destruct (layout_wired _ _ _ _ Hlayout Hrooms Hnext Htraps Hsecret)
    as (Hsimple & Hcorr & Hcount).
  exists sd, s1, s3. done.
Qed.

(** ** No stray open tile *)

(** The tile lies in a room. *)
Definition in_room (rs : list Room.t) (c : Z * Z) : Prop :=
  exists r, r ∈ rs /\ c ∈ room_cells r.

(** The tile lies on the corridor of a recorded connection. *)
Definition on_corridor (rs : list Room.t) (c : Z * Z) : Prop :=
  exists i r k r' horizontal_first,
    rs !! i = Some r /\ k ∈ Room.connections r /\ rs !! k = Some r' /\
    c ∈ corridor_cells horizontal_first (center r) (center r').

(** Every tile that is not a wall lies in a room or on a corridor. *)
Definition covered (g : Grid) (rs : list Room.t) : Prop :=
  forall i j t, tile_at g i j = Some t -> t <> WALL ->
    in_room rs (Z.of_nat i, Z.of_nat j) \/
    on_corridor rs (Z.of_nat i, Z.of_nat j).

(** The catalog [rs'] keeps the rooms of [rs], their rectangles and their
    connections. *)
Definition grows (rs rs' : list Room.t) : Prop :=
  forall i r, rs !! i = Some r ->
    exists r', rs' !! i = Some r' /\ room_rect r' = room_rect r /\
               forall k, k ∈ Room.connections r -> k ∈ Room.connections r'.

Lemma grows_refl rs : grows rs rs.
Proof. intros i r Hi. by exists r. Qed.

Lemma grows_connects rs rs' : Forall2 connects rs rs' -> grows rs rs'.
Proof.
  intros Hc i r Hi.
  destruct (Forall2_lookup_l _ _ _ _ _ Hc Hi) as (r' & Hi' & [extra ->]).
  eexists. split; [done|]. split; [done|].
  intros k Hk. simpl. apply elem_of_app. by left.
Qed.

Lemma grows_ext rs rs' :
  map room_rect rs' = map room_rect rs ->
  map Room.connections rs' = map Room.connections rs ->
  grows rs rs'.
Proof.
  intros Hrect Hconn i r Hi.
  destruct (lookup_map_eq room_rect rs rs' i r Hrect Hi) as (r' & Hi' & Hr).
  destruct (lookup_map_eq Room.connections rs rs' i r Hconn Hi)
    as (r2 & Hi2 & Hc).
  rewrite Hi' in Hi2. injection Hi2 as <-.
  exists r'. split; [done|]. split; [done|]. intros k. by rewrite Hc.
Qed.

Lemma grows_snoc rs r : grows rs (rs ++ [r]).
Proof.
  intros i r0 Hi. exists r0. split; [by apply lookup_app_l_Some | done].
Qed.

Lemma center_rect r r' : room_rect r' = room_rect r -> center r' = center r.
Proof. unfold center. by intros [= -> -> -> ->]. Qed.

Lemma in_room_grows rs rs' c : grows rs rs' -> in_room rs c -> in_room rs' c.
Proof.
  intros Hg (r & Hr & Hc). apply list_elem_of_lookup in Hr as [i Hi].
  destruct (Hg i r Hi) as (r' & Hi' & Hrect & _).
  exists r'. split; [by eapply list_elem_of_lookup_2|].
  by rewrite (room_cells_rect _ _ Hrect).
Qed.

Lemma on_corridor_grows rs rs' c :
  grows rs rs' -> on_corridor rs c -> on_corridor rs' c.
Proof.
  intros Hg (i & r & k & r2 & hf & Hi & Hk & Hk2 & Hc).
  destruct (Hg i r Hi) as (r' & Hi' & Hrect & Hconn).
  destruct (Hg k r2 Hk2) as (r2' & Hk2' & Hrect2 & _).
  exists i, r', k, r2', hf. split; [done|]. split; [by apply Hconn|].
  split; [done|].
  by rewrite (center_rect _ _ Hrect), (center_rect _ _ Hrect2).
Qed.

(** A step that changes only the tiles [new], each of them in a room or on
    a corridor, keeps the grid covered. *)
Lemma covered_step (new : list (Z * Z)) g g' rs rs' :
  grows rs rs' ->
  (forall i j, (Z.of_nat i, Z.of_nat j) ∉ new ->
               tile_at g' i j = tile_at g i j) ->
  (forall c, c ∈ new -> in_room rs' c \/ on_corridor rs' c) ->
  covered g rs -> covered g' rs'.
Proof.
  intros Hg Hsame Hnew Hcov i j t Ht Hne.
  destruct (decide ((Z.of_nat i, Z.of_nat j) ∈ new)) as [Hin|Hout];
    [by apply Hnew|].
  rewrite (Hsame i j Hout) in Ht.
  destruct (Hcov i j t Ht Hne) as [Hr|Hc];
    [left; by eapply in_room_grows | right; by eapply on_corridor_grows].
Qed.

Lemma covered_grows g rs rs' : grows rs rs' -> covered g rs -> covered g rs'.
Proof.
  intros Hg. apply (covered_step []); [done|done|].
  intros c Hc. by apply elem_of_nil in Hc.
Qed.

Lemma covered_init : covered (init_grid config) [].
Proof.
  intros i j t Ht Hne. exfalso. apply Hne. unfold tile_at in Ht.
  destruct (init_grid config !! j) as [row|] eqn:Hrow; [|done].
  pose proof (proj1 (Forall_lookup _ _) (init_grid_tiles config) j row Hrow)
    as Hwalls.
  apply (proj1 (Forall_lookup _ _) Hwalls i t Ht).
Qed.

(** A room of which the corner is not negative is carved and joins the
    catalog. *)
Lemma covered_room g g' rs room :
  0 <= Room.x room -> 0 <= Room.y room ->
  set_tiles (room_cells room) FLOOR g = Ok g' ->
  covered g rs -> covered g' (rs ++ [room]).
Proof.
  intros Hx Hy Hset. apply (covered_step (room_cells room)).
  - apply grows_snoc.
  - intros i j Hout. eapply set_tiles_tile_at; [exact Hset | | exact Hout].
    apply Forall_forall. intros [cx cy] Hc.
    apply elem_of_cells in Hc as [Hcx Hcy].
    apply elem_of_range in Hcx. apply elem_of_range in Hcy.
    split; simpl; lia.
  - intros c Hc. left. exists room. split; [|done].
    apply elem_of_app. right. by left.
Qed.

Lemma place_loop_covered n num_rooms s a s' :
  place_loop config n num_rooms s = Ok (a, s') ->
  covered (Self.grid s) (Self.rooms s) ->
  covered (Self.grid s') (Self.rooms s').
Proof.
  revert s. induction n as [|n IH]; simpl; intros s Hrun Hs.
  - by apply ret_inv in Hrun as [_ ->].
  - apply bind_inv in Hrun as (s0 & ? & Hget & Hrun).
    apply get_state_inv in Hget as [-> ->].
    destruct (num_rooms <=? _); [by apply ret_inv in Hrun as [_ ->]|].
    apply bind_inv in Hrun as (? & s1 & Htrial & Hrun).
    eapply IH; [exact Hrun|].
    apply place_trial_inv in Htrial
      as [(Hr & _ & Hg)
         |(px & py & w & h & _ & _ & Hx & Hy & Hset & Hr & _)].
    + by rewrite Hr, Hg.
    + rewrite Hr. eapply covered_room; [| |exact Hset|exact Hs]; simpl; lia.
Qed.

Lemma link_step_covered a b s s' :
  a <> b -> link_step a b s s' ->
  covered (Self.grid s) (Self.rooms s) ->
  covered (Self.grid s') (Self.rooms s').
Proof.
  intros Hab (ra & rb & Hra & Hrb & _ & (hf & _ & Hsame) & _ & Hrs).
  rewrite Hrs.
  apply (covered_step (corridor_cells hf (center ra) (center rb))).
  - apply grows_connects.
    eapply Forall2_connects_trans; apply Forall2_connects_alter.
  - exact Hsame.
  - intros c Hc. right.
    exists a, (Room.append_connection b ra), b,
           (Room.append_connection a rb), hf.
    split; [|split; [|split]].
    + by rewrite list_lookup_alter_ne, list_lookup_alter_eq, Hra by done.
    + simpl. apply elem_of_app. right. by left.
    + by rewrite list_lookup_alter_eq, list_lookup_alter_ne, Hrb by done.
    + done.
Qed.

Lemma _connect_rooms_covered s a s' :
  _connect_rooms config s = Ok (a, s') ->
  ids_ok (Self.rooms s) ->
  covered (Self.grid s) (Self.rooms s) ->
  covered (Self.grid s') (Self.rooms s').
Proof.
  unfold _connect_rooms. intros Hrun Hids Hcov.
  apply bind_inv in Hrun as (s0 & ? & Hget & Hrun).
  apply get_state_inv in Hget as [-> ->].
  destruct (length (Self.rooms s) <? 2)%nat eqn:Hn;
    [by apply ret_inv in Hrun as [_ ->]|].
  apply Nat.ltb_ge in Hn.
  apply bind_inv in Hrun as (? & s1 & Hmst & Hrun).
  apply bind_inv in Hrun as (k & s2 & Hdraw & Hrun).
  apply lift_rand_inv in Hdraw as (g & _ & ->).
  pose proof Hmst as Hlinked.
  apply mst_loop_reached in Hlinked as [(Hc1 & _) _]; [|done|done|].
  2:{ constructor; [|constructor]. split; [lia | reflexivity]. }
  pose proof (connects_ids_ok _ _ Hc1 Hids) as Hids1.
  apply (mst_loop_steps
           (fun C U st =>
              covered (Self.grid st) (Self.rooms st) /\
              (forall v, v ∈ C -> v ∉ U))) in Hmst.
  - destruct Hmst as (C & Hcov1 & _).
    apply (repeat_se_inv
             (fun st => ids_ok (Self.rooms st) /\
                        covered (Self.grid st) (Self.rooms st))) in Hrun;
      [by destruct Hrun | | done].
    clear. intros st a1 st' Hbody [Hst Hcov].
    destruct (extra_connection_step _ _ _ Hbody Hst)
      as [(Hr & Hg & _)|(i1 & i2 & r1 & Hne & _ & _ & Hlink)].
    + by rewrite Hr, Hg.
    + split; [|by eapply link_step_covered].
      destruct Hlink as (ra & rb & _ & _ & _ & _ & _ & ->).
      eapply connects_ids_ok; [|exact Hst].
      eapply Forall2_connects_trans; apply Forall2_connects_alter.
  - clear. intros C U c u U' s0 s1 HC Hc Hu Hrem Hlink (Hcov & Hdisj).
    assert (c <> u) as Hcu by (intros ->; by apply (Hdisj u)).
    split; [by eapply link_step_covered|].
    intros v Hv Hv'.
    apply (set_remove_sub _ _ _ _ Hrem) in Hv' as Hv0.
    apply elem_of_app in Hv as [Hv|Hv]; [by apply (Hdisj v)|].
    apply list_elem_of_singleton in Hv as ->.
    by apply (set_remove_notin _ _ _ Hrem).
  - done.
  - split; [done|].
    intros v Hv Hv'. apply list_elem_of_singleton in Hv as ->.
    apply elem_of_seq in Hv'. lia.
Qed.

(** The trap pass writes on floor tiles only. *)
Lemma collect_floor_elem g cs fl c :
  collect_floor g cs = Ok fl -> c ∈ fl ->
  c ∈ cs /\ grid_get g (fst c) (snd c) = Ok FLOOR.
Proof.
  revert fl. induction cs as [|[x y] cs IH]; simpl; intros fl Hfl Hc.
  - injection Hfl as <-. by apply elem_of_nil in Hc.
  - destruct (grid_get g x y) as [t|] eqn:Hget; [|done].
    destruct (collect_floor g cs) as [rest|]; [|done].
    injection Hfl as <-.
    case_decide as Ht.
    + apply elem_of_cons in Hc as [->|Hc].
      * split; [by left|]. simpl. by rewrite Hget, Ht.
      * destruct (IH rest eq_refl Hc). split; [by right | done].
    + destruct (IH rest eq_refl Hc). split; [by right | done].
Qed.

Lemma elem_of_insert_inv {A} (l : list A) i x y :
  y ∈ <[i := x]> l -> y = x \/ y ∈ l.
Proof.
  intros Hy. apply list_elem_of_lookup in Hy as [j Hj].
  apply list_lookup_insert_Some in Hj as [(_ & -> & _)|(_ & Hj)];
    [by left | right; by eapply list_elem_of_lookup_2].
Qed.

Lemma sample_pool_elem {A} k (pool : list A) n g l g' a :
  sample_pool k pool n g = Ok (l, g') -> a ∈ l -> a ∈ pool.
Proof.
  revert pool n g l g'.
  induction k as [|k IH]; simpl; intros pool n g l g' Hrun Ha.
  - apply ret_inv in Hrun as [-> _]. by apply elem_of_nil in Ha.
  - apply bind_inv in Hrun as (j & g1 & _ & Hrun).
    destruct (pool !! j) as [b|] eqn:Hb; [|done].
    destruct (pool !! (n - 1)%nat) as [last|] eqn:Hlast; [|done].
    apply bind_inv in Hrun as (rest & g2 & Hrest & Hrun).
    apply ret_inv in Hrun as [-> _].
    apply elem_of_cons in Ha as [->|Ha];
      [by eapply list_elem_of_lookup_2|].
    apply (IH _ _ _ _ _ Hrest) in Ha.
    apply elem_of_insert_inv in Ha as [->|Ha];
      [by eapply list_elem_of_lookup_2 | done].
Qed.

Lemma _add_traps_covered s a s' :
  _add_traps config s = Ok (a, s') ->
  covered (Self.grid s) (Self.rooms s) ->
  covered (Self.grid s') (Self.rooms s').
Proof.
  unfold _add_traps. intros Hrun Hcov.
  apply bind_inv in Hrun as (s0 & ? & Hget & Hrun).
  apply get_state_inv in Hget as [-> ->].
  destruct (collect_floor _ _) as [floor_tiles|] eqn:Hfl; [|discriminate].
  apply bind_inv in Hrun as (trap_tiles & s1 & Hsample & Hrun).
  apply lift_rand_inv in Hsample as (g1 & Hsample & ->).
  apply update_grid_inv in Hrun as (g' & Hset & ->). simpl in *.
  assert (forall c, c ∈ trap_tiles ->
            nonneg_cell c /\
            grid_get (Self.grid s) (fst c) (snd c) = Ok FLOOR) as Htiles.
  { intros c Hc. unfold sample in Hsample.
    destruct (_ || _); [discriminate|].
    apply (sample_pool_elem _ _ _ _ _ _ c Hsample) in Hc.
    destruct (collect_floor_elem _ _ _ _ Hfl Hc) as [Hcell Hfloor].
    split; [|done]. destruct c as [cx cy].
    apply elem_of_cells in Hcell as [Hcx Hcy].
    apply elem_of_range in Hcx. apply elem_of_range in Hcy.
    split; simpl; lia. }
  apply (covered_step trap_tiles (Self.grid s) _ (Self.rooms s));
    [apply grows_refl | | | done].
  - intros i j Hout. eapply set_tiles_tile_at; [exact Hset | | exact Hout].
    apply Forall_forall. intros c Hc. by destruct (Htiles c Hc).
  - intros [cx cy] Hc. destruct (Htiles _ Hc) as [[Hx Hy] Hfloor].
    simpl in *.
    rewrite <- (Z2Nat.id cx), <- (Z2Nat.id cy) in Hfloor |- * by done.
    apply tile_at_grid_get in Hfloor. by eapply Hcov.
Qed.

Lemma _add_secret_rooms_covered s a s' :
  _add_secret_rooms config s = Ok (a, s') ->
  covered (Self.grid s) (Self.rooms s) ->
  covered (Self.grid s') (Self.rooms s').
Proof.
  intros Hrun Hcov. apply _add_secret_rooms_shape in Hrun.
  destruct Hrun as [(-> & -> & _)
                   |(w & h & _ & _ & px & py & l & gA & gB & Hx & Hy & _ & _
                     & _ & Hset & -> & _)]; [done|].
  eapply covered_grows;
    [|eapply (covered_room _ _ _ (Room.new (Self.next_room_id s) SECRET
                                          px py w h));
      [| |exact Hset|exact Hcov]; simpl; lia].
  apply grows_ext; by rewrite !map_app.
Qed.

(** The grid at the end of a run has no open tile outside the rooms and
    the corridors. *)
Lemma run_generator_covered seed global d :
  run_generator config seed global = Ok d ->
  exists sd s3,
    d = _export config sd s3 /\ covered (Self.grid s3) (Self.rooms s3).
Proof.
  intros Hrun.
  apply run_generator_inv in Hrun
    as (sd & s0 & s1 & s2 & s3 & Hinit & Hlayout & _ & Htraps & Hsecret & ->).
  exists sd, s3. split; [done|].
  apply DungeonGenerator_init_inv in Hinit as (Hrooms & Hnext & _).
  eapply _add_secret_rooms_covered; [exact Hsecret|].
  eapply _add_traps_covered; [exact Htraps|].
  unfold build_layout in Hlayout.
  apply bind_inv in Hlayout as (? & sA & HA & Hlayout).
  apply bind_inv in Hlayout as (? & sB & HB & Hlayout).
  apply bind_inv in Hlayout as (? & sC & HC & Hlayout).
  apply bind_inv in Hlayout as (? & sD & HD & HE).
  apply update_grid_inv in HA as (g0 & [= <-] & ->).
  assert (covered (Self.grid sB) (Self.rooms sB)) as HcovB.
  { unfold _generate_rooms_bsp in HB.
    apply bind_inv in HB as (n & sA' & Hn & HB).
    apply lift_rand_inv in Hn as (gA & _ & ->).
    eapply place_loop_covered; [exact HB|]. simpl. rewrite Hrooms.
    apply covered_init. }
  apply _generate_rooms_bsp_placed in HB as [[_ HidsB _ _] _].
  2:{ split; simpl; rewrite ?Hrooms, ?Hnext; done. }
  pose proof (_connect_rooms_covered _ _ _ HC HidsB HcovB) as HcovC.
  apply _place_special_rooms_inv in HD as (HgD & _ & HD).
  apply _populate_rooms_populated in HE as (HgE & _ & HpE & _).
  rewrite HgE, HgD.
  eapply covered_grows; [|eapply covered_grows; [|exact HcovC]].
  - apply grows_ext.
    + apply (Forall2_populated_map room_rect); [|exact HpE].
      by intros ?? (_ & ? & _).
    + apply (Forall2_populated_map Room.connections); [|exact HpE].
      by intros ?? ([= _ ?] & _).
  - destruct HD as [[HC0 ->]|(ie & ib & e & _ & _ & _ & ->)].
    + rewrite HC0. apply grows_refl.
    + apply grows_ext; by rewrite !alter_map_fixed.
Qed.
End Corridors.

(** ** Walking through a dungeon *)

Definition rect_center (r : Rect) : Z * Z :=
  (rx r + rw r / 2, ry r + rh r / 2).

(** The tile [p] lies in the rectangle. *)
Definition in_rect (p : Z * Z) (r : Rect) : Prop :=
  rx r <= fst p < rx r + rw r /\ ry r <= snd p < ry r + rh r.

(** The tile at column [fst c] of row [snd c] of an exported grid is not a
    wall. *)
Definition passable (grid : list (list string)) (c : Z * Z) : Prop :=
  0 <= fst c /\ 0 <= snd c /\
  exists row tag,
    grid !! Z.to_nat (snd c) = Some row /\
    row !! Z.to_nat (fst c) = Some tag /\ tag <> "wall"%string.

(** Two tiles share a side. *)
Definition adjacent (a b : Z * Z) : Prop :=
  Z.abs (fst a - fst b) + Z.abs (snd a - snd b) = 1.

(** One step from a tile that is not a wall to a neighbour that is not a
    wall. *)
Definition walk_step (grid : list (list string)) (a b : Z * Z) : Prop :=
  passable grid a /\ passable grid b /\ adjacent a b.

Lemma adjacent_sym a b : adjacent a b -> adjacent b a.
Proof. unfold adjacent. lia. Qed.

Lemma walk_step_sym grid a b : walk_step grid a b -> walk_step grid b a.
Proof.
  intros (Ha & Hb & Hadj). split; [exact Hb|]. split; [exact Ha|].
  by apply adjacent_sym.
Qed.

Lemma rtc_walk_sym grid a b :
  rtc (walk_step grid) a b -> rtc (walk_step grid) b a.
Proof.
  induction 1 as [|a x b Hax _ IH]; [done|].
  eapply rtc_r; eauto using walk_step_sym.
Qed.

Lemma line_walk grid (f : Z -> Z * Z) a b :
  (forall z, adjacent (f z) (f (z + 1))) ->
  (forall z, Z.min a b <= z <= Z.max a b -> passable grid (f z)) ->
  rtc (walk_step grid) (f a) (f b).
Proof.
  intros Hadj Hpass.
  remember (Z.to_nat (Z.abs (b - a))) as n eqn:Hn.
  revert a Hn Hpass. induction n as [|n IH]; intros a Hn Hpass.
  - assert (a = b) as -> by lia. apply rtc_refl.
  - destruct (Z.lt_ge_cases a b) as [Hlt|Hge].
    + apply rtc_l with (f (a + 1)).
      * split; [apply Hpass; lia|]. split; [apply Hpass; lia|]. apply Hadj.
      * apply IH; [lia|]. intros z Hz. apply Hpass. lia.
    + apply rtc_l with (f (a - 1)).
      * split; [apply Hpass; lia|]. split; [apply Hpass; lia|].
        apply adjacent_sym. specialize (Hadj (a - 1)).
        by replace (a - 1 + 1) with a in Hadj by lia.
      * apply IH; [lia|]. intros z Hz. apply Hpass. lia.
Qed.

Lemma hline_walk grid x1 x2 y :
  (forall p, p ∈ hline x1 x2 y -> passable grid p) ->
  rtc (walk_step grid) (x1, y) (x2, y).
Proof.
  intros Hpass. apply (line_walk grid (fun x => (x, y))).
  - intros z. unfold adjacent. simpl. lia.
  - intros z Hz. apply Hpass, elem_of_hline. simpl. lia.
Qed.

Lemma vline_walk grid y1 y2 x :
  (forall p, p ∈ vline y1 y2 x -> passable grid p) ->
  rtc (walk_step grid) (x, y1) (x, y2).
Proof.
  intros Hpass. apply (line_walk grid (fun y => (x, y))).
  - intros z. unfold adjacent. simpl. lia.
  - intros z Hz. apply Hpass, elem_of_vline. simpl. lia.
Qed.

Lemma corridor_walk grid hf a b :
  (forall p, p ∈ corridor_cells hf a b -> passable grid p) ->
  rtc (walk_step grid) a b.
Proof.
  destruct a as [ax ay], b as [bx by']. intros Hpass.
  destruct hf; simpl in Hpass.
  - etrans; [apply hline_walk | apply vline_walk];
      intros p Hp; apply Hpass, elem_of_app; auto.
  - etrans; [apply vline_walk | apply hline_walk];
      intros p Hp; apply Hpass, elem_of_app; auto.
Qed.

Lemma rect_walk grid r p q :
  (forall c, in_rect c r -> passable grid c) ->
  in_rect p r -> in_rect q r -> rtc (walk_step grid) p q.
Proof.
  destruct p as [px py], q as [qx qy]. unfold in_rect. simpl.
  intros Hpass Hp Hq.
  etrans; [apply hline_walk | apply vline_walk]; intros c Hc; apply Hpass.
  - apply elem_of_hline in Hc. simpl in Hc. lia.
  - apply elem_of_vline in Hc. simpl in Hc. lia.
Qed.

Lemma half_bounds w : 0 <= w -> 0 <= w / 2 <= w /\ (1 <= w -> w / 2 < w).
Proof.
  intros Hw. pose proof (Z.div_mod w 2 ltac:(lia)).
  pose proof (Z.mod_pos_bound w 2 ltac:(lia)). lia.
Qed.

Lemma open_at_passable (g : Grid) c :
  0 <= fst c -> 0 <= snd c -> open_at g c ->
  passable (map (map TileType_value) g) c.
Proof.
  intros Hx Hy (t & Hget & Hne).
  apply grid_get_nonneg in Hget as (row & Hrow & Ht); [|done..].
  split; [done|]. split; [done|].
  exists (map TileType_value row), (TileType_value t).
  change (map (map TileType_value) g) with (map TileType_value <$> g).
  change (map TileType_value row) with (TileType_value <$> row).
  rewrite !list_lookup_fmap, Hrow, Ht. split; [done|]. split; [done|].
  change "wall"%string with (TileType_value WALL).
  intros Heq. by apply TileType_value_inj in Heq.
Qed.

(** What walking needs of a dungeon generated with room sizes that are
    not negative. *)
Lemma dungeon_passages `{RandomGen} (config : Config.t)
  (seed : option Z) (global : rng) (d : Output.t) :
  run_generator config seed global = Ok d ->
  0 <= Config.min_room_size config ->
  exists rs,
    Output.rooms d = map export_room rs /\ ids_ok rs /\
    (forall i, (i < length rs)%nat -> reached rs i) /\
    (forall r p, r ∈ rs -> in_rect p (room_rect r) ->
       in_rect (center r) (room_rect r) /\
       forall c, in_rect c (room_rect r) -> passable (Output.grid d) c) /\
    (forall i r c, rs !! i = Some r -> c ∈ Room.connections r ->
       exists r' horizontal_first,
         rs !! c = Some r' /\
         forall p, p ∈ corridor_cells horizontal_first (center r) (center r')
                   -> passable (Output.grid d) p).
Proof.
  intros Hrun Hmin.
  apply run_generator_complete in Hrun
    as (sd & s1 & s3 & Hbuilt & Hfur & Hfin & _ & Hcorr & _ & ->).
  exists (Self.rooms s3). simpl. split; [done|].
  assert (Self.rooms s3 = Self.rooms s1) as Hsame.
  { destruct Hfin as [_ _ _ _ _ _ _ (tail & -> & _ & _ & Hnone)].
    by rewrite (Hnone Hmin), app_nil_r. }
  assert (forall r, r ∈ Self.rooms s3 ->
            margin config 2 r /\ 0 <= Room.width r /\ 0 <= Room.height r)
    as Hroom.
  { intros r Hr. rewrite Hsame in Hr. split.
    - apply (proj1 (Forall_forall _ _) (fur_margin _ _ Hfur) r Hr).
    - destruct (proj1 (Forall_forall _ _) (fur_size _ _ Hfur) r Hr). lia. }
  split; [by destruct Hfin|]. split; [|split].
  - rewrite Hsame. by destruct Hbuilt.
  - intros r p Hr Hp. destruct (Hroom r Hr) as ((? & ? & ? & ?) & Hw & Hh).
    unfold in_rect in *. simpl in *.
    destruct (half_bounds _ Hw) as [? ?], (half_bounds _ Hh) as [? ?].
    split; [lia|].
    intros c Hc. apply open_at_passable; [lia..|].
    apply (proj1 (Forall_forall _ _) (fin_carved _ _ _ Hfin) r Hr).
    destruct c as [cx cy]. apply elem_of_cells.
    split; apply elem_of_range; simpl in *; lia.
  - intros i r c Hi Hc.
    destruct (Hcorr i r c Hi Hc) as (r' & Hr' & hf & Hopen).
    exists r', hf. split; [done|]. intros p Hp.
    destruct (Hroom r (list_elem_of_lookup_2 _ _ _ Hi))
      as ((? & ? & ? & ?) & Hw & Hh).
    destruct (Hroom r' (list_elem_of_lookup_2 _ _ _ Hr'))
      as ((? & ? & ? & ?) & Hw' & Hh').
    destruct (half_bounds _ Hw) as [? _], (half_bounds _ Hh) as [? _].
    destruct (half_bounds _ Hw') as [? _], (half_bounds _ Hh') as [? _].
    assert (2 <= fst p <= Config.width config - 2 /\
            2 <= snd p <= Config.height config - 2) as [Hpx Hpy].
    { unfold center in Hp.
      destruct hf; simpl in Hp; apply elem_of_app in Hp as [Hp|Hp];
        (apply elem_of_hline in Hp || apply elem_of_vline in Hp); lia. }
    apply open_at_passable; [lia..|]. apply Hopen; [done|].
    unfold in_grid.
    rewrite !andb_true_iff, !Z.leb_le, !Z.ltb_lt. lia.
Qed.

Lemma NoDup_bounded_length (l : list nat) i n :
  NoDup l -> (i < n)%nat ->
  (forall c, c ∈ l -> c <> i /\ (c < n)%nat) -> (length l < n)%nat.
Proof.
  intros Hnd Hi Hall.
  assert (NoDup (i :: l)) as Hnd'.
  { constructor; [|done]. intros Hin. by destruct (Hall i Hin). }
  assert (i :: l ⊆+ seq 0 n) as Hsub.
  { apply NoDup_submseteq; [done|]. intros x Hx. apply elem_of_seq.
    apply elem_of_cons in Hx as [->|Hx]; [lia|]. destruct (Hall x Hx). lia. }
  apply submseteq_length in Hsub. rewrite length_seq in Hsub.
  simpl in Hsub. lia.
Qed.

(** X17: No room of a generated dungeon records the same connection twice,
    so a room has fewer connections than the dungeon has rooms. *)
Theorem connections_recorded_once `{RandomGen} (config : Config.t)
  (seed : option Z) (global : rng) (d : Output.t) :
  run_generator config seed global = Ok d ->
  forall i r, Output.rooms d !! i = Some r ->
    NoDup (RoomDict.connections r) /\
    (length (RoomDict.connections r) < length (Output.rooms d))%nat.
Proof.
  intros Hrun i rd Hrd.
  apply run_generator_complete in Hrun
    as (sd & s1 & s3 & _ & _ & Hfin & Hsimple & _ & _ & ->).
  simpl in Hrd. apply export_lookup in Hrd as (r & Hr & ->). simpl.
  pose proof (proj1 (Forall_lookup _ _) Hsimple i r Hr) as Hnd.
  split; [done|]. rewrite length_map.
  apply (NoDup_bounded_length _ i); [done | by eapply lookup_lt_Some |].
  intros c Hc.
  destruct (fin_adjacency _ _ _ Hfin i r c Hr Hc) as (Hne & r' & Hr' & _).
  split; [done | by eapply lookup_lt_Some].
Qed.

Lemma connections_recorded_once_witness :
  exists r,
    Output.rooms cave_dungeon !! 0%nat = Some r /\
    NoDup (RoomDict.connections r) /\
    (length (RoomDict.connections r) < 4)%nat.
Proof.
  eexists. split; [reflexivity|].
  apply (@connections_recorded_once cave_gen cave_config (Some 42) []
           cave_dungeon cave_run 0%nat).
  reflexivity.
Defined.

(** X18: In a dungeon generated with room sizes that are not negative, every
    recorded connection has its corridor: an L-shaped run of tiles between
    the centers of the two rooms, horizontal then vertical or vertical then
    horizontal, none of which is a wall. *)
Theorem corridors_are_open `{RandomGen} (config : Config.t)
  (seed : option Z) (global : rng) (d : Output.t) :
  run_generator config seed global = Ok d ->
  0 <= Config.min_room_size config ->
  forall i r c,
    Output.rooms d !! i = Some r -> c ∈ RoomDict.connections r ->
    exists r' horizontal_first,
      Output.rooms d !! c = Some r' /\
      forall p,
        p ∈ corridor_cells horizontal_first
              (rect_center (RoomDict.bounds r))
              (rect_center (RoomDict.bounds r')) ->
        passable (Output.grid d) p.
Proof.
  intros Hrun Hmin i rd c Hrd Hc.
  destruct (dungeon_passages _ _ _ _ Hrun Hmin)
    as (rs & Hrs & _ & _ & _ & Hcorr).
  rewrite Hrs in Hrd |- *.
  apply export_lookup in Hrd as (r & Hr & ->). simpl in Hc.
  destruct (Hcorr i r c Hr Hc) as (r' & hf & Hr' & Hopen).
  exists (export_room r'), hf. split; [|exact Hopen].
  change (map export_room rs) with (export_room <$> rs).
  by rewrite list_lookup_fmap, Hr'.
Qed.

Lemma corridors_are_open_witness :
  exists r,
    Output.rooms cave_dungeon !! 0%nat = Some r /\
    exists r' horizontal_first,
      Output.rooms cave_dungeon !! 1%nat = Some r' /\
      forall p,
        p ∈ corridor_cells horizontal_first
              (rect_center (RoomDict.bounds r))
              (rect_center (RoomDict.bounds r')) ->
        passable (Output.grid cave_dungeon) p.
Proof.
  eexists. split; [reflexivity|].
  assert (0 <= Config.min_room_size cave_config) as Hmin by (simpl; lia).
  eapply (@corridors_are_open cave_gen cave_config (Some 42) []
            cave_dungeon cave_run Hmin 0%nat).
  - reflexivity.
  - apply (list_elem_of_lookup_2 _ 0%nat). reflexivity.
Defined.

(** X19: In a dungeon generated with room sizes that are not negative, every
    tile of every room can be reached from every tile of every other room by
    steps between neighbouring tiles that are not walls. *)
Theorem rooms_are_reachable `{RandomGen} (config : Config.t)
  (seed : option Z) (global : rng) (d : Output.t) :
  run_generator config seed global = Ok d ->
  0 <= Config.min_room_size config ->
  forall r r' p p',
    r ∈ Output.rooms d -> r' ∈ Output.rooms d ->
    in_rect p (RoomDict.bounds r) -> in_rect p' (RoomDict.bounds r') ->
    rtc (walk_step (Output.grid d)) p p'.
Proof.
  intros Hrun Hmin rd rd' p p' Hrd Hrd' Hp Hp'.
  destruct (dungeon_passages _ _ _ _ Hrun Hmin)
    as (rs & Hrs & Hids & Hreach & Hrooms & Hcorr).
  rewrite Hrs in Hrd, Hrd'.
  apply export_elem in Hrd as (r & Hr & ->).
  apply export_elem in Hrd' as (r' & Hr' & ->). simpl in Hp, Hp'.
  assert (forall r1 q, r1 ∈ rs -> in_rect q (room_rect r1) ->
            rtc (walk_step (Output.grid d)) q (center r1)) as Hinside.
  { intros r1 q Hr1 Hq. destruct (Hrooms r1 q Hr1 Hq) as [Hc Hpass].
    by apply (rect_walk _ (room_rect r1)). }
  assert (exists r0, rs !! 0%nat = Some r0) as [r0 Hr0].
  { apply list_elem_of_lookup in Hr as [i Hi].
    apply lookup_lt_Some in Hi. apply lookup_lt_is_Some_2. lia. }
  assert (forall i r1, rs !! i = Some r1 ->
            rtc (walk_step (Output.grid d)) (center r0) (center r1))
    as Hcenters.
  { intros i r1 Hi.
    destruct (Hreach i (lookup_lt_Some _ _ _ Hi)) as [_ Hpath].
    revert i Hpath r1 Hi.
    apply (rtc_ind_r
             (fun z => forall r1, rs !! z = Some r1 ->
                rtc (walk_step (Output.grid d)) (center r0) (center r1))).
    - intros r1 Hi. rewrite Hr0 in Hi. by injection Hi as <-.
    - intros y z Hpath (n & Hn & Hedge) IH r1 Hi.
      apply list_elem_of_fmap in Hn as (rn & -> & Hrn).
      apply list_elem_of_lookup in Hrn as [k Hk].
      pose proof (ids_ok_lookup _ _ _ Hids Hk) as Hid.
      unfold room_node in Hedge. simpl in Hedge. rewrite Hid in Hedge.
      destruct Hedge as [[-> Hin]|[-> Hin]].
      + destruct (Hcorr _ _ _ Hk Hin) as (r2 & hf & Hr2 & Hopen).
        rewrite Hi in Hr2. injection Hr2 as <-.
        etrans; [by apply IH|]. by eapply corridor_walk.
      + rewrite Hi in Hk. injection Hk as <-.
        destruct (Hcorr _ _ _ Hi Hin) as (r2 & hf & Hr2 & Hopen).
        etrans; [by apply IH|].
        apply rtc_walk_sym. by eapply corridor_walk. }
  apply list_elem_of_lookup in Hr as Hi. destruct Hi as [i Hi].
  apply list_elem_of_lookup in Hr' as Hi'. destruct Hi' as [i' Hi'].
  etrans; [by apply (Hinside r)|].
  etrans; [apply rtc_walk_sym; by eapply Hcenters|].
  etrans; [by eapply Hcenters|].
  apply rtc_walk_sym. by apply (Hinside r').
Qed.

Lemma rooms_are_reachable_witness :
  rtc (walk_step (Output.grid cave_dungeon)) (3, 3) (17, 18).
Proof.
  eapply (@rooms_are_reachable cave_gen cave_config (Some 42) []
            cave_dungeon cave_run).
  - simpl. lia.
  - apply (list_elem_of_lookup_2 _ 0%nat). reflexivity.
  - apply (list_elem_of_lookup_2 _ 3%nat). reflexivity.
  - unfold in_rect. simpl. lia.
  - unfold in_rect. simpl. lia.
Defined.

(** ** Configurations the generator rejects *)

Lemma bind_raise {S A B} (m : SE S A) (f : A -> SE S B) s e :
  m s = Raise e -> bind m f s = Raise e.
Proof. unfold bind. intros ->. reflexivity. Qed.

Lemma randint_total `{RandomGen} a b g :
  a <= b -> exists n g', randint a b g = Ok (n, g') /\ a <= n <= b.
Proof.
  intros Hab.
  destruct (randint a b g) as [[n g']|e] eqn:Hrun.
  - exists n, g'. split; [done|]. by eapply randint_range.
  - unfold randint in Hrun. rewrite (proj2 (Z.ltb_ge b a) Hab) in Hrun.
    by destruct (randbelow _ g).
Qed.

Lemma randint_raises `{RandomGen} a b g e :
  randint a b g = Raise e -> e = ValueError.
Proof.
  unfold randint. destruct (b <? a); [by intros [= <-]|].
  by destruct (randbelow _ g).
Qed.

Lemma DungeonGenerator_init_total `{RandomGen} (seed : option Z)
  (global : rng) :
  exists sd, DungeonGenerator_init seed global
             = Ok (sd, Self.mk _ [] [] 0%nat (seed_rng sd)).
Proof.
  unfold DungeonGenerator_init.
  destruct (randint_total 0 (2 ^ 32) global ltac:(lia)) as (v & g & -> & _).
  destruct seed as [n|]; [destruct (n =? 0)|]; eauto.
Qed.

(** A placement trial raises when the narrowest room leaves no position
    two tiles from the edges. *)
Lemma place_trial_too_small `{RandomGen} (config : Config.t) (s : Self.t) :
  Config.min_room_size config <= Config.max_room_size config ->
  Config.width config < Config.min_room_size config + 4 \/
  Config.height config < Config.min_room_size config + 4 ->
  place_trial config s = Raise ValueError.
Proof.
  intros Hsize Hsmall. unfold place_trial.
  destruct (randint_total _ _ (Self.rand s) Hsize) as (w & g1 & Hw & Hwr).
  destruct (randint_total _ _ g1 Hsize) as (h & g2 & Hh & Hhr).
  unfold bind at 1. unfold lift_rand at 1. rewrite Hw.
  unfold bind at 1. unfold lift_rand at 1. cbn [Self.rand]. rewrite Hh.
  unfold bind at 1. unfold lift_rand at 1. cbn [Self.rand].
  destruct (randint 2 (Config.width config - w - 2) g2) as [[x g3]|e] eqn:Hx.
  - apply randint_range in Hx.
    unfold bind at 1. unfold lift_rand at 1. cbn [Self.rand].
    rewrite randint_empty by lia. reflexivity.
  - by rewrite (randint_raises _ _ _ _ Hx).
Qed.

(** X20: Generation raises [ValueError] when [max_rooms] is less than
    [min_rooms], for every seed. *)
Theorem empty_room_range_raises `{RandomGen} (config : Config.t)
  (seed : option Z) (global : rng) :
  Config.max_rooms config < Config.min_rooms config ->
  run_generator config seed global = Raise ValueError.
Proof.
  intros Hrange. unfold run_generator.
  destruct (DungeonGenerator_init_total seed global) as [sd ->].
  unfold generate, build_layout.
  unfold bind at 1. unfold bind at 1. cbn [update_grid Self.grid].
  unfold bind at 1. unfold _generate_rooms_bsp at 1.
  unfold bind at 1. unfold lift_rand at 1. cbn [Self.rand].
  by rewrite randint_empty.
Qed.

Definition reversed_range_config : Config.t :=
  Config.mk "d" "cave" "novice" 5 4 4 4 30 30
            (4 # 10) (15 # 100) (1 # 10) (5 # 100) (1 # 10)
            [] cave_monsters cave_loot (Some cave_boss).

Lemma empty_room_range_raises_witness :
  @run_generator cave_gen reversed_range_config (Some 42) []
  = Raise ValueError.
Proof.
  apply (@empty_room_range_raises cave_gen reversed_range_config).
  simpl. lia.
Defined.

(** X21: Generation raises [ValueError], for every seed, when at least one
    room is asked for and the grid is less than four tiles wider, or higher,
    than the smallest room: no room is skipped for lack of space. *)
Theorem grid_too_small_raises `{RandomGen} (config : Config.t)
  (seed : option Z) (global : rng) :
  1 <= Config.min_rooms config <= Config.max_rooms config ->
  Config.min_room_size config <= Config.max_room_size config ->
  Config.width config < Config.min_room_size config + 4 \/
  Config.height config < Config.min_room_size config + 4 ->
  run_generator config seed global = Raise ValueError.
Proof.
  intros Hrooms Hsize Hsmall. unfold run_generator.
  destruct (DungeonGenerator_init_total seed global) as [sd ->].
  unfold generate, build_layout.
  unfold bind at 1. unfold bind at 1. cbn [update_grid Self.grid].
  unfold bind at 1. unfold _generate_rooms_bsp at 1.
  unfold bind at 1. unfold lift_rand at 1. cbn [Self.rand].
  destruct (randint_total (Config.min_rooms config) (Config.max_rooms config)
              (seed_rng sd) ltac:(lia)) as (n & g & -> & Hn).
  cbn [Self.rooms Self.grid Self.next_room_id].
  destruct (Z.to_nat (n * 3)) as [|k] eqn:Hk; [lia|].
  cbn [place_loop]. unfold bind at 1. cbn [get_state Self.rooms length].
  rewrite (proj2 (Z.leb_gt n (Z.of_nat 0)) ltac:(lia)).
  unfold bind at 1. by rewrite place_trial_too_small.
Qed.

Definition cramped_config : Config.t :=
  Config.mk "d" "cave" "novice" 1 4 4 6 30 7
            (4 # 10) (15 # 100) (1 # 10) (5 # 100) (1 # 10)
            [] cave_monsters cave_loot (Some cave_boss).

Lemma grid_too_small_raises_witness :
  @run_generator cave_gen cramped_config (Some 42) [] = Raise ValueError.
Proof.
  apply (@grid_too_small_raises cave_gen cramped_config).
  - simpl. lia.
  - simpl. lia.
  - right. simpl. lia.
Defined.

(** * The preview of [main] *)

(** The symbols of the ASCII preview. *)
Definition symbols : list (string * string) :=
  [("floor", "."); ("wall", "#"); ("door", "+"); ("trap", "^");
   ("stairs_up", "<"); ("stairs_down", ">")]%string.

(** [symbols.get(tile, "?")] *)
Definition symbols_get (tile : string) : string :=
  match List.find (fun kv => String.eqb (fst kv) tile) symbols with
  | Some kv => snd kv
  | None => "?"
  end.

(** [l[::2]] *)
Fixpoint every_other {A} (l : list A) : list A :=
  match l with
  | [] => []
  | a :: l' => a :: match l' with
                    | [] => []
                    | _ :: l'' => every_other l''
                    end
  end.

(** The lines printed under "ASCII Preview:": every other tile of every
    other row. *)
Definition preview (grid : list (list string)) : list string :=
  map (fun row => String.concat "" (map symbols_get (every_other row)))
      (every_other grid).

Lemma every_other_facts {A} (P : A -> Prop) n (l : list A) :
  (length l <= n)%nat ->
  length (every_other l) = Nat.div2 (S (length l)) /\
  (Forall P l -> Forall P (every_other l)).
Proof.
  revert l. induction n as [|n IH]; intros l Hn.
  - destruct l; [done | simpl in Hn; lia].
  - destruct l as [|a [|b l]]; [done | by split; [|intros ?] |].
    simpl in Hn. destruct (IH l ltac:(lia)) as [Hlen Hall].
    split.
    + cbn [every_other length]. rewrite Hlen. reflexivity.
    + intros Hl. inversion Hl as [|?? Ha Hl']; subst.
      inversion Hl' as [|?? Hb Hl'']; subst.
      cbn [every_other]. constructor; auto.
Qed.

(** The character is one of [#], [.] and [^]. *)
Definition preview_char (ch : Ascii.ascii) : Prop :=
  (String ch "" = "#" \/ String ch "" = "." \/ String ch "" = "^")%string.

Lemma preview_line (tags : list string) :
  Forall (fun tag => tag = "wall" \/ tag = "floor" \/ tag = "trap")%string
         tags ->
  String.length (String.concat "" (map symbols_get tags)) = length tags /\
  Forall preview_char
         (list_ascii_of_string (String.concat "" (map symbols_get tags))).
Proof.
  induction 1 as [|tag tags Htag Htags [IHlen IHall]]; [by split|].
  destruct tags as [|tag' tags].
  - destruct Htag as [->|[->| ->]]; (split; [reflexivity|]);
      (constructor; [|constructor]); unfold preview_char; tauto.
  - change (String.concat "" (map symbols_get (tag :: tag' :: tags)))
      with (symbols_get tag ++ ""
            ++ String.concat "" (map symbols_get (tag' :: tags)))%string.
    destruct Htag as [->|[->| ->]]; simpl in *;
      (split; [by rewrite IHlen|]);
      (constructor; [unfold preview_char; tauto|done]).
Qed.

(** X22: The preview of a generated dungeon shows every other tile of every
    other row, that is half the rows and half the columns rounded up, and
    consists of the characters [#], [.] and [^] only: every tile of the grid
    has a symbol, and the fallback [?] never appears. *)
Theorem preview_shows_walls_floor_traps `{RandomGen} (config : Config.t)
  (seed : option Z) (global : rng) (d : Output.t) :
  run_generator config seed global = Ok d ->
  length (preview (Output.grid d))
    = Nat.div2 (S (Z.to_nat (Config.height config))) /\
  forall line, line ∈ preview (Output.grid d) ->
    String.length line = Nat.div2 (S (Z.to_nat (Config.width config))) /\
    Forall preview_char (list_ascii_of_string line).
Proof.
  intros Hrun.
  apply run_generator_finished in Hrun
    as (sd & s0 & s1 & s3 & _ & _ & _ & Hfin & ->).
  destruct (fin_dims _ _ _ Hfin) as [Hrows Hcols].
  pose proof (fin_tags _ _ _ Hfin) as Htags.
  unfold preview. simpl. rewrite length_map. split.
  - rewrite (proj1 (every_other_facts (fun _ => True) _ _ (Nat.le_refl _))).
    by rewrite length_map, Hrows.
  - intros line Hline.
    apply list_elem_of_fmap in Hline as (row & -> & Hrow).
    assert (Forall (fun row =>
              length row = Z.to_nat (Config.width config) /\
              Forall (fun tag => tag = "wall" \/ tag = "floor" \/
                                 tag = "trap")%string row)
                   (map (map TileType_value) (Self.grid s3))) as Hgrid.
    { apply Forall_fmap, Forall_forall. intros row0 Hrow0. simpl. split.
      - rewrite length_map.
        apply (proj1 (Forall_forall _ _) Hcols row0 Hrow0).
      - apply Forall_fmap.
        eapply Forall_impl;
          [exact (proj1 (Forall_forall _ _) Htags row0 Hrow0)|].
        intros t [->|[->| ->]]; simpl; tauto. }
    apply (proj2 (every_other_facts _ _ _ (Nat.le_refl _))) in Hgrid.
    destruct (proj1 (Forall_forall _ _) Hgrid row Hrow) as [Hlen Hrowtags].
    apply (proj2 (every_other_facts _ _ _ (Nat.le_refl _))) in Hrowtags.
    destruct (preview_line _ Hrowtags) as [Hl Hc]. split; [|done].
    rewrite Hl, (proj1 (every_other_facts (fun _ => True) _ _
                          (Nat.le_refl _))).
    by rewrite Hlen.
Qed.

Lemma preview_shows_walls_floor_traps_witness :
  length (preview (Output.grid cave_dungeon)) = 15%nat /\
  forall line, line ∈ preview (Output.grid cave_dungeon) ->
    String.length line = 15%nat /\
    Forall preview_char (list_ascii_of_string line).
Proof.
  apply (@preview_shows_walls_floor_traps cave_gen cave_config (Some 42) []
           cave_dungeon cave_run).
Defined.

(** * The number of corridors *)

(** X23: In a dungeon of [n] rooms generated with room sizes that are not
    negative, the connection lists hold two entries for each corridor: the
    [n - 1] corridors of the spanning tree and at most [n // 4] further
    ones; a dungeon of fewer than two rooms has no connection. *)
Theorem corridor_count_bounded `{RandomGen} (config : Config.t)
  (seed : option Z) (global : rng) (d : Output.t) :
  run_generator config seed global = Ok d ->
  0 <= Config.min_room_size config ->
  ((length (Output.rooms d) < 2)%nat ->
   sum_list (map (fun r => length (RoomDict.connections r)) (Output.rooms d))
   = 0%nat) /\
  ((2 <= length (Output.rooms d))%nat ->
   (2 * (length (Output.rooms d) - 1)
    <= sum_list (map (fun r => length (RoomDict.connections r))
                     (Output.rooms d))
    <= 2 * (length (Output.rooms d) - 1)
       + 2 * (length (Output.rooms d) / 4))%nat).
Proof.
  intros Hrun Hmin.
  apply run_generator_complete in Hrun
    as (sd & s1 & s3 & _ & _ & Hfin & _ & _ & Hcount & ->).
  assert (Self.rooms s3 = Self.rooms s1) as Hsame.
  { destruct Hfin as [_ _ _ _ _ _ _ (tail & -> & _ & _ & Hnone)].
    by rewrite (Hnone Hmin), app_nil_r. }
  simpl. rewrite length_map, map_map. simpl.
  rewrite <- Hsame in Hcount. unfold corridor_count_ok, degree_sum in Hcount.
  change (length <$> map Room.connections (Self.rooms s3))
    with (map length (map Room.connections (Self.rooms s3))) in Hcount.
  rewrite map_map in Hcount. exact Hcount.
Qed.

Lemma corridor_count_bounded_witness :
  (2 * (4 - 1)
   <= sum_list (map (fun r => length (RoomDict.connections r))
                    (Output.rooms cave_dungeon))
   <= 2 * (4 - 1) + 2 * (4 / 4))%nat.
Proof.
  apply (@corridor_count_bounded cave_gen cave_config (Some 42) []
           cave_dungeon cave_run).
  - simpl. lia.
  - simpl. lia.
Defined.

(** * Walls everywhere else *)

Lemma exported_tile (g : Grid) i j row tag :
  map (map TileType_value) g !! j = Some row -> row !! i = Some tag ->
  tag <> "wall"%string ->
  exists t, tile_at g i j = Some t /\ t <> WALL.
Proof.
  change (map (map TileType_value) g) with (map TileType_value <$> g).
  rewrite list_lookup_fmap. unfold tile_at.
  destruct (g !! j) as [row0|]; [|done]. intros [= <-].
  change (map TileType_value row0) with (TileType_value <$> row0).
  rewrite list_lookup_fmap.
  destruct (row0 !! i) as [t|]; [|done]. intros [= <-] Hne.
  exists t. split; [done|]. by intros ->.
Qed.

(** X24: In every generated dungeon, a tile of the grid that is not a wall
    lies in the rectangle of a room or on the L-shaped corridor of a
    recorded connection: the generator opens no other tile. *)
Theorem open_tiles_in_rooms_or_corridors `{RandomGen} (config : Config.t)
  (seed : option Z) (global : rng) (d : Output.t) :
  run_generator config seed global = Ok d ->
  forall i j row tag,
    Output.grid d !! j = Some row -> row !! i = Some tag ->
    tag <> "wall"%string ->
    (exists r, r ∈ Output.rooms d /\
               in_rect (Z.of_nat i, Z.of_nat j) (RoomDict.bounds r)) \/
    (exists k r c r' horizontal_first,
       Output.rooms d !! k = Some r /\ c ∈ RoomDict.connections r /\
       Output.rooms d !! c = Some r' /\
       (Z.of_nat i, Z.of_nat j)
         ∈ corridor_cells horizontal_first
             (rect_center (RoomDict.bounds r))
             (rect_center (RoomDict.bounds r'))).
Proof.
  intros Hrun i j row tag Hrow Htag Hne.
  apply run_generator_covered in Hrun as (sd & s3 & -> & Hcov).
  simpl in *.
  destruct (exported_tile _ _ _ _ _ Hrow Htag Hne) as (t & Ht & Hwall).
  assert (forall k r, Self.rooms s3 !! k = Some r ->
            map export_room (Self.rooms s3) !! k = Some (export_room r))
    as Hexp.
  { intros k r Hk.
    change (map export_room (Self.rooms s3))
      with (export_room <$> Self.rooms s3).
    by rewrite list_lookup_fmap, Hk. }
  destruct (Hcov i j t Ht Hwall)
    as [(r & Hr & Hc)|(k & r & c & r' & hf & Hk & Hin & Hc & Hon)].
  - left. exists (export_room r). split.
    + apply list_elem_of_fmap. eauto.
    + apply elem_of_cells in Hc as [Hx Hy].
      apply elem_of_range in Hx. apply elem_of_range in Hy.
      split; simpl; lia.
  - right. exists k, (export_room r), c, (export_room r'), hf.
    split; [by apply Hexp|]. split; [done|]. split; [by apply Hexp | done].
Qed.

Lemma open_tiles_in_rooms_or_corridors_witness :
  exists row tag,
    Output.grid cave_dungeon !! 4%nat = Some row /\
    row !! 7%nat = Some tag /\ tag <> "wall"%string /\
    ((exists r, r ∈ Output.rooms cave_dungeon /\
                in_rect (7, 4) (RoomDict.bounds r)) \/
     (exists k r c r' horizontal_first,
        Output.rooms cave_dungeon !! k = Some r /\
        c ∈ RoomDict.connections r /\
        Output.rooms cave_dungeon !! c = Some r' /\
        (7, 4) ∈ corridor_cells horizontal_first
                   (rect_center (RoomDict.bounds r))
                   (rect_center (RoomDict.bounds r')))).
Proof.
  eexists _, _. split; [reflexivity|]. split; [reflexivity|].
  split; [discriminate|].
  eapply (@open_tiles_in_rooms_or_corridors cave_gen cave_config (Some 42)
            [] cave_dungeon cave_run 7%nat 4%nat).
  - reflexivity.
  - reflexivity.
  - discriminate.
Defined.

(** X25: A generated dungeon without rooms is solid: every tile of its
    grid is a wall. *)
Theorem dungeon_without_rooms_is_solid `{RandomGen} (config : Config.t)
  (seed : option Z) (global : rng) (d : Output.t) :
  run_generator config seed global = Ok d ->
  Output.rooms d = [] ->
  forall row tag, row ∈ Output.grid d -> tag ∈ row -> tag = "wall"%string.
Proof.
  intros Hrun Hnone row tag Hrow Htag.
  apply run_generator_covered in Hrun as (sd & s3 & -> & Hcov).
  simpl in *. apply (f_equal length) in Hnone.
  rewrite length_map in Hnone. apply nil_length_inv in Hnone.
  apply list_elem_of_lookup in Hrow as [j Hj].
  apply list_elem_of_lookup in Htag as [i Hi].
  destruct (string_dec tag "wall") as [?|Hne]; [done|].
  destruct (exported_tile _ _ _ _ _ Hj Hi Hne) as (t & Ht & Hwall).
  rewrite Hnone in Hcov.
  destruct (Hcov i j t Ht Hwall)
    as [(r & Hr & _)|(k & r & c & r' & hf & Hk & _)].
  - by apply elem_of_nil in Hr.
  - by rewrite lookup_nil in Hk.
Qed.

(** A run that asks for no room and whose secret-room roll exceeds the
    chance. *)
Definition hollow_config : Config.t :=
  Config.mk "d" "cave" "novice" 0 0 4 4 6 4
            (4 # 10) (15 # 100) (1 # 10) (5 # 100) (1 # 10)
            [] cave_monsters cave_loot (Some cave_boss).

Definition hollow_gen : RandomGen := TapeGen (fun _ => [0; 900]).

Definition hollow_dungeon : Output.t :=
  Eval vm_compute in
    dungeon_of (@run_generator hollow_gen hollow_config (Some 42) []).

Lemma hollow_run :
  @run_generator hollow_gen hollow_config (Some 42) [] = Ok hollow_dungeon.
Proof. vm_compute. reflexivity. Qed.

Lemma dungeon_without_rooms_is_solid_witness :
  length (Output.grid hollow_dungeon) = 4%nat /\
  forall row tag,
    row ∈ Output.grid hollow_dungeon -> tag ∈ row -> tag = "wall"%string.
Proof.
  split; [reflexivity|].
  apply (@dungeon_without_rooms_is_solid hollow_gen hollow_config (Some 42)
           [] hollow_dungeon hollow_run).
  reflexivity.
Defined.
